(** * Maya rigging scripts: rig spec, name mapping, mirroring and FK build

    A shallow embedding of [Rigging/AuttoRigger.py], [Rigging/MirrorControls.py]
    and [Rigging/broken_FK.py].

    - Python strings are [string]; Python integers are [Z]; the floats that the
      host returns for positions and rotations are binary64 [float]s.
    - The rig spec (a list of dicts with the five keys "key", "name", "parent",
      "side", "required") is a list of records.
    - Calls into [maya.cmds] are commands of a small free monad: a script is a
      tree of host calls, and a host is a handler that answers them.  *)

From Stdlib Require Import ZArith List String Ascii Bool Lia Arith.
From Stdlib Require Import Decimal DecimalString DecimalN.
From Stdlib Require Import Floats.
Import ListNotations.

Open Scope string_scope.
Open Scope list_scope.

(** String concatenation, written apart from list concatenation. *)
Infix "^^" := String.append (at level 60, right associativity) : string_scope.

(* ================================================================== *)
(** * Part I: definitions *)
(* ================================================================== *)

(** ** Python string and integer primitives used by the scripts *)
Module PyStr.

(** [str(n)] for a natural number: its decimal digits, no leading zero. *)
Definition str_of_N (n : N) : string :=
  NilEmpty.string_of_uint (N.to_uint n).

(** [str(z)] for a Python int. *)
Definition str_of_int (z : Z) : string :=
  if (z <? 0)%Z then "-" ^^ str_of_N (Z.to_N (- z)) else str_of_N (Z.to_N z).

Fixpoint zeros (k : nat) : string :=
  match k with
  | O => ""
  | S k' => String "0" (zeros k')
  end.

(** Left zero fill of a digit string up to width [w]. *)
Definition zfill (w : nat) (digits : string) : string :=
  zeros (w - String.length digits) ^^ digits.

(** The format spec [{z:02d}]: sign-aware zero padding to total width 2. *)
Definition fmt_02d (z : Z) : string :=
  if (z <? 0)%Z then "-" ^^ zfill 1 (str_of_N (Z.to_N (- z)))
  else zfill 2 (str_of_N (Z.to_N z)).

(** [range(lo, hi)]. *)
Definition py_range (lo hi : Z) : list Z :=
  map (fun k => (lo + Z.of_nat k)%Z) (seq 0 (Z.to_nat (hi - lo))).

(** [s.startswith(p)]. *)
Definition startswith (s p : string) : bool := String.prefix p s.

(** [s[n:]] for a non-negative [n]. *)
Fixpoint drop (n : nat) (s : string) : string :=
  match n, s with
  | O, _ => s
  | S _, EmptyString => EmptyString
  | S n', String _ s' => drop n' s'
  end.

(** [s.endswith(p)]. *)
Definition endswith (s p : string) : bool :=
  (String.length p <=? String.length s)%nat
  && String.eqb (drop (String.length s - String.length p) s) p.

(** [s.replace(old, new, count)] for a non-empty [old], scanning left to
    right over non-overlapping occurrences; [count = None] is the call
    without a count.  [skip] is the number of characters of a matched
    occurrence still to be consumed. *)
Fixpoint replace_from (old new : string) (count : option nat) (skip : nat)
         (s : string) : string :=
  match s with
  | EmptyString => EmptyString
  | String c s' =>
      match skip with
      | S k => replace_from old new count k s'
      | O =>
          match count with
          | Some O => s
          | _ =>
              if String.prefix old s
              then new ^^ replace_from old new (option_map Nat.pred count)
                                       (String.length old - 1) s'
              else String c (replace_from old new count 0 s')
          end
      end
  end.

(** With an empty [old] Python inserts [new] before every character and at
    the end (up to [count] insertions). *)
Fixpoint intersperse (new : string) (count : option nat) (s : string) : string :=
  match count with
  | Some O => s
  | _ =>
      match s with
      | EmptyString => new
      | String c s' =>
          new ^^ String c (intersperse new (option_map Nat.pred count) s')
      end
  end.

Definition replace_count (s old new : string) (count : option nat) : string :=
  match old with
  | EmptyString => intersperse new count s
  | _ => replace_from old new count 0 s
  end.

(** [s.replace(old, new)]. *)
Definition replace (s old new : string) : string := replace_count s old new None.

(** [s.split(sep)[-1]] for a one-character separator: the part of [s] after
    the last separator. *)
Fixpoint split_last (sep : ascii) (s : string) : string :=
  match s with
  | EmptyString => EmptyString
  | String c s' =>
      if existsb (Ascii.eqb sep) (list_ascii_of_string s')
      then split_last sep s'
      else if Ascii.eqb c sep then s' else s
  end.

(** Truthiness of a string that may be [None]. *)
Definition truthy (o : option string) : bool :=
  match o with
  | Some (String _ _) => true
  | _ => false
  end.

(** Character classes and a digit reader, used to state and prove facts
    about formatted numbers. *)
Definition is_digit (c : ascii) : bool :=
  existsb (Ascii.eqb c) ["0"; "1"; "2"; "3"; "4"; "5"; "6"; "7"; "8"; "9"]%char.

Fixpoint all_chars (p : ascii -> bool) (s : string) : bool :=
  match s with
  | EmptyString => true
  | String c s' => p c && all_chars p s'
  end.

Definition all_digits (s : string) : bool := all_chars is_digit s.

(** [starts_not c s]: [s] does not begin with the character [c]. *)
Definition starts_not (c : ascii) (s : string) : Prop :=
  match s with
  | EmptyString => True
  | String x _ => Ascii.eqb x c = false
  end.

(** Reads a digit string back as a number (leading zeros allowed). *)
Definition parse_N (s : string) : option N :=
  option_map N.of_uint (NilEmpty.uint_of_string s).

End PyStr.

(** ** The rig spec of [AuttoRigger.py] *)
Module RigSpec.
Import PyStr.

(** One step dict of the spec. *)
Record entry : Type := mk_entry {
  key : string;
  name : string;
  parent : option string;
  side : string;
  required : bool
}.

Definition spec_t : Type := list entry.

(** Body of the spine loop: the loop state is the list under construction
    and the variable [prev]. *)
Definition spine_step (st : spec_t * string) (i : Z) : spec_t * string :=
  let '(spec, prev) := st in
  let j := "Spine_" ^^ fmt_02d i ^^ "_FK_Jnt" in
  (spec ++ [mk_entry ("SPN" ^^ str_of_int i) j (Some prev) "C" true], j).

(** Body of the neck loop. *)
Definition neck_step (st : spec_t * string) (i : Z) : spec_t * string :=
  let '(spec, prev) := st in
  let j := "Neck_" ^^ fmt_02d i ^^ "_FK_Jnt" in
  (spec ++ [mk_entry ("NCK" ^^ str_of_int i) j (Some prev) "C" true], j).

Definition left_arm (chest : string) : spec_t :=
  [ mk_entry "L_CLAV" "L_Clav_FK_Jnt"   (Some chest)             "L" true;
    mk_entry "L_ARM1" "L_Arm_01_FK_Jnt" (Some "L_Clav_FK_Jnt")   "L" true;
    mk_entry "L_ARM2" "L_Arm_02_FK_Jnt" (Some "L_Arm_01_FK_Jnt") "L" true;
    mk_entry "L_ARM3" "L_Arm_03_FK_Jnt" (Some "L_Arm_02_FK_Jnt") "L" true;
    mk_entry "L_HAND" "L_Hand_FK_Jnt"   (Some "L_Arm_03_FK_Jnt") "L" true ].

Definition left_leg : spec_t :=
  [ mk_entry "L_LEGCLAV" "L_Leg_Clav_FK_Jnt" (Some "Pelvis_FK_Jnt")     "L" true;
    mk_entry "L_LEG1"    "L_Leg_01_FK_Jnt"   (Some "L_Leg_Clav_FK_Jnt") "L" true;
    mk_entry "L_LEG2"    "L_Leg_02_FK_Jnt"   (Some "L_Leg_01_FK_Jnt")   "L" true;
    mk_entry "L_LEG3"    "L_Leg_03_FK_Jnt"   (Some "L_Leg_02_FK_Jnt")   "L" true;
    mk_entry "L_FOOT1"   "L_Foot_01_FK_Jnt"  (Some "L_Leg_03_FK_Jnt")   "L" true;
    mk_entry "L_FOOT2"   "L_Foot_02_FK_Jnt"  (Some "L_Foot_01_FK_Jnt")  "L" true;
    mk_entry "L_FOOT3"   "L_Foot_03_FK_Jnt"  (Some "L_Foot_02_FK_Jnt")  "L" false ].

(** [build_base_spec(spine_count, neck_count)]: a fresh list on every call. *)
Definition build_base_spec (spine_count neck_count : Z) : spec_t :=
  let spec := [] in
  let spec := spec ++ [mk_entry "COG" "COG_FK_Jnt" None "C" true] in
  let spec := spec ++ [mk_entry "PELV" "Pelvis_FK_Jnt" (Some "COG_FK_Jnt") "C" true] in
  let prev := "Pelvis_FK_Jnt" in
  let '(spec, prev) :=
    fold_left spine_step (py_range 1 (spine_count + 1)) (spec, prev) in
  let spec := spec ++ [mk_entry "CHEST" "Chest_FK_Jnt" (Some prev) "C" true] in
  let chest := "Chest_FK_Jnt" in
  let prev := chest in
  let '(spec, prev) :=
    fold_left neck_step (py_range 1 (neck_count + 1)) (spec, prev) in
  let spec := spec ++ [mk_entry "HEAD" "Head_FK_Jnt" (Some prev) "C" true] in
  let spec := spec ++ left_arm chest in
  let spec := spec ++ left_leg in
  spec.

(** Body of the inner loop of [append_fingers] for finger [f]. *)
Definition finger_step (f : Z) (st : spec_t * string) (s : Z) : spec_t * string :=
  let '(spec, prev) := st in
  let j := "L_Finger_" ^^ fmt_02d f ^^ "_" ^^ fmt_02d s ^^ "_FK_Jnt" in
  (spec ++ [mk_entry ("L_F" ^^ str_of_int f ^^ "_" ^^ str_of_int s) j
                     (Some prev) "L" true], j).

(** [append_fingers(spec, finger_count, segments)].  The Python function
    appends to the list it is given and returns that same list; the value
    here is the content of the list after the call. *)
Definition append_fingers (spec : spec_t) (finger_count segments : Z) : spec_t :=
  fold_left
    (fun spec f =>
       let prev := "L_Hand_FK_Jnt" in
       fst (fold_left (finger_step f) (py_range 1 (segments + 1)) (spec, prev)))
    (py_range 1 (finger_count + 1)) spec.

(** The data that [AutoRigWizard.rebuild_spec] stores on the wizard. *)
Record wizard : Type := mk_wizard {
  w_spec : spec_t;
  w_steps : spec_t;
  w_step_index : Z
}.

(** [s["side"] in ("C", "L")]. *)
Definition side_in_CL (s : entry) : bool :=
  existsb (String.eqb (side s)) ["C"; "L"].

(** [AutoRigWizard.rebuild_spec], from the four spin-box values.  (The label
    refresh at its end only touches the dialog.) *)
Definition rebuild_spec (spine_count neck_count finger_count finger_segments : Z)
  : wizard :=
  let spec := build_base_spec spine_count neck_count in
  let spec :=
    if (finger_count >? 0)%Z
    then append_fingers spec finger_count finger_segments
    else spec in
  mk_wizard spec (filter side_in_CL spec) 0.

(** [swap_LR(name)]. *)
Definition swap_LR (name : string) : string :=
  if startswith name "L_" then "R_" ^^ drop 2 name
  else if startswith name "R_" then "L_" ^^ drop 2 name
  else name.

(** [AutoRigWizard.guide_name_for_joint(joint_name)]. *)
Definition guide_name_for_joint (joint_name : string) : string :=
  replace (replace joint_name "_Jnt" "_Guide") "_FK_" "_FK_".

End RigSpec.


(** ** Closed forms and well-formedness of a spec

    The loops of the builders thread the variable [prev]; [chain] is the list
    such a loop appends, and [chain_last] the value of [prev] it leaves. *)
Module RigSpecForms.
Import PyStr RigSpec.

Definition spine_name (i : Z) : string := "Spine_" ^^ fmt_02d i ^^ "_FK_Jnt".
Definition neck_name (i : Z) : string := "Neck_" ^^ fmt_02d i ^^ "_FK_Jnt".
Definition finger_name (f s : Z) : string :=
  "L_Finger_" ^^ fmt_02d f ^^ "_" ^^ fmt_02d s ^^ "_FK_Jnt".

Definition spine_entry (i : Z) (prev : string) : entry :=
  mk_entry ("SPN" ^^ str_of_int i) (spine_name i) (Some prev) "C" true.
Definition neck_entry (i : Z) (prev : string) : entry :=
  mk_entry ("NCK" ^^ str_of_int i) (neck_name i) (Some prev) "C" true.
Definition finger_entry (f s : Z) (prev : string) : entry :=
  mk_entry ("L_F" ^^ str_of_int f ^^ "_" ^^ str_of_int s) (finger_name f s)
           (Some prev) "L" true.

Fixpoint chain (mk : Z -> string -> entry) (prev : string) (idxs : list Z)
  : spec_t :=
  match idxs with
  | [] => []
  | i :: rest => mk i prev :: chain mk (name (mk i prev)) rest
  end.

Fixpoint chain_last (mk : Z -> string -> entry) (prev : string) (idxs : list Z)
  : string :=
  match idxs with
  | [] => prev
  | i :: rest => chain_last mk (name (mk i prev)) rest
  end.

Definition arm_names : list string :=
  ["L_Clav_FK_Jnt"; "L_Arm_01_FK_Jnt"; "L_Arm_02_FK_Jnt"; "L_Arm_03_FK_Jnt";
   "L_Hand_FK_Jnt"].

Definition leg_names : list string :=
  ["L_Leg_Clav_FK_Jnt"; "L_Leg_01_FK_Jnt"; "L_Leg_02_FK_Jnt";
   "L_Leg_03_FK_Jnt"; "L_Foot_01_FK_Jnt"; "L_Foot_02_FK_Jnt";
   "L_Foot_03_FK_Jnt"].

(** The names a build can produce: the fixed ones and the three numbered
    families (loop counters start at 1). *)
Definition fixed_names : list string :=
  ["COG_FK_Jnt"; "Pelvis_FK_Jnt"; "Chest_FK_Jnt"; "Head_FK_Jnt"]
  ++ arm_names ++ leg_names.

Inductive generated_name : string -> Prop :=
| gen_fixed n : In n fixed_names -> generated_name n
| gen_spine i : (1 <= i)%Z -> generated_name (spine_name i)
| gen_neck i : (1 <= i)%Z -> generated_name (neck_name i)
| gen_finger f s : (1 <= f)%Z -> (1 <= s)%Z -> generated_name (finger_name f s).

(** The fingers appended for the given counts. *)
Definition fingers (finger_count segments : Z) : spec_t :=
  flat_map (fun f => chain (finger_entry f) "L_Hand_FK_Jnt"
                           (py_range 1 (segments + 1)))
           (py_range 1 (finger_count + 1)).

(** Every parent is null or the name of a record strictly earlier in the
    sequence. *)
Definition parents_precede (spec : spec_t) : Prop :=
  forall pre e post,
    spec = pre ++ e :: post ->
    parent e = None \/ exists e', In e' pre /\ parent e = Some (name e').

(** The same, read left to right with the names seen so far. *)
Fixpoint closed_under (seen : list string) (spec : spec_t) : Prop :=
  match spec with
  | [] => True
  | e :: rest =>
      match parent e with
      | None => True
      | Some p => In p seen
      end /\ closed_under (name e :: seen) rest
  end.

(** The characters of a name in front of its four-character suffix. *)
Definition stem_of (n : string) : string :=
  String.substring 0 (String.length n - 4) n.

Definition not_J (c : ascii) : bool := negb (Ascii.eqb c "J").

(** What holds of every record the builders write: its side is "C" or "L",
    its name does not start with "R_", and an "L" record has an "L_" name. *)
Definition entry_ok (e : entry) : Prop :=
  (side e = "C" \/ side e = "L")
  /\ startswith (name e) "R_" = false
  /\ (side e = "L" -> startswith (name e) "L_" = true).

(** What [build_fk_joints] relies on in a spec: unique names, parents that
    precede, and names that are neither a guide name nor the name of the
    joints group. *)
Definition hygienic (spec : spec_t) : Prop :=
  NoDup (map name spec)
  /\ parents_precede spec
  /\ (forall e e', In e spec -> In e' spec ->
         name e' <> guide_name_for_joint (name e))
  /\ (forall e, In e spec ->
         name e <> "RigJoints_GRP"
         /\ guide_name_for_joint (name e) <> "RigJoints_GRP").

(** Names are unique within the build. *)
Definition names_unique (spec : spec_t) : Prop := NoDup (map name spec).

Definition well_formed (spec : spec_t) : Prop :=
  parents_precede spec /\ names_unique spec.

End RigSpecForms.

(** ** Scripts as trees of host calls

    A script calls the host ([maya.cmds]) and continues with the answer.
    [C] is the type of commands, [A c] the type of the answer to [c].
    [Raise] is a Python exception raised by the script itself (an index out
    of range, a subscript on [None]). *)
Module Script.

Section Prog.
Context {C : Type} {A : C -> Type}.

Inductive prog (R : Type) : Type :=
| Ret (r : R)
| Raise (exn : string)
| Call (c : C) (k : A c -> prog R).

Arguments Ret {R} r.
Arguments Raise {R} exn.
Arguments Call {R} c k.

Fixpoint bind {R Q : Type} (p : prog R) (f : R -> prog Q) : prog Q :=
  match p with
  | Ret r => f r
  | Raise e => Raise e
  | Call c k => Call c (fun a => bind (k a) f)
  end.

(** One host call, returning its answer. *)
Definition call (c : C) : prog (A c) := Call c (fun a => Ret a).

(** [for x in xs: body(x)]. *)
Fixpoint for_each {X : Type} (xs : list X) (body : X -> prog unit)
  : prog unit :=
  match xs with
  | [] => Ret tt
  | x :: rest => bind (body x) (fun _ => for_each rest body)
  end.

(** A loop that updates local variables [st] of the enclosing function. *)
Fixpoint for_fold {X St : Type} (xs : list X) (st : St)
         (body : St -> X -> prog St) : prog St :=
  match xs with
  | [] => Ret st
  | x :: rest => bind (body st x) (fun st' => for_fold rest st' body)
  end.

(** How a run ends. *)
Inductive result (R : Type) : Type :=
| Done (r : R)
| PyError (exn : string)
| HostError (c : C).

Arguments Done {R} r.
Arguments PyError {R} exn.
Arguments HostError {R} c.

(** A host answers a command in a state, or refuses it ([None]: the host
    raises, and the script stops there). *)
Definition handler (S : Type) : Type := forall c : C, S -> option (A c * S).

(** A run: the commands issued in order, how the run ended, and the host
    state it left. *)
Record run (R S : Type) : Type := mk_run {
  log : list C;
  outcome : result R;
  final : S
}.

Arguments mk_run {R S}.
Arguments log {R S}.
Arguments outcome {R S}.
Arguments final {R S}.

Fixpoint exec {R S : Type} (h : handler S) (p : prog R) (s : S) : run R S :=
  match p with
  | Ret r => mk_run [] (Done r) s
  | Raise e => mk_run [] (PyError e) s
  | Call c k =>
      match h c s with
      | None => mk_run [c] (HostError c) s
      | Some (a, s') =>
          let r := exec h (k a) s' in
          mk_run (c :: log r) (outcome r) (final r)
      end
  end.

(** The run of [bind p f]: the run of [p], then, if it ended normally, the
    run of the continuation from the state [p] left. *)
Definition then_run {R Q S : Type} (h : handler S) (r : run R S)
           (f : R -> prog Q) : run Q S :=
  match outcome r with
  | Done a =>
      let r' := exec h (f a) (final r) in
      mk_run (log r ++ log r') (outcome r') (final r')
  | PyError e => mk_run (log r) (PyError e) (final r)
  | HostError c => mk_run (log r) (HostError c) (final r)
  end.

End Prog.

Arguments prog C A R : clear implicits.
Arguments handler C A S : clear implicits.
Arguments result C R : clear implicits.
Arguments run C R S : clear implicits.
Arguments Ret {C A R} r.
Arguments Raise {C A R} exn.
Arguments Call {C A R} c k.
Arguments Done {C R} r.
Arguments PyError {C R} exn.
Arguments HostError {C R} c.
Arguments mk_run {C R S}.
Arguments log {C R S}.
Arguments outcome {C R S}.
Arguments final {C R S}.

Declare Scope prog_scope.
Delimit Scope prog_scope with prog.
Notation "x <- m ;; k" := (bind m (fun x => k))
  (at level 61, m at next level, right associativity) : prog_scope.
Notation "m ;;; k" := (bind m (fun _ => k))
  (at level 61, right associativity) : prog_scope.

(** [l[i]] on a Python list. *)
Definition item {C A X} (l : list X) (i : nat) : prog C A X :=
  match nth_error l i with
  | Some x => Ret x
  | None => Raise "IndexError"
  end.

(** [o[i]] where [o] may be [None]. *)
Definition item_opt {C A X} (o : option (list X)) (i : nat) : prog C A X :=
  match o with
  | Some l => item l i
  | None => Raise "TypeError"
  end.

(** Truthiness of a list that may be [None] ([if not x]). *)
Definition nonempty {X} (o : option (list X)) : bool :=
  match o with
  | Some (_ :: _) => true
  | _ => false
  end.

End Script.

(** ** [Rigging/AuttoRigger.py]: helpers and the wizard's scene operations *)
Module AutoRig.
Import PyStr RigSpec Script.
Open Scope prog_scope.

(** The calls into [maya.cmds] made by the functions below. *)
Inductive cmd : Type :=
| ObjExists (n : string)                      (* objExists(n) *)
| GroupEmpty (n : string)                     (* group(em=True, name=n) *)
| LsSelTransforms                             (* ls(sl=True, type="transform") *)
| XformQueryMatrix (n : string)               (* xform(n, q=True, ws=True, m=True) *)
| XformSetMatrix (n : string) (m : list float)(* xform(n, ws=True, m=m) *)
| XformQueryT (n : string)                    (* xform(n, q=True, ws=True, t=True) *)
| XformQueryRo (n : string)                   (* xform(n, q=True, ws=True, ro=True) *)
| XformSetT (n : string) (t : list float)     (* xform(n, ws=True, t=t) *)
| XformSetRo (n : string) (r : list float)    (* xform(n, ws=True, ro=r) *)
| Warning (msg : string)                      (* warning(msg) *)
| SpaceLocator (n : string)                   (* spaceLocator(name=n) *)
| Parent (child par : string)                 (* parent(child, par) *)
| SetAttr (plug : string) (v : Z)             (* setAttr(plug, v) *)
| SelectClear                                 (* select(cl=True) *)
| SelectReplace (ns : list string)            (* select(ns, r=True) *)
| InViewMessage (msg : string)                (* inViewMessage(amg=msg, ...) *)
| Joint (n : string) (p : list float)         (* joint(name=n, p=p) *)
| ListRelativesParent (n : string).           (* listRelatives(n, p=True) *)

Definition ans (c : cmd) : Type :=
  match c with
  | ObjExists _ => bool
  | GroupEmpty _ => string
  | LsSelTransforms => list string
  | XformQueryMatrix _ | XformQueryT _ | XformQueryRo _ => list float
  | SpaceLocator _ | Parent _ _ => list string
  | Joint _ _ => string
  | ListRelativesParent _ => option (list string)
  | _ => unit
  end.

Definition script : Type -> Type := prog cmd ans.

Definition call (c : cmd) : script (ans c) := Script.call c.

Definition guides_grp : string := "RigGuides_GRP".
Definition joints_grp : string := "RigJoints_GRP".

(** [ensure_group(name)]. *)
Definition ensure_group (n : string) : script string :=
  e <- call (ObjExists n) ;;
  if negb e then call (GroupEmpty n) else Ret n.

(** [snap_to_selection(node)]. *)
Definition snap_to_selection (node : string) : script bool :=
  sel <- call LsSelTransforms ;;
  match sel with
  | [] => Ret false
  | sel0 :: _ =>
      m <- call (XformQueryMatrix sel0) ;;
      call (XformSetMatrix node m) ;;;
      Ret true
  end.

(** The list [[-t[0], t[1], t[2]]] of [mirror_x_world]; [None] when an index
    is out of range. *)
Definition mirror_t (t : list float) : option (list float) :=
  match t with
  | t0 :: t1 :: t2 :: _ => Some [(- t0)%float; t1; t2]
  | _ => None
  end.

(** [mirror_x_world(src, dst)]. *)
Definition mirror_x_world (src dst : string) : script unit :=
  t <- call (XformQueryT src) ;;
  r <- call (XformQueryRo src) ;;
  match mirror_t t with
  | None => Raise "IndexError"
  | Some t_m =>
      call (XformSetT dst t_m) ;;;
      call (XformSetRo dst r)
  end.

(** The block under [if not cmds.objExists(gR)]: a new locator for a guide,
    put under the guides group and displayed larger. *)
Definition make_locator (g : string) : script string :=
  l <- call (SpaceLocator g) ;;
  g' <- item l 0 ;;
  call (Parent g' guides_grp) ;;;
  call (SetAttr (g' ^^ ".localScaleX") 2) ;;;
  call (SetAttr (g' ^^ ".localScaleY") 2) ;;;
  call (SetAttr (g' ^^ ".localScaleZ") 2) ;;;
  Ret g'.

(** Body of the loop of [mirror_left_to_right_guides]. *)
Definition mirror_entry (s : entry) : script unit :=
  let jL := name s in
  let gL := guide_name_for_joint jL in
  e <- call (ObjExists gL) ;;
  if negb e then Ret tt
  else
    let jR := swap_LR jL in
    let gR := guide_name_for_joint jR in
    e' <- call (ObjExists gR) ;;
    gR <- (if negb e' then make_locator gR else Ret gR) ;;
    mirror_x_world gL gR.

(** [AutoRigWizard.mirror_left_to_right_guides], on [self.spec]. *)
Definition mirror_left_to_right_guides (spec : spec_t) : script unit :=
  ensure_group guides_grp ;;;
  let left := filter (fun s => String.eqb (side s) "L") spec in
  for_each left mirror_entry ;;;
  call SelectClear ;;;
  call (InViewMessage "Mirrored L → R guides across world X.").

(** Body of the first loop of [build_fk_joints]; [created] is the local
    list of that name. *)
Definition build_entry (created : list string) (s : entry)
  : script (list string) :=
  let j := name s in
  let g := guide_name_for_joint j in
  ge <- call (ObjExists g) ;;
  if negb ge then
    if required s
    then call (Warning ("Missing guide for required joint: " ^^ j)) ;;;
         Ret created
    else Ret created
  else
    je <- call (ObjExists j) ;;
    if je then
      call (Warning ("Joint already exists, skipping: " ^^ j)) ;;;
      Ret created
    else
      pos <- call (XformQueryT g) ;;
      call SelectClear ;;;
      jnt <- call (Joint j pos) ;;
      let created := created ++ [jnt] in
      match parent s with
      | Some (String c p') =>
          let par := String c p' in
          pe <- call (ObjExists par) ;;
          if pe then call (Parent jnt par) ;;; Ret created
          else Ret created
      | _ => Ret created
      end.

(** Body of the second loop: a created joint without a parent goes under
    the joints group. *)
Definition group_root (j : string) : script unit :=
  rel <- call (ListRelativesParent j) ;;
  if negb (nonempty rel) then call (Parent j joints_grp) ;;; Ret tt
  else Ret tt.

(** [AutoRigWizard.build_fk_joints], on [self.spec]. *)
Definition build_fk_joints (spec : spec_t) : script unit :=
  ensure_group joints_grp ;;;
  created <- for_fold spec [] build_entry ;;
  for_each created group_root ;;;
  match created with
  | _ :: _ => call (SelectReplace created)
  | [] => call SelectClear
  end ;;;
  call (InViewMessage
          ("Built " ^^ str_of_int (Z.of_nat (List.length created))
           ^^ " FK joints from guides.")).

(** The nodes a mirror pass may create: a locator is created only under the
    guide name of the swapped name of a left-side record of the spec. *)
Definition mirrored_locator (spec : spec_t) (c : cmd) : Prop :=
  match c with
  | SpaceLocator n =>
      exists e, In e spec /\ side e = "L"
                /\ n = guide_name_for_joint (swap_LR (name e))
  | Joint _ _ => False
  | _ => True
  end.

End AutoRig.

(** ** A reference host for [AuttoRigger.py]

    A flat scene: nodes are identified by their names, each with a parent
    name, a world translation and a world rotation, kept as the lists the
    host was given.  The host refuses ([None]) a query or an edit of a node
    that does not exist, parenting a node to itself, and what this scene
    does not model: world matrices, and the automatic renaming Maya applies
    when a new node is given a name already in use. *)
Module FlatScene.
Import PyStr Script AutoRig.

Inductive kind : Type := Transform | Locator | JointNode.

Record node : Type := mk_node {
  nd_name : string;
  nd_kind : kind;
  nd_parent : option string;
  nd_t : list float;
  nd_ro : list float
}.

Record scene : Type := mk_scene {
  nodes : list node;
  selection : list string
}.

Definition zero3 : list float := [0%float; 0%float; 0%float].

Definition named (n : string) (nd : node) : bool := String.eqb (nd_name nd) n.

Definition node_exists (s : scene) (n : string) : bool :=
  existsb (named n) (nodes s).

Definition find_node (s : scene) (n : string) : option node :=
  find (named n) (nodes s).

Definition update_node (n : string) (f : node -> node) (s : scene) : scene :=
  mk_scene (map (fun nd => if named n nd then f nd else nd) (nodes s))
           (selection s).

(** A new node at the end of the scene; the host selects what it creates. *)
Definition add_node (nd : node) (s : scene) : scene :=
  mk_scene (nodes s ++ [nd]) [nd_name nd].

Definition set_parent (p : string) (nd : node) : node :=
  mk_node (nd_name nd) (nd_kind nd) (Some p) (nd_t nd) (nd_ro nd).
Definition set_t (t : list float) (nd : node) : node :=
  mk_node (nd_name nd) (nd_kind nd) (nd_parent nd) t (nd_ro nd).
Definition set_ro (r : list float) (nd : node) : node :=
  mk_node (nd_name nd) (nd_kind nd) (nd_parent nd) (nd_t nd) r.

(** The parent a new joint gets: the first selected node, if any. *)
Definition joint_parent (s : scene) : option string :=
  match selection s with
  | p :: _ => if node_exists s p then Some p else None
  | [] => None
  end.

Definition handle : handler cmd ans scene :=
  fun c s =>
    match c return option (ans c * scene) with
    | ObjExists n => Some (node_exists s n, s)
    | GroupEmpty n =>
        if node_exists s n then None
        else Some (n, add_node (mk_node n Transform None zero3 zero3) s)
    | LsSelTransforms => Some (selection s, s)
    | XformQueryMatrix _ => None
    | XformSetMatrix _ _ => None
    | XformQueryT n => option_map (fun nd => (nd_t nd, s)) (find_node s n)
    | XformQueryRo n => option_map (fun nd => (nd_ro nd, s)) (find_node s n)
    | XformSetT n t =>
        if node_exists s n then Some (tt, update_node n (set_t t) s) else None
    | XformSetRo n r =>
        if node_exists s n then Some (tt, update_node n (set_ro r) s) else None
    | Warning _ => Some (tt, s)
    | SpaceLocator n =>
        if node_exists s n then None
        else Some ([n], add_node (mk_node n Locator None zero3 zero3) s)
    | Parent child par =>
        if node_exists s child && node_exists s par
           && negb (String.eqb child par)
        then Some ([child], update_node child (set_parent par) s)
        else None
    | SetAttr _ _ => Some (tt, s)
    | SelectClear => Some (tt, mk_scene (nodes s) [])
    | SelectReplace ns =>
        if forallb (node_exists s) ns then Some (tt, mk_scene (nodes s) ns)
        else None
    | InViewMessage _ => Some (tt, s)
    | Joint n p =>
        if node_exists s n then None
        else Some (n, add_node (mk_node n JointNode (joint_parent s) p zero3) s)
    | ListRelativesParent n =>
        option_map
          (fun nd => (option_map (fun p => [p]) (nd_parent nd), s))
          (find_node s n)
    end.

(** A scene made of locators at the given world positions, nothing
    selected. *)
Definition locators (l : list (string * list float)) : scene :=
  mk_scene (map (fun '(n, t) => mk_node n Locator None t zero3) l) [].

(** World translation of a node, as [XformQueryT] answers it. *)
Definition world_t (s : scene) (n : string) : list float :=
  match find_node s n with
  | Some nd => nd_t nd
  | None => []
  end.

(** What a run of [build_fk_joints] did, read off its commands: the joints
    it created with their positions, and the warnings it printed. *)
Definition joints_created (l : list cmd) : list (string * list float) :=
  flat_map (fun c => match c with Joint n p => [(n, p)] | _ => [] end) l.

Definition warnings (l : list cmd) : list string :=
  flat_map (fun c => match c with Warning m => [m] | _ => [] end) l.

Section Build.
Variable s0 : scene.

(** In the scene [s0]: the guide of joint [n] is placed; the name [n] is
    taken; a joint is built for [n]. *)
Definition placed (n : string) : bool :=
  node_exists s0 (RigSpec.guide_name_for_joint n).
Definition taken (n : string) : bool := node_exists s0 n.
Definition built (n : string) : bool := placed n && negb (taken n).

(** The parent a built joint is attached to in the loop: the parent named by
    its entry, when that node is in the scene by then -- it was there from
    the start, or it was built from its guide earlier in the walk. *)
Definition attach_to (e : RigSpec.entry) : option string :=
  match RigSpec.parent e with
  | Some (String c p') =>
      let par := String c p' in
      if taken par || placed par then Some par else None
  | _ => None
  end.

(** The parent of a built joint when the run ends. *)
Definition final_parent (e : RigSpec.entry) : string :=
  match attach_to e with
  | Some p => p
  | None => joints_grp
  end.

(** The warnings of one entry. *)
Definition entry_warnings (e : RigSpec.entry) : list string :=
  let j := RigSpec.name e in
  if negb (placed j) then
    if RigSpec.required e
    then ["Missing guide for required joint: " ^^ j] else []
  else if taken j then ["Joint already exists, skipping: " ^^ j]
  else [].

(** The commands of one entry. *)
Definition entry_log (e : RigSpec.entry) : list cmd :=
  let j := RigSpec.name e in
  let g := RigSpec.guide_name_for_joint j in
  if negb (placed j) then
    ObjExists g
    :: (if RigSpec.required e
        then [Warning ("Missing guide for required joint: " ^^ j)] else [])
  else if taken j then
    [ObjExists g; ObjExists j;
     Warning ("Joint already exists, skipping: " ^^ j)]
  else
    [ObjExists g; ObjExists j; XformQueryT g; SelectClear;
     Joint j (world_t s0 g)]
    ++ match RigSpec.parent e with
       | Some (String c p') =>
           let par := String c p' in
           ObjExists par
           :: (if taken par || placed par then [Parent j par] else [])
       | _ => []
       end.

(** The joint node of an entry, under parent [p]. *)
Definition joint_node (e : RigSpec.entry) (p : option string) : node :=
  mk_node (RigSpec.name e) JointNode p
          (world_t s0 (RigSpec.guide_name_for_joint (RigSpec.name e))) zero3.

Definition group_node : node := mk_node joints_grp Transform None zero3 zero3.

(** The scene as a lookup function, once the first loop has walked the
    entries [pre] and the second loop has handled the joints named in
    [grouped]: the nodes of [s0] as they were, the joints group, and the
    joint of every entry of [pre] that was built. *)
Definition lookup_after (grouped : list string) (pre : RigSpec.spec_t)
           (n : string) : option node :=
  match find_node s0 n with
  | Some nd => Some nd
  | None =>
      if String.eqb n joints_grp then Some group_node
      else
        match find (fun e => String.eqb (RigSpec.name e) n) pre with
        | Some e =>
            if built n
            then Some (joint_node e
                         (if existsb (String.eqb n) grouped
                          then Some (final_parent e) else attach_to e))
            else None
        | None => None
        end
  end.

(** A scene state agrees with a lookup function. *)
Definition agrees (s : scene) (f : string -> option node) : Prop :=
  forall n, find_node s n = f n.

(** The commands of the second loop for one built joint. *)
Definition root_log (e : RigSpec.entry) : list cmd :=
  ListRelativesParent (RigSpec.name e)
  :: match attach_to e with
     | Some _ => []
     | None => [Parent (RigSpec.name e) joints_grp]
     end.

(** The commands of a whole run of [build_fk_joints] from [s0]. *)
Definition expected_log (spec : RigSpec.spec_t) : list cmd :=
  let es := filter (fun e => built (RigSpec.name e)) spec in
  let created := map RigSpec.name es in
  [ObjExists joints_grp]
  ++ (if taken joints_grp then [] else [GroupEmpty joints_grp])
  ++ flat_map entry_log spec
  ++ flat_map root_log es
  ++ [match created with
      | _ :: _ => SelectReplace created
      | [] => SelectClear
      end;
      InViewMessage
        ("Built " ^^ str_of_int (Z.of_nat (List.length created))
         ^^ " FK joints from guides.")].

End Build.

End FlatScene.

(** ** [Rigging/MirrorControls.py] *)
Module MirrorCtl.
Import PyStr Script.
Open Scope prog_scope.

Inductive cmd : Type :=
| LsSelTransforms                     (* ls(sl=True, type="transform") *)
| Warning (msg : string)              (* warning(msg) *)
| ObjExists (n : string)              (* objExists(n) *)
| GroupEmptyWorld (n : string)        (* group(em=True, name=n, w=True) *)
| ListRelativesParent (n : string)    (* listRelatives(n, parent=True, type="transform") *)
| Duplicate (n : string)              (* duplicate(n) *)
| Rename (n new : string)             (* rename(n, new) *)
| ListRelativesChildren (n : string)  (* listRelatives(n, children=True, type="transform", fullPath=True) *)
| ParentWorld (n : string)            (* parent(n, world=True) *)
| MatchTransform (n target : string)  (* matchTransform(n, target, pos=True, rot=True) *)
| Parent (child par : string)         (* parent(child, par) *)
| ScaleAbsolute (x y z : Z) (n : string)  (* scale(x, y, z, n, absolute=True) *)
| Delete (n : string)                 (* delete(n) *)
| SetAttr (plug : string) (v : Z)     (* setAttr(plug, v) *)
| MakeIdentity (n : string).          (* makeIdentity(n, apply=True, translate=True, rotate=True, scale=True, normal=True) *)

Definition ans (c : cmd) : Type :=
  match c with
  | LsSelTransforms | Duplicate _ | ParentWorld _ | Parent _ _ => list string
  | ObjExists _ => bool
  | GroupEmptyWorld _ | Rename _ _ => string
  | ListRelativesParent _ | ListRelativesChildren _ => option (list string)
  | _ => unit
  end.

Definition script : Type -> Type := prog cmd ans.

Definition call (c : cmd) : script (ans c) := Script.call c.

(** Which commands create, rename, reparent or otherwise edit nodes. *)
Definition edits_scene (c : cmd) : bool :=
  match c with
  | LsSelTransforms | Warning _ | ObjExists _
  | ListRelativesParent _ | ListRelativesChildren _ => false
  | _ => true
  end.

(** [reparent_controls_to_groups(controls)]. *)
Definition reparent_controls_to_groups (controls : list string) : script unit :=
  for_each controls (fun ctrl =>
    let ctrl_leaf := split_last "|" ctrl in
    if negb (endswith ctrl_leaf "_Ctrl") then Ret tt
    else
      let grp_name := replace ctrl_leaf "_Ctrl" "_Ctrl_Grp" in
      e <- call (ObjExists grp_name) ;;
      if e then call (Parent ctrl grp_name) ;;; Ret tt
      else call (Warning ("Missing control group: " ^^ grp_name))).

(** The inner loop over [kids]: the first child whose leaf name ends with
    "_Ctrl", or [None]. *)
Definition first_ctrl (kids : list string) : option string :=
  find (fun k => endswith (split_last "|" k) "_Ctrl") kids.

(** Body of the loop over the selected controls; [unparented_ctrls] is the
    local list of that name. *)
Definition mirror_one (unparented_ctrls : list string) (ctrl : string)
  : script (list string) :=
  par <- call (ListRelativesParent ctrl) ;;
  if negb (nonempty par) then Ret unparented_ctrls
  else
    par <- item_opt par 0 ;;
    d <- call (Duplicate par) ;;
    dupe_grp <- item d 0 ;;
    let new_grp_name := replace_count dupe_grp "L_" "R_" (Some 1) in
    dupe_grp <- call (Rename dupe_grp new_grp_name) ;;
    let grp_name_end := replace_count dupe_grp "Grp1" "Grp" (Some 1) in
    dupe_grp <- call (Rename dupe_grp grp_name_end) ;;
    kids <- call (ListRelativesChildren dupe_grp) ;;
    let kids := match kids with Some (k :: ks) => k :: ks | _ => [] end in
    let dupe_ctrl := first_ctrl kids in
    if truthy dupe_ctrl then
      match dupe_ctrl with
      | None => Ret unparented_ctrls
      | Some dupe_ctrl =>
          let leaf := split_last "|" dupe_ctrl in
          st <- (if startswith leaf "L_" then
                   let new_leaf := replace_count leaf "L_" "R_" (Some 1) in
                   dupe_ctrl <- call (Rename dupe_ctrl new_leaf) ;;
                   l <- call (ParentWorld dupe_ctrl) ;;
                   dupe_ctrl <- item l 0 ;;
                   let unparented_ctrls := unparented_ctrls ++ [dupe_ctrl] in
                   let grp_leaf := split_last "|" dupe_grp in
                   let jnt_name := replace grp_leaf "_Ctrl_Grp" "_Jnt" in
                   e <- call (ObjExists jnt_name) ;;
                   (if e then call (MatchTransform dupe_grp jnt_name)
                    else call (Warning ("No matching joint for " ^^ grp_leaf))) ;;;
                   Ret (dupe_ctrl, unparented_ctrls)
                 else Ret (dupe_ctrl, unparented_ctrls)) ;;
          let '(dupe_ctrl, unparented_ctrls) := st in
          call (Parent dupe_ctrl "mirror_group") ;;;
          Ret unparented_ctrls
      end
    else Ret unparented_ctrls.

(** [MirrorControls()]. *)
Definition MirrorControls : script unit :=
  ctrls <- call LsSelTransforms ;;
  match ctrls with
  | [] => call (Warning "please select at least one control")
  | _ :: _ =>
      let mirror_grp := "mirror_group" in
      e <- call (ObjExists mirror_grp) ;;
      mirror_grp <- (if negb e then call (GroupEmptyWorld "mirror_group")
                     else Ret mirror_grp) ;;
      unparented_ctrls <- for_fold ctrls [] mirror_one ;;
      call (ScaleAbsolute (-1) 1 1 mirror_grp) ;;;
      reparent_controls_to_groups unparented_ctrls ;;;
      call (Delete mirror_grp) ;;;
      for_each unparented_ctrls (fun ctrl =>
        call (SetAttr (ctrl ^^ ".translateX") 0) ;;;
        call (SetAttr (ctrl ^^ ".translateY") 0) ;;;
        call (SetAttr (ctrl ^^ ".translateZ") 0) ;;;
        call (MakeIdentity ctrl))
  end.

End MirrorCtl.

(** ** A host with an empty scene, for [MirrorControls.py]

    Nothing is selected and no node exists: the queries answer so, a warning
    is printed, and every command that names a node is refused. *)
Module EmptyScene.
Import Script MirrorCtl.

Definition handle : handler cmd ans unit :=
  fun c s =>
    match c return option (ans c * unit) with
    | LsSelTransforms => Some ([], s)
    | Warning _ => Some (tt, s)
    | ObjExists _ => Some (false, s)
    | _ => None
    end.

End EmptyScene.

(** ** [Rigging/broken_FK.py] *)
Module BrokenFK.
Import PyStr Script.
Open Scope prog_scope.

Inductive cmd : Type :=
| LsSel                                   (* ls(sl=True) *)
| ListRelativesParent (n : string)        (* listRelatives(n, parent=True) *)
| ParentConstraint (target driven : string) (mo : bool)
                   (skipRotate skipTranslate : list string) (weight : Z)
| ScaleConstraint (target driven : string) (mo : bool) (weight : Z)
| AddAttr (n ln at_ : string) (min max dv : Z)
| SetAttrKeyable (plug : string)          (* setAttr(plug, e=True, keyable=True) *)
| ConnectAttr (src dst : string) (force : bool).

Definition ans (c : cmd) : Type :=
  match c with
  | LsSel | ParentConstraint _ _ _ _ _ _ | ScaleConstraint _ _ _ _ => list string
  | ListRelativesParent _ => option (list string)
  | _ => unit
  end.

Definition script : Type -> Type := prog cmd ans.

Definition call (c : cmd) : script (ans c) := Script.call c.

Definition xyz : list string := ["x"; "y"; "z"].

(** Body of the loop once [parent_ctrl] and [child_ctrl] are read. *)
Definition link_pair (parent_ctrl child_ctrl : string) : script unit :=
  rel <- call (ListRelativesParent child_ctrl) ;;
  child_ctrl_grp <- item_opt rel 0 ;;
  l1 <- call (ParentConstraint parent_ctrl child_ctrl_grp true xyz [] 1) ;;
  p_constraint1 <- item l1 0 ;;
  l2 <- call (ParentConstraint parent_ctrl child_ctrl_grp true [] xyz 1) ;;
  p_constraint2 <- item l2 0 ;;
  l3 <- call (ScaleConstraint parent_ctrl child_ctrl_grp true 1) ;;
  s_constraint <- item l3 0 ;;
  call (AddAttr child_ctrl "Follow_Translate" "double" 0 1 1) ;;;
  call (SetAttrKeyable (child_ctrl ^^ ".Follow_Translate")) ;;;
  call (AddAttr child_ctrl "Follow_Rotate" "double" 0 1 1) ;;;
  call (SetAttrKeyable (child_ctrl ^^ ".Follow_Rotate")) ;;;
  call (ConnectAttr (child_ctrl ^^ ".Follow_Translate")
                    (p_constraint1 ^^ ".w0") true) ;;;
  call (ConnectAttr (child_ctrl ^^ ".Follow_Rotate")
                    (p_constraint2 ^^ ".w0") true) ;;;
  call (ConnectAttr (child_ctrl ^^ ".Follow_Rotate")
                    (p_constraint2 ^^ ".w0") true).

(** Body of the loop for one index. *)
Definition link (sels : list string) (index : nat) : script unit :=
  parent_ctrl <- item sels index ;;
  child_ctrl <- item sels (index + 1) ;;
  link_pair parent_ctrl child_ctrl.

(** The module-level code of the script. *)
Definition broken_FK : script unit :=
  sels <- call LsSel ;;
  for_each (seq 0 (List.length sels - 1)) (link sels).

End BrokenFK.

(** ** A reference host for [broken_FK.py]

    The scene records what the script asks for: constraint nodes, custom
    attributes, keyable flags and attribute connections.  [parent_of] maps a
    node to its parent; [fresh] holds the names the host gives, in order, to
    the constraint nodes it creates.  The host refuses to add an attribute a
    node already has, to create a node when it has no name left, and to make
    a connection that is already made: [connectAttr] fails on an existing
    connection whether or not it is forced. *)
Module ChainScene.
Import PyStr Script BrokenFK.

Inductive ckind : Type := ParentC | ScaleC.

Record constraint : Type := mk_constraint {
  c_name : string;
  c_kind : ckind;
  c_target : string;
  c_driven : string;
  c_skip_rotate : list string;
  c_skip_translate : list string;
  c_weight : Z;
  c_mo : bool
}.

Record attr : Type := mk_attr {
  a_node : string;
  a_ln : string;
  a_type : string;
  a_min : Z;
  a_max : Z;
  a_dv : Z
}.

Record scene : Type := mk_scene {
  sel : list string;
  parent_of : list (string * string);
  fresh : list string;
  constraints : list constraint;
  attrs : list attr;
  keyable : list string;
  conns : list (string * string)
}.

Fixpoint lookup (n : string) (l : list (string * string)) : option string :=
  match l with
  | [] => None
  | (k, v) :: rest => if String.eqb k n then Some v else lookup n rest
  end.

Definition has_attr (n ln : string) (l : list attr) : bool :=
  existsb (fun a => String.eqb (a_node a) n && String.eqb (a_ln a) ln) l.

Definition same_conn (x y : string * string) : bool :=
  String.eqb (fst x) (fst y) && String.eqb (snd x) (snd y).

Definition handle : handler cmd ans scene :=
  fun c s =>
    match c return option (ans c * scene) with
    | LsSel => Some (sel s, s)
    | ListRelativesParent n =>
        Some (option_map (fun p => [p]) (lookup n (parent_of s)), s)
    | ParentConstraint target driven mo skr skt w =>
        match fresh s with
        | [] => None
        | nm :: rest =>
            Some ([nm],
                  mk_scene (sel s) (parent_of s) rest
                    (constraints s
                     ++ [mk_constraint nm ParentC target driven skr skt w mo])
                    (attrs s) (keyable s) (conns s))
        end
    | ScaleConstraint target driven mo w =>
        match fresh s with
        | [] => None
        | nm :: rest =>
            Some ([nm],
                  mk_scene (sel s) (parent_of s) rest
                    (constraints s
                     ++ [mk_constraint nm ScaleC target driven [] [] w mo])
                    (attrs s) (keyable s) (conns s))
        end
    | AddAttr n ln ty lo hi dv =>
        if has_attr n ln (attrs s) then None
        else Some (tt,
                   mk_scene (sel s) (parent_of s) (fresh s) (constraints s)
                     (attrs s ++ [mk_attr n ln ty lo hi dv])
                     (keyable s) (conns s))
    | SetAttrKeyable plug =>
        Some (tt,
              mk_scene (sel s) (parent_of s) (fresh s) (constraints s)
                (attrs s) (keyable s ++ [plug]) (conns s))
    | ConnectAttr src dst _ =>
        if existsb (same_conn (src, dst)) (conns s) then None
        else Some (tt,
                   mk_scene (sel s) (parent_of s) (fresh s) (constraints s)
                     (attrs s) (keyable s) (conns s ++ [(src, dst)]))
    end.

(** A scene with the given selection and hierarchy and nothing made yet. *)
Definition start (sels : list string) (parents : list (string * string))
           (names : list string) : scene :=
  mk_scene sels parents names [] [] [] [].

(** One link of the chain: the two controls, the child's parent group and
    the names of the three constraint nodes. *)
Record chain_link : Type := mk_link {
  l_parent : string;
  l_child : string;
  l_grp : string;
  l_p1 : string;
  l_p2 : string;
  l_sc : string
}.

Definition link_constraints (L : chain_link) : list constraint :=
  [mk_constraint (l_p1 L) ParentC (l_parent L) (l_grp L) xyz [] 1 true;
   mk_constraint (l_p2 L) ParentC (l_parent L) (l_grp L) [] xyz 1 true;
   mk_constraint (l_sc L) ScaleC (l_parent L) (l_grp L) [] [] 1 true].

Definition link_attrs (L : chain_link) : list attr :=
  [mk_attr (l_child L) "Follow_Translate" "double" 0 1 1;
   mk_attr (l_child L) "Follow_Rotate" "double" 0 1 1].

Definition link_keyable (L : chain_link) : list string :=
  [l_child L ^^ ".Follow_Translate"; l_child L ^^ ".Follow_Rotate"].

Definition link_conns (L : chain_link) : list (string * string) :=
  [(l_child L ^^ ".Follow_Translate", l_p1 L ^^ ".w0");
   (l_child L ^^ ".Follow_Rotate", l_p2 L ^^ ".w0")].

(** The commands one pass of the loop body sends for a link, in order. *)
Definition link_log (L : chain_link) : list cmd :=
  [ListRelativesParent (l_child L);
   ParentConstraint (l_parent L) (l_grp L) true xyz [] 1;
   ParentConstraint (l_parent L) (l_grp L) true [] xyz 1;
   ScaleConstraint (l_parent L) (l_grp L) true 1;
   AddAttr (l_child L) "Follow_Translate" "double" 0 1 1;
   SetAttrKeyable (l_child L ^^ ".Follow_Translate");
   AddAttr (l_child L) "Follow_Rotate" "double" 0 1 1;
   SetAttrKeyable (l_child L ^^ ".Follow_Rotate");
   ConnectAttr (l_child L ^^ ".Follow_Translate") (l_p1 L ^^ ".w0") true;
   ConnectAttr (l_child L ^^ ".Follow_Rotate") (l_p2 L ^^ ".w0") true;
   ConnectAttr (l_child L ^^ ".Follow_Rotate") (l_p2 L ^^ ".w0") true].

(** The claim that every constraint of the scene is gated: its weight is
    driven by a 0-to-1 attribute of some node. *)
Definition gated (s : scene) (c : constraint) : Prop :=
  exists a, In a (attrs s) /\ a_min a = 0%Z /\ a_max a = 1%Z
            /\ In (a_node a ^^ "." ^^ a_ln a, c_name c ^^ ".w0") (conns s).

End ChainScene.

(** ** The spec without its loops

    What the loops of [build_base_spec] and [append_fingers] come to, entry
    by entry: the parent of a numbered joint is the joint numbered one less,
    or the anchor of its chain for number 1. *)
Module RigSpecExplicit.
Import PyStr RigSpec RigSpecForms.

Definition spine_parent_of (i : Z) : string :=
  if (i =? 1)%Z then "Pelvis_FK_Jnt" else spine_name (i - 1).

Definition neck_parent_of (i : Z) : string :=
  if (i =? 1)%Z then "Chest_FK_Jnt" else neck_name (i - 1).

Definition finger_parent_of (f s : Z) : string :=
  if (s =? 1)%Z then "L_Hand_FK_Jnt" else finger_name f (s - 1).

(** The parent of the chest: the last spine joint, or the pelvis when the
    spine loop does not run. *)
Definition chest_parent_of (spine_count : Z) : string :=
  if (1 <=? spine_count)%Z then spine_name spine_count else "Pelvis_FK_Jnt".

(** The parent of the head: the last neck joint, or the chest when the neck
    loop does not run. *)
Definition head_parent_of (neck_count : Z) : string :=
  if (1 <=? neck_count)%Z then neck_name neck_count else "Chest_FK_Jnt".

Definition cog_entry : entry := mk_entry "COG" "COG_FK_Jnt" None "C" true.
Definition foot3_entry : entry :=
  mk_entry "L_FOOT3" "L_Foot_03_FK_Jnt" (Some "L_Foot_02_FK_Jnt") "L" false.

Definition explicit_spec (spine_count neck_count finger_count segments : Z)
  : spec_t :=
  [cog_entry;
   mk_entry "PELV" "Pelvis_FK_Jnt" (Some "COG_FK_Jnt") "C" true]
  ++ map (fun i => spine_entry i (spine_parent_of i))
         (py_range 1 (spine_count + 1))
  ++ [mk_entry "CHEST" "Chest_FK_Jnt" (Some (chest_parent_of spine_count))
               "C" true]
  ++ map (fun i => neck_entry i (neck_parent_of i))
         (py_range 1 (neck_count + 1))
  ++ [mk_entry "HEAD" "Head_FK_Jnt" (Some (head_parent_of neck_count))
               "C" true]
  ++ left_arm "Chest_FK_Jnt" ++ left_leg
  ++ flat_map (fun f => map (fun s => finger_entry f s (finger_parent_of f s))
                            (py_range 1 (segments + 1)))
              (py_range 1 (finger_count + 1)).

(** The keys the loops write. *)
Definition spine_key (i : Z) : string := "SPN" ^^ str_of_int i.
Definition neck_key (i : Z) : string := "NCK" ^^ str_of_int i.
Definition finger_key (f s : Z) : string :=
  "L_F" ^^ str_of_int f ^^ "_" ^^ str_of_int s.

(** Keys are unique within the build. *)
Definition keys_unique (spec : spec_t) : Prop := NoDup (map key spec).

End RigSpecExplicit.

(** ** What a build may create, and what a full set of guides gives *)
Module AutoRigForms.
Import PyStr RigSpec Script AutoRig.

(** The nodes a build may create: joints named by the spec and the joints
    group; no locator. *)
Definition builds_within (spec : spec_t) (c : cmd) : Prop :=
  match c with
  | Joint n _ => In n (map name spec)
  | GroupEmpty n => n = joints_grp
  | SpaceLocator _ => False
  | _ => True
  end.

(** The node an entry's joint hangs under when every guide is placed: the
    parent its entry names, the joints group for the root. *)
Definition spec_parent (e : entry) : string :=
  match parent e with
  | Some p => p
  | None => joints_grp
  end.

(** The warnings of a second build right after a first one, for an entry,
    in terms of the scene [s0] the first build started from. *)
Definition rerun_warnings (s0 : FlatScene.scene) (e : entry) : list string :=
  if FlatScene.placed s0 (name e)
  then ["Joint already exists, skipping: " ^^ name e]
  else if required e
       then ["Missing guide for required joint: " ^^ name e]
       else [].

End AutoRigForms.

(** ** The scene after a mirror pass

    [mirror_left_to_right_guides] on the flat scene, as a lookup function in
    terms of the scene [s0] it starts from. *)
Module MirrorScene.
Import PyStr RigSpec Script AutoRig FlatScene.

(** The guide of an entry, and the guide the pass writes for it on the
    right. *)
Definition guide_of (e : entry) : string := guide_name_for_joint (name e).
Definition right_guide (e : entry) : string :=
  guide_name_for_joint (swap_LR (name e)).

(** The filter [s["side"] == "L"] of the pass. *)
Definition is_left (e : entry) : bool := String.eqb (side e) "L".

(** World rotation of a node, as [XformQueryRo] answers it. *)
Definition world_ro (s : scene) (n : string) : list float :=
  match find_node s n with
  | Some nd => nd_ro nd
  | None => []
  end.

Definition guides_node : node := mk_node guides_grp Transform None zero3 zero3.

(** Every node has a world position of at least three components. *)
Definition positioned (s : scene) : bool :=
  forallb (fun nd => (3 <=? List.length (nd_t nd))%nat) (nodes s).

Section Mirror.
Variable s0 : scene.

(** The left guide of the entry is in the scene: the entry is mirrored. *)
Definition mirrored (e : entry) : bool := node_exists s0 (guide_of e).

Definition flipped (t : list float) : list float :=
  match mirror_t t with
  | Some t_m => t_m
  | None => []
  end.

(** The right guide the pass leaves for a mirrored entry: the node that was
    there, or a new locator under the guides group, with the flipped
    position and the rotation of the left guide. *)
Definition right_node (e : entry) : node :=
  let base :=
    match find_node s0 (right_guide e) with
    | Some nd => nd
    | None => mk_node (right_guide e) Locator (Some guides_grp) zero3 zero3
    end in
  set_ro (world_ro s0 (guide_of e))
         (set_t (flipped (world_t s0 (guide_of e))) base).

(** The scene once the loop has walked the entries [pre]. *)
Definition lookup_mirrored (pre : spec_t) (n : string) : option node :=
  match find (fun e => mirrored e && String.eqb (right_guide e) n) pre with
  | Some e => Some (right_node e)
  | None =>
      match find_node s0 n with
      | Some nd => Some nd
      | None => if String.eqb n guides_grp then Some guides_node else None
      end
  end.

End Mirror.

End MirrorScene.

(** ** Scripts that cannot raise

    [yields P p]: the script [p] has no [Raise] on any path, whatever the
    host answers, and every value it returns satisfies [P]. *)
Module ScriptForms.
Import Script.

Inductive yields {C : Type} {A : C -> Type} {R : Type} (P : R -> Prop)
  : prog C A R -> Prop :=
| yields_ret (r : R) : P r -> yields P (Ret r)
| yields_call (c : C) (k : A c -> prog C A R) :
    (forall a, yields P (k a)) -> yields P (Call c k).

End ScriptForms.

(** ** [Rigging/AuttoRigger.py]: the wizard's step navigation and guide
    buttons *)
Module Wizard.
Import PyStr RigSpec Script AutoRig.
Open Scope prog_scope.

(** The calls of the wizard's methods: those of [AutoRig], and the calls
    into [maya.cmds] and into the dialog's widgets that only these methods
    make.  [TryOrientJoint] is the call inside the [try] of [_orient_chain]:
    its answer is [None] when the call returns and [Some e] when it raises
    an exception whose text is [e]. *)
Inductive cmd : Type :=
| Scene (c : AutoRig.cmd)
| Delete (n : string)                    (* delete(n) *)
| ListRelativesChildJoints (n : string)  (* listRelatives(n, c=True, type="joint") *)
| TryOrientJoint (n : string)            (* joint(n, e=True, oj="xyz", sao="zup", ch=True, zso=True) *)
| LabelSetText (text : string)           (* self.step_label.setText(text) *)
| BackSetEnabled (b : bool)              (* self.back_btn.setEnabled(b) *)
| NextSetEnabled (b : bool).             (* self.next_btn.setEnabled(b) *)

Definition ans (c : cmd) : Type :=
  match c with
  | Scene c' => AutoRig.ans c'
  | ListRelativesChildJoints _ => option (list string)
  | TryOrientJoint _ => option string
  | _ => unit
  end.

Definition script : Type -> Type := prog cmd ans.

Definition call (c : cmd) : script (ans c) := Script.call c.

(** A function of [AutoRig] called from a method of the wizard. *)
Fixpoint lift {R : Type} (p : AutoRig.script R) : script R :=
  match p with
  | Ret r => Ret r
  | Raise e => Raise e
  | Call c k => Call (Scene c) (fun a => lift (k a))
  end.

(** [l[i]] for a Python int [i]: a negative index counts from the end. *)
Definition item_z {X : Type} (l : list X) (i : Z) : script X :=
  let n := Z.of_nat (List.length l) in
  if ((0 <=? i) && (i <? n))%Z then item l (Z.to_nat i)
  else if ((- n <=? i) && (i <? 0))%Z then item l (Z.to_nat (n + i))
  else Raise "IndexError".

Definition set_step_index (w : wizard) (i : Z) : wizard :=
  mk_wizard (w_spec w) (w_steps w) i.

Definition nl : string := String "010"%char "".

(** [str(p)] for a parent that may be [None]. *)
Definition str_of_parent (p : option string) : string :=
  match p with
  | Some s => s
  | None => "None"
  end.

(** The text of the step label. *)
Definition step_text (w : wizard) (s : entry) (guide status : string)
  : string :=
  "Step " ^^ str_of_int (w_step_index w + 1) ^^ "/"
  ^^ str_of_int (Z.of_nat (List.length (w_steps w)))
  ^^ ": Place guide for" ^^ nl
  ^^ "  Joint: " ^^ name s ^^ nl
  ^^ "  Parent: " ^^ str_of_parent (parent s) ^^ nl
  ^^ "  Guide: " ^^ guide ^^ nl
  ^^ "  Status: " ^^ status ^^ nl ^^ nl
  ^^ "Tip: Use 'Create/Select Guide', move it in viewport, then Next.".

(** [AutoRigWizard.refresh_step_label]. *)
Definition refresh_step_label (w : wizard) : script unit :=
  match w_steps w with
  | [] => call (LabelSetText "No steps. Rebuild spec.")
  | _ :: _ =>
      s <- item_z (w_steps w) (w_step_index w) ;;
      let guide := guide_name_for_joint (name s) in
      e <- call (Scene (ObjExists guide)) ;;
      let status := if e then "✅ placed" else "⬜ not placed" in
      call (LabelSetText (step_text w s guide status)) ;;;
      call (BackSetEnabled (w_step_index w >? 0)%Z) ;;;
      call (NextSetEnabled
              (w_step_index w <? Z.of_nat (List.length (w_steps w)) - 1)%Z)
  end.

(** [AutoRigWizard.prev_step]; the value is the wizard after the call. *)
Definition prev_step (w : wizard) : script wizard :=
  let w := set_step_index w (Z.max 0 (w_step_index w - 1)) in
  refresh_step_label w ;;;
  Ret w.

(** [AutoRigWizard.next_step]. *)
Definition next_step (w : wizard) : script wizard :=
  let w :=
    set_step_index w (Z.min (Z.of_nat (List.length (w_steps w)) - 1)
                            (w_step_index w + 1)) in
  refresh_step_label w ;;;
  Ret w.

(** [AutoRigWizard.create_or_select_current_guide]. *)
Definition create_or_select_current_guide (w : wizard) : script unit :=
  lift (ensure_group guides_grp) ;;;
  s <- item_z (w_steps w) (w_step_index w) ;;
  let guide := guide_name_for_joint (name s) in
  e <- call (Scene (ObjExists guide)) ;;
  guide <- (if negb e then lift (make_locator guide) else Ret guide) ;;
  call (Scene (SelectReplace [guide])) ;;;
  refresh_step_label w.

(** [AutoRigWizard.snap_current_guide]. *)
Definition snap_current_guide (w : wizard) : script unit :=
  s <- item_z (w_steps w) (w_step_index w) ;;
  let guide := guide_name_for_joint (name s) in
  e <- call (Scene (ObjExists guide)) ;;
  (if negb e then create_or_select_current_guide w else Ret tt) ;;;
  ok <- lift (snap_to_selection guide) ;;
  (if negb ok
   then call (Scene (Warning "Nothing selected to snap to. Select a vertex/transform and try again."))
   else Ret tt) ;;;
  refresh_step_label w.

(** [safe_delete(node)]. *)
Definition safe_delete (node : string) : script unit :=
  match node with
  | EmptyString => Ret tt
  | String _ _ =>
      e <- call (Scene (ObjExists node)) ;;
      if e then call (Delete node) else Ret tt
  end.

(** [AutoRigWizard.clear_all]. *)
Definition clear_all (w : wizard) : script unit :=
  safe_delete guides_grp ;;;
  safe_delete joints_grp ;;;
  call (Scene (InViewMessage "Cleared guides + joints groups.")) ;;;
  refresh_step_label w.

(** [AutoRigWizard._orient_chain(root_joint)]. *)
Definition _orient_chain (root_joint : string) : script unit :=
  e <- call (Scene (ObjExists root_joint)) ;;
  if negb e then Ret tt
  else
    kids <- call (ListRelativesChildJoints root_joint) ;;
    if negb (nonempty kids) then Ret tt
    else
      r <- call (TryOrientJoint root_joint) ;;
      match r with
      | None => Ret tt
      | Some e =>
          call (Scene (Warning ("Failed to orient chain from " ^^ root_joint
                                ^^ ": " ^^ e)))
      end.

Definition roots : list string :=
  ["Pelvis_FK_Jnt"; "L_Clav_FK_Jnt"; "R_Clav_FK_Jnt"; "L_Leg_Clav_FK_Jnt";
   "R_Leg_Clav_FK_Jnt"; "L_Hand_FK_Jnt"; "R_Hand_FK_Jnt"; "L_Foot_01_FK_Jnt";
   "R_Foot_01_FK_Jnt"].

(** [AutoRigWizard.orient_all_fk]. *)
Definition orient_all_fk : script unit :=
  for_each roots _orient_chain ;;;
  call (Scene (InViewMessage "Oriented FK chains (X→child, Z up).")).

(** The step index is an index of the steps. *)
Definition valid (w : wizard) : Prop :=
  (0 <= w_step_index w < Z.of_nat (List.length (w_steps w)))%Z.

(** The Back and Next buttons, and a sequence of clicks on them. *)
Inductive button : Type := PressBack | PressNext.

Definition press (b : button) (w : wizard) : script wizard :=
  match b with
  | PressBack => prev_step w
  | PressNext => next_step w
  end.

Fixpoint presses (bs : list button) (w : wizard) : script wizard :=
  match bs with
  | [] => Ret w
  | b :: rest => w' <- press b w ;; presses rest w'
  end.

(** Where a click leaves the step index, among [len] steps. *)
Definition step_to (len : Z) (i : Z) (b : button) : Z :=
  match b with
  | PressBack => Z.max 0 (i - 1)
  | PressNext => Z.min (len - 1) (i + 1)
  end.

(** The names the host is asked about with [objExists], in order. *)
Definition asked (l : list cmd) : list string :=
  flat_map (fun c => match c with Scene (ObjExists n) => [n] | _ => [] end) l.

End Wizard.

(** ** A reference host for the wizard

    The flat scene of [FlatScene] together with the three widgets the
    methods write to.  This host also answers the two matrix calls of
    [snap_to_selection]: it stands for the world matrix of a node by the
    world position and rotation it carries, position first.  It answers the
    child joints of a node in scene order ([None] when there are none),
    lets every orient call return, and refuses [delete], which it does not
    model. *)
Module UiScene.
Import PyStr Script AutoRig FlatScene Wizard.

Record ui : Type := mk_ui {
  label : string;
  back_enabled : bool;
  next_enabled : bool
}.

Definition state : Type := (scene * ui)%type.

Definition scene_of (st : state) : scene := fst st.
Definition ui_of (st : state) : ui := snd st.

Definition matrix_of (nd : node) : list float := nd_t nd ++ nd_ro nd.

Definition set_matrix (m : list float) (nd : node) : node :=
  set_ro (skipn 3 m) (set_t (firstn 3 m) nd).

Definition scene_handle (c : AutoRig.cmd) (s : scene)
  : option (AutoRig.ans c * scene) :=
  match c return option (AutoRig.ans c * scene) with
  | XformQueryMatrix n =>
      option_map (fun nd => (matrix_of nd, s)) (find_node s n)
  | XformSetMatrix n m =>
      if node_exists s n then Some (tt, update_node n (set_matrix m) s)
      else None
  | c' => FlatScene.handle c' s
  end.

Definition is_joint (k : kind) : bool :=
  match k with
  | JointNode => true
  | _ => false
  end.

Definition child_joints (s : scene) (n : string) : list string :=
  map nd_name
      (filter (fun nd => is_joint (nd_kind nd)
                         && match nd_parent nd with
                            | Some p => String.eqb p n
                            | None => false
                            end)
              (nodes s)).

Definition handle : handler Wizard.cmd Wizard.ans state :=
  fun c st =>
    match c return option (Wizard.ans c * state) with
    | Scene c' =>
        match scene_handle c' (scene_of st) with
        | Some (a, s') => Some (a, (s', ui_of st))
        | None => None
        end
    | Delete _ => None
    | ListRelativesChildJoints n =>
        if node_exists (scene_of st) n
        then Some (match child_joints (scene_of st) n with
                   | [] => None
                   | l => Some l
                   end, st)
        else None
    | TryOrientJoint n =>
        if node_exists (scene_of st) n then Some (None, st) else None
    | LabelSetText t =>
        Some (tt, (scene_of st,
                   mk_ui t (back_enabled (ui_of st)) (next_enabled (ui_of st))))
    | BackSetEnabled b =>
        Some (tt, (scene_of st,
                   mk_ui (label (ui_of st)) b (next_enabled (ui_of st))))
    | NextSetEnabled b =>
        Some (tt, (scene_of st,
                   mk_ui (label (ui_of st)) (back_enabled (ui_of st)) b))
    end.

(** The widgets after a label refresh at step [s] of wizard [w]. *)
Definition refreshed (w : RigSpec.wizard) (s : RigSpec.entry) (placed : bool)
  : ui :=
  mk_ui (step_text w s (RigSpec.guide_name_for_joint (RigSpec.name s))
                   (if placed then "✅ placed" else "⬜ not placed"))
        (RigSpec.w_step_index w >? 0)%Z
        (RigSpec.w_step_index w
         <? Z.of_nat (List.length (RigSpec.w_steps w)) - 1)%Z.

(** A new guide locator, as [create_or_select_current_guide] leaves it. *)
Definition new_guide (g : string) : node :=
  mk_node g Locator (Some guides_grp) zero3 zero3.

(** The scene once the guide [g] has been created or selected from the
    scene [s0]: the nodes of [s0], the guide if it was not there, and the
    guides group if it was not there. *)
Definition with_guide (s0 : scene) (g n : string) : option node :=
  match find_node s0 n with
  | Some nd => Some nd
  | None =>
      if String.eqb g n then Some (new_guide g)
      else if String.eqb n guides_grp then Some MirrorScene.guides_node
      else None
  end.

End UiScene.

(** ** Character tests used to locate the occurrences [replace] finds *)
Module PyStrForms.
Import PyStr.

Definition not_G (c : ascii) : bool := negb (Ascii.eqb c "G").
Definition not_bar (c : ascii) : bool := negb (Ascii.eqb c "|").

(** Neither "G" nor the path separator. *)
Definition plain (c : ascii) : bool := not_G c && not_bar c.

(** No character [x] is immediately followed by [y]. *)
Fixpoint no_pair (x y : ascii) (s : string) : bool :=
  match s with
  | String a ((String b _) as s') =>
      negb (Ascii.eqb a x && Ascii.eqb b y) && no_pair x y s'
  | _ => true
  end.

End PyStrForms.

(** ** The names [MirrorControls] computes

    The renames of [mirror_one] and the group name of
    [reparent_controls_to_groups], for a control group named [grp] whose
    duplicate the host names [grp1], and its control [ctrl]. *)
Module MirrorNames.
Import PyStr.

(** [new_grp_name], then [grp_name_end]: the name of the mirrored group. *)
Definition new_grp_name (dupe_grp : string) : string :=
  replace_count dupe_grp "L_" "R_" (Some 1).
Definition grp_name_end (dupe_grp : string) : string :=
  replace_count dupe_grp "Grp1" "Grp" (Some 1).

(** [new_leaf]: the name of the mirrored control. *)
Definition new_leaf (leaf : string) : string :=
  replace_count leaf "L_" "R_" (Some 1).

(** [jnt_name]: the joint the mirrored group is matched to. *)
Definition jnt_name (grp_leaf : string) : string :=
  replace grp_leaf "_Ctrl_Grp" "_Jnt".

(** [grp_name]: the group a control is re-parented to. *)
Definition grp_name (ctrl_leaf : string) : string :=
  replace ctrl_leaf "_Ctrl" "_Ctrl_Grp".

End MirrorNames.

(** ** What [reparent_controls_to_groups] may ask of the host *)
Module MirrorCtlForms.
Import PyStr Script MirrorCtl MirrorNames.

(** [ctrl] is one of the controls, its leaf name ends with "_Ctrl", and
    [grp] is the group name computed from that leaf. *)
Definition group_of (controls : list string) (ctrl grp : string) : Prop :=
  In ctrl controls
  /\ endswith (split_last "|" ctrl) "_Ctrl" = true
  /\ grp = grp_name (split_last "|" ctrl).

Definition reparents_only (controls : list string) (c : cmd) : Prop :=
  match c with
  | ObjExists n => exists ctrl, group_of controls ctrl n
  | Parent child par => group_of controls child par
  | Warning m =>
      exists ctrl grp, group_of controls ctrl grp
                       /\ m = "Missing control group: " ^^ grp
  | _ => False
  end.

End MirrorCtlForms.

(** ** What [clear_all] may ask of the host *)
Module WizardForms.
Import PyStr Script AutoRig Wizard.

(** The calls of [clear_all]: existence queries, the deletion of one of the
    two groups, the message and the label refresh. *)
Definition clears_only (c : cmd) : Prop :=
  match c with
  | Delete n => n = guides_grp \/ n = joints_grp
  | Scene (ObjExists _) | Scene (InViewMessage _) => True
  | LabelSetText _ | BackSetEnabled _ | NextSetEnabled _ => True
  | _ => False
  end.

Definition no_delete (c : cmd) : Prop :=
  match c with
  | Delete _ => False
  | _ => True
  end.

(** The deletions among the commands of a run. *)
Definition deleted (l : list cmd) : list string :=
  flat_map (fun c => match c with Delete n => [n] | _ => [] end) l.

End WizardForms.

(* ================================================================== *)
(** * Part II: facts *)
(* ================================================================== *)

(** ** Strings, decimal formatting and [replace] *)
Module PyStrFacts.
Import PyStr.

Lemma append_assoc (a b c : string) : (a ^^ b) ^^ c = a ^^ b ^^ c.
Proof. induction a as [|x a IH]; simpl; [reflexivity | now rewrite IH]. Qed.

Lemma append_length (a b : string) :
  String.length (a ^^ b) = String.length a + String.length b.
Proof. induction a as [|x a IH]; simpl; [reflexivity | now rewrite IH]. Qed.

Lemma append_cancel_l (s a b : string) : s ^^ a = s ^^ b -> a = b.
Proof.
  induction s as [|x s IH]; simpl; intros H; [exact H|].
  injection H as H. now apply IH.
Qed.

Lemma append_cancel_r (c a b : string) : a ^^ c = b ^^ c -> a = b.
Proof.
  revert b. induction a as [|x a IH]; intros [|y b] H; simpl in H.
  - reflexivity.
  - apply (f_equal String.length) in H. simpl in H.
    rewrite append_length in H. lia.
  - apply (f_equal String.length) in H. simpl in H.
    rewrite append_length in H. lia.
  - injection H as -> H. f_equal. now apply IH.
Qed.

Lemma all_chars_append p (a b : string) :
  all_chars p (a ^^ b) = all_chars p a && all_chars p b.
Proof.
  induction a as [|x a IH]; simpl; [reflexivity|].
  now rewrite IH, andb_assoc.
Qed.

Lemma all_chars_impl (p q : ascii -> bool) (s : string) :
  (forall c, p c = true -> q c = true) ->
  all_chars p s = true -> all_chars q s = true.
Proof.
  intros Hpq. induction s as [|x s IH]; simpl; [reflexivity|].
  rewrite !andb_true_iff. intros [H1 H2]. split; auto.
Qed.

(** *** Decimal rendering *)

Lemma string_of_uint_digits (d : uint) :
  all_digits (NilEmpty.string_of_uint d) = true.
Proof. induction d; simpl; auto. Qed.

Lemma str_of_N_digits (n : N) : all_digits (str_of_N n) = true.
Proof. apply string_of_uint_digits. Qed.

Lemma parse_str_of_N (n : N) : parse_N (str_of_N n) = Some n.
Proof.
  unfold parse_N, str_of_N. rewrite NilEmpty.usu. simpl.
  now rewrite DecimalN.Unsigned.of_to.
Qed.

Lemma parse_zero_cons (s : string) : parse_N (String "0" s) = parse_N s.
Proof.
  unfold parse_N. simpl.
  destruct (NilEmpty.uint_of_string s); reflexivity.
Qed.

Lemma parse_zeros (k : nat) (s : string) : parse_N (zeros k ^^ s) = parse_N s.
Proof.
  induction k as [|k IH]; simpl; [reflexivity|].
  now rewrite parse_zero_cons.
Qed.

Lemma zeros_digits (k : nat) : all_digits (zeros k) = true.
Proof. induction k; simpl; auto. Qed.

Lemma fmt_02d_nonneg (z : Z) :
  (0 <= z)%Z -> fmt_02d z = zfill 2 (str_of_N (Z.to_N z)).
Proof.
  intros Hz. unfold fmt_02d.
  destruct (Z.ltb_spec z 0); [lia | reflexivity].
Qed.

Lemma parse_fmt_02d (z : Z) :
  (0 <= z)%Z -> parse_N (fmt_02d z) = Some (Z.to_N z).
Proof.
  intros Hz. rewrite fmt_02d_nonneg by assumption.
  unfold zfill. now rewrite parse_zeros, parse_str_of_N.
Qed.

Lemma fmt_02d_inj (a b : Z) :
  (0 <= a)%Z -> (0 <= b)%Z -> fmt_02d a = fmt_02d b -> a = b.
Proof.
  intros Ha Hb H.
  apply (f_equal parse_N) in H.
  rewrite !parse_fmt_02d in H by assumption.
  injection H as H. now apply Z2N.inj.
Qed.

Lemma fmt_02d_digits (z : Z) : (0 <= z)%Z -> all_digits (fmt_02d z) = true.
Proof.
  intros Hz. rewrite fmt_02d_nonneg by assumption.
  unfold zfill, all_digits. rewrite all_chars_append.
  apply andb_true_iff; split; [apply zeros_digits | apply str_of_N_digits].
Qed.

(** Two digit strings followed by the same non-digit separator can be read
    apart. *)
Lemma digits_split (c : ascii) (d1 d2 r1 r2 : string) :
  is_digit c = false ->
  all_digits d1 = true -> all_digits d2 = true ->
  d1 ^^ String c r1 = d2 ^^ String c r2 -> d1 = d2 /\ r1 = r2.
Proof.
  intros Hc. revert d2.
  induction d1 as [|x d1 IH]; intros [|y d2] H1 H2 H; simpl in *.
  - injection H as H. now split.
  - injection H as -> _. apply andb_true_iff in H2. destruct H2. congruence.
  - injection H as -> _. apply andb_true_iff in H1. destruct H1. congruence.
  - injection H as -> H.
    apply andb_true_iff in H1. destruct H1 as [_ H1].
    apply andb_true_iff in H2. destruct H2 as [_ H2].
    destruct (IH d2 H1 H2 H) as [-> ->]. now split.
Qed.

Lemma py_range_spec (lo hi x : Z) :
  In x (py_range lo hi) <-> (lo <= x < hi)%Z.
Proof.
  unfold py_range. rewrite in_map_iff. split.
  - intros (k & <- & Hk). apply in_seq in Hk. lia.
  - intros Hx. exists (Z.to_nat (x - lo)). split; [lia|].
    apply in_seq. lia.
Qed.

Lemma py_range_NoDup (lo hi : Z) : NoDup (py_range lo hi).
Proof.
  unfold py_range.
  apply NoDup_map_NoDup_ForallPairs; [|apply seq_NoDup].
  intros a b _ _ H. lia.
Qed.

(** *** [replace] *)

Lemma drop_empty (k : nat) : drop k "" = "".
Proof. now destruct k. Qed.

Lemma prefix_append (p s : string) :
  String.prefix p s = true -> s = p ^^ drop (String.length p) s.
Proof.
  revert s. induction p as [|x p IH]; intros [|y s] H; try reflexivity.
  - discriminate H.
  - simpl in H. destruct (ascii_dec x y) as [->|]; [|discriminate].
    simpl. f_equal. now apply IH.
Qed.

Lemma startswith_2 (n : string) (a b : ascii) :
  startswith n (String a (String b "")) = true ->
  n = String a (String b (drop 2 n)).
Proof. intros H. apply prefix_append in H. exact H. Qed.

Lemma replace_from_skip (old new : string) (count : option nat) (s : string) :
  forall k, replace_from old new count k s
            = replace_from old new count 0 (drop k s).
Proof.
  induction s as [|c s IH]; intros k.
  - now rewrite drop_empty.
  - destruct k as [|k]; [reflexivity|]. simpl. apply IH.
Qed.

(** Replacing a non-empty string by itself changes nothing. *)
Lemma replace_from_same (o : ascii) (old' : string) (n : nat) :
  forall s, String.length s <= n ->
    replace_from (String o old') (String o old') None 0 s = s.
Proof.
  induction n as [|n IH]; intros s Hlen.
  - destruct s; [reflexivity | simpl in Hlen; lia].
  - destruct s as [|c s]; [reflexivity|].
    cbn [replace_from option_map].
    destruct (String.prefix (String o old') (String c s)) eqn:Hp.
    + apply prefix_append in Hp.
      rewrite replace_from_skip.
      cbn [String.length Nat.sub] in *. rewrite Nat.sub_0_r.
      cbn [drop] in Hp.
      rewrite IH.
      * simpl in Hp. injection Hp as -> Hp. simpl. f_equal. exact (eq_sym Hp).
      * apply (f_equal String.length) in Hp. simpl in Hp, Hlen.
        injection Hp as Hp. rewrite append_length in Hp. lia.
    + f_equal. apply IH. simpl in Hlen. lia.
Qed.

Lemma replace_same (s old : string) : old <> "" -> replace s old old = s.
Proof.
  intros Hne. destruct old as [|o old']; [contradiction|].
  unfold replace, replace_count. now apply (replace_from_same o old' (String.length s)).
Qed.

Lemma starts_not_append (c : ascii) (a b : string) :
  all_chars (fun x => negb (Ascii.eqb x c)) a = true ->
  starts_not c b -> starts_not c (a ^^ b).
Proof.
  destruct a as [|x a]; simpl; [trivial|].
  intros H _. apply andb_true_iff in H. destruct H as [H _].
  now apply negb_true_iff in H.
Qed.

Lemma prefix_starts_not (c : ascii) (p s : string) :
  starts_not c s -> String.prefix (String c p) s = false.
Proof.
  destruct s as [|x s]; simpl; [reflexivity|].
  intros H. destruct (ascii_dec c x) as [->|]; [|reflexivity].
  now rewrite Ascii.eqb_refl in H.
Qed.

(** An occurrence of [old] needs its second character: a stretch without
    that character is copied unchanged. *)
Lemma replace_from_copy (o1 o2 : ascii) (old' new : string) (a b : string) :
  all_chars (fun x => negb (Ascii.eqb x o2)) a = true ->
  starts_not o2 b ->
  replace_from (String o1 (String o2 old')) new None 0 (a ^^ b)
  = a ^^ replace_from (String o1 (String o2 old')) new None 0 b.
Proof.
  intros Ha Hb. induction a as [|x a IH]; [reflexivity|].
  simpl in Ha. apply andb_true_iff in Ha. destruct Ha as [Hx Ha].
  change (String x a ^^ b) with (String x (a ^^ b)).
  cbn [replace_from option_map].
  assert (Hp : String.prefix (String o1 (String o2 old')) (String x (a ^^ b))
               = false).
  { cbn [String.prefix]. destruct (ascii_dec o1 x); [|reflexivity].
    apply prefix_starts_not. now apply starts_not_append. }
  rewrite Hp. simpl. f_equal. now apply IH.
Qed.

End PyStrFacts.

(** ** The rig spec *)
Module RigSpecFacts.
Import PyStr RigSpec RigSpecForms PyStrFacts.

Lemma fold_chain (mk : Z -> string -> entry)
      (step : spec_t * string -> Z -> spec_t * string) :
  (forall spec prev i,
      step (spec, prev) i = (spec ++ [mk i prev], name (mk i prev))) ->
  forall idxs spec prev,
    fold_left step idxs (spec, prev)
    = (spec ++ chain mk prev idxs, chain_last mk prev idxs).
Proof.
  intros Hstep. induction idxs as [|i idxs IH]; intros spec prev; simpl.
  - now rewrite List.app_nil_r.
  - rewrite Hstep, IH. now rewrite <- List.app_assoc.
Qed.

Lemma spine_fold idxs spec prev :
  fold_left spine_step idxs (spec, prev)
  = (spec ++ chain spine_entry prev idxs, chain_last spine_entry prev idxs).
Proof. now apply fold_chain. Qed.

Lemma neck_fold idxs spec prev :
  fold_left neck_step idxs (spec, prev)
  = (spec ++ chain neck_entry prev idxs, chain_last neck_entry prev idxs).
Proof. now apply fold_chain. Qed.

Lemma finger_fold f idxs spec prev :
  fold_left (finger_step f) idxs (spec, prev)
  = (spec ++ chain (finger_entry f) prev idxs,
     chain_last (finger_entry f) prev idxs).
Proof. now apply fold_chain. Qed.

(** The base spec, loop by loop. *)
Lemma build_base_spec_closed (sc nc : Z) :
  build_base_spec sc nc
  = [mk_entry "COG" "COG_FK_Jnt" None "C" true;
     mk_entry "PELV" "Pelvis_FK_Jnt" (Some "COG_FK_Jnt") "C" true]
    ++ chain spine_entry "Pelvis_FK_Jnt" (py_range 1 (sc + 1))
    ++ [mk_entry "CHEST" "Chest_FK_Jnt"
          (Some (chain_last spine_entry "Pelvis_FK_Jnt" (py_range 1 (sc + 1))))
          "C" true]
    ++ chain neck_entry "Chest_FK_Jnt" (py_range 1 (nc + 1))
    ++ [mk_entry "HEAD" "Head_FK_Jnt"
          (Some (chain_last neck_entry "Chest_FK_Jnt" (py_range 1 (nc + 1))))
          "C" true]
    ++ left_arm "Chest_FK_Jnt" ++ left_leg.
Proof.
  unfold build_base_spec.
  rewrite spine_fold, neck_fold.
  rewrite <- !List.app_assoc. reflexivity.
Qed.

Lemma append_fingers_fold (segs : Z) (fs : list Z) (spec : spec_t) :
  fold_left
    (fun spec f =>
       fst (fold_left (finger_step f) (py_range 1 (segs + 1))
                      (spec, "L_Hand_FK_Jnt")))
    fs spec
  = spec ++ flat_map (fun f => chain (finger_entry f) "L_Hand_FK_Jnt"
                                     (py_range 1 (segs + 1))) fs.
Proof.
  revert spec. induction fs as [|f fs IH]; intros spec; simpl.
  - now rewrite List.app_nil_r.
  - rewrite IH, finger_fold. simpl. now rewrite <- List.app_assoc.
Qed.

Lemma append_fingers_closed (spec : spec_t) (fc segs : Z) :
  append_fingers spec fc segs = spec ++ fingers fc segs.
Proof. apply append_fingers_fold. Qed.

Lemma fingers_none (fc segs : Z) : (fc <= 0)%Z -> fingers fc segs = [].
Proof.
  intros H. unfold fingers, py_range.
  replace (Z.to_nat (fc + 1 - 1)) with 0 by lia. reflexivity.
Qed.

Lemma rebuild_spec_closed (sc nc fc segs : Z) :
  w_spec (rebuild_spec sc nc fc segs) = build_base_spec sc nc ++ fingers fc segs.
Proof.
  unfold rebuild_spec. simpl.
  destruct (Z.gtb_spec fc 0).
  - apply append_fingers_closed.
  - rewrite fingers_none by lia. now rewrite List.app_nil_r.
Qed.

(** *** Parents precede their children *)

Ltac find_name :=
  repeat (simpl; rewrite ?in_app_iff; first [left; reflexivity | right]).

Lemma closed_under_incl (spec : spec_t) :
  forall seen seen', incl seen seen' ->
    closed_under seen spec -> closed_under seen' spec.
Proof.
  induction spec as [|e rest IH]; intros seen seen' Hi; simpl; [trivial|].
  intros [Hp Hr]. split.
  - destruct (parent e); [now apply Hi | trivial].
  - apply (IH (name e :: seen)); [|assumption].
    intros x [->|Hx]; [now left | right; now apply Hi].
Qed.

Lemma closed_under_app (a b : spec_t) :
  forall seen, closed_under seen a ->
    closed_under (map name a ++ seen) b -> closed_under seen (a ++ b).
Proof.
  induction a as [|e a IH]; intros seen Ha Hb; simpl in *; [assumption|].
  destruct Ha as [Hp Ha]. split; [assumption|].
  apply IH; [assumption|].
  apply (closed_under_incl b (name e :: map name a ++ seen)); [|assumption].
  intros x [->|Hx]; apply in_or_app.
  - right. now left.
  - apply in_app_or in Hx. destruct Hx; [now left | right; now right].
Qed.

Lemma closed_under_chain (mk : Z -> string -> entry) :
  (forall i p, parent (mk i p) = Some p) ->
  forall idxs prev seen, In prev seen -> closed_under seen (chain mk prev idxs).
Proof.
  intros Hp. induction idxs as [|i idxs IH]; intros prev seen Hin; simpl.
  - trivial.
  - rewrite Hp. split; [assumption|]. apply IH. now left.
Qed.

Lemma chain_last_in (mk : Z -> string -> entry) (idxs : list Z) :
  forall prev, In (chain_last mk prev idxs) (prev :: map name (chain mk prev idxs)).
Proof.
  induction idxs as [|i idxs IH]; intros prev; simpl.
  - now left.
  - right. apply IH.
Qed.

Lemma closed_under_precede (spec : spec_t) :
  forall seen, closed_under seen spec ->
  forall pre e post, spec = pre ++ e :: post ->
    parent e = None
    \/ exists p, parent e = Some p /\ (In p seen \/ In p (map name pre)).
Proof.
  induction spec as [|x rest IH]; intros seen Hc pre e post Heq.
  - now destruct pre.
  - destruct Hc as [Hp Hr]. destruct pre as [|y pre]; simpl in Heq.
    + injection Heq as -> _.
      destruct (parent e) as [p|]; [right | now left].
      exists p. auto.
    + injection Heq as <- Heq.
      destruct (IH _ Hr pre e post Heq) as [Hn | (p & Hp' & Hin)];
        [now left | right].
      exists p. split; [assumption|].
      destruct Hin as [[<-|Hin]|Hin]; simpl; auto.
Qed.

Lemma closed_under_parents_precede (spec : spec_t) :
  closed_under [] spec -> parents_precede spec.
Proof.
  intros Hc pre e post Heq.
  destruct (closed_under_precede spec [] Hc pre e post Heq)
    as [Hn | (p & Hp & [[]|Hin])]; [now left | right].
  apply in_map_iff in Hin. destruct Hin as (e' & <- & He').
  now exists e'.
Qed.

Lemma spine_parent i p : parent (spine_entry i p) = Some p.
Proof. reflexivity. Qed.
Lemma neck_parent i p : parent (neck_entry i p) = Some p.
Proof. reflexivity. Qed.
Lemma finger_parent f i p : parent (finger_entry f i p) = Some p.
Proof. reflexivity. Qed.

Lemma closed_under_fingers (fc segs : Z) (seen : list string) :
  In "L_Hand_FK_Jnt" seen -> closed_under seen (fingers fc segs).
Proof.
  unfold fingers. generalize (py_range 1 (fc + 1)) as fs.
  intros fs. revert seen.
  induction fs as [|f fs IH]; intros seen Hin; simpl; [trivial|].
  apply closed_under_app.
  - apply closed_under_chain; [apply finger_parent | assumption].
  - apply IH. apply in_or_app. now right.
Qed.

Lemma closed_under_base (sc nc : Z) : closed_under [] (build_base_spec sc nc).
Proof.
  rewrite build_base_spec_closed.
  pose proof (chain_last_in spine_entry (py_range 1 (sc + 1)) "Pelvis_FK_Jnt")
    as Hs.
  pose proof (chain_last_in neck_entry (py_range 1 (nc + 1)) "Chest_FK_Jnt")
    as Hn.
  repeat apply closed_under_app.
  - simpl. auto.
  - apply closed_under_chain; [apply spine_parent|]. simpl. auto.
  - simpl. split; [|trivial].
    destruct Hs as [<-|Hs]; rewrite in_app_iff; simpl; tauto.
  - apply closed_under_chain; [apply neck_parent|]. simpl. auto.
  - simpl. split; [|trivial].
    destruct Hn as [<-|Hn]; rewrite !in_app_iff; simpl; tauto.
  - simpl. repeat split; find_name.
  - simpl. repeat split; find_name.
Qed.

Lemma base_has_hand (sc nc : Z) :
  In "L_Hand_FK_Jnt" (map name (build_base_spec sc nc)).
Proof.
  rewrite build_base_spec_closed. rewrite !map_app, !in_app_iff.
  simpl. tauto.
Qed.

Lemma parents_precede_generated (sc nc fc segs : Z) :
  parents_precede (build_base_spec sc nc ++ fingers fc segs).
Proof.
  apply closed_under_parents_precede, closed_under_app.
  - apply closed_under_base.
  - apply closed_under_fingers. apply in_or_app. left. apply base_has_hand.
Qed.

(** *** Names *)

Lemma names_chain (mk : Z -> string -> entry) (nm : Z -> string) :
  (forall i p, name (mk i p) = nm i) ->
  forall idxs prev, map name (chain mk prev idxs) = map nm idxs.
Proof.
  intros H. induction idxs as [|i idxs IH]; intros prev; simpl.
  - reflexivity.
  - now rewrite H, IH.
Qed.

Lemma names_base (sc nc : Z) :
  map name (build_base_spec sc nc)
  = ["COG_FK_Jnt"; "Pelvis_FK_Jnt"]
    ++ map spine_name (py_range 1 (sc + 1))
    ++ ["Chest_FK_Jnt"]
    ++ map neck_name (py_range 1 (nc + 1))
    ++ ["Head_FK_Jnt"] ++ arm_names ++ leg_names.
Proof.
  rewrite build_base_spec_closed. rewrite !map_app.
  rewrite (names_chain spine_entry spine_name) by reflexivity.
  rewrite (names_chain neck_entry neck_name) by reflexivity.
  reflexivity.
Qed.

Lemma names_fingers (fc segs : Z) :
  map name (fingers fc segs)
  = flat_map (fun f => map (finger_name f) (py_range 1 (segs + 1)))
             (py_range 1 (fc + 1)).
Proof.
  unfold fingers. induction (py_range 1 (fc + 1)) as [|f fs IH]; simpl.
  - reflexivity.
  - rewrite map_app, IH.
    now rewrite (names_chain (finger_entry f) (finger_name f)) by reflexivity.
Qed.

Lemma spine_name_inj (a b : Z) :
  (0 <= a)%Z -> (0 <= b)%Z -> spine_name a = spine_name b -> a = b.
Proof.
  unfold spine_name. intros Ha Hb H.
  apply append_cancel_l, append_cancel_r in H. now apply fmt_02d_inj.
Qed.

Lemma neck_name_inj (a b : Z) :
  (0 <= a)%Z -> (0 <= b)%Z -> neck_name a = neck_name b -> a = b.
Proof.
  unfold neck_name. intros Ha Hb H.
  apply append_cancel_l, append_cancel_r in H. now apply fmt_02d_inj.
Qed.

Lemma finger_name_inj (f s f' s' : Z) :
  (0 <= f)%Z -> (0 <= s)%Z -> (0 <= f')%Z -> (0 <= s')%Z ->
  finger_name f s = finger_name f' s' -> f = f' /\ s = s'.
Proof.
  unfold finger_name. intros Hf Hs Hf' Hs' H.
  apply append_cancel_l in H.
  apply (digits_split "_" (fmt_02d f) (fmt_02d f')
           (fmt_02d s ^^ "_FK_Jnt") (fmt_02d s' ^^ "_FK_Jnt")) in H;
    [|reflexivity | now apply fmt_02d_digits | now apply fmt_02d_digits].
  destruct H as [H1 H2]. apply append_cancel_r in H2.
  split; now apply fmt_02d_inj.
Qed.

Lemma NoDup_map_on {A B} (f : A -> B) (l : list A) :
  (forall x y, In x l -> In y l -> f x = f y -> x = y) ->
  NoDup l -> NoDup (map f l).
Proof. intros H. now apply NoDup_map_NoDup_ForallPairs. Qed.

Lemma NoDup_flat_map_on {A B C} (g : A -> B -> C) (la : list A) (lb : list B) :
  (forall a b a' b', In a la -> In a' la -> In b lb -> In b' lb ->
                     g a b = g a' b' -> a = a' /\ b = b') ->
  NoDup la -> NoDup lb ->
  NoDup (flat_map (fun a => map (g a) lb) la).
Proof.
  intros Hinj Ha Hb. induction Ha as [|a la Hnin Ha IH]; simpl.
  - constructor.
  - apply NoDup_app.
    + apply NoDup_map_on; [|assumption].
      intros x y Hx Hy H.
      now destruct (Hinj a x a y (or_introl eq_refl) (or_introl eq_refl) Hx Hy H).
    + apply IH. intros x b x' b' Hx Hx'. apply Hinj; now right.
    + intros c Hc Hc'.
      apply in_map_iff in Hc. destruct Hc as (b & <- & Hb1).
      apply in_flat_map in Hc'. destruct Hc' as (a' & Ha' & Hc').
      apply in_map_iff in Hc'. destruct Hc' as (b' & Heq & Hb').
      destruct (Hinj a' b' a b (or_intror Ha') (or_introl eq_refl) Hb' Hb1 Heq)
        as [-> _].
      contradiction.
Qed.

(** Breaks a membership hypothesis of a list of names into its cases. *)
Ltac break_in :=
  repeat match goal with
    | H : In _ (_ ++ _) |- _ => apply in_app_or in H; destruct H as [H|H]
    | H : In _ (map _ _) |- _ =>
        apply in_map_iff in H; destruct H as (? & ? & H)
    | H : In _ (flat_map _ _) |- _ =>
        apply in_flat_map in H; destruct H as (? & ? & H)
    | H : In _ (_ :: _) |- _ => destruct H as [H|H]
    | H : In _ [] |- _ => destruct H
    end.

Ltac names_differ :=
  subst; unfold spine_name, neck_name, finger_name, arm_names, leg_names in *;
  simpl in *; try discriminate; try congruence.

Lemma names_base_NoDup (sc nc : Z) : NoDup (map name (build_base_spec sc nc)).
Proof.
  rewrite names_base.
  assert (Hsp : NoDup (map spine_name (py_range 1 (sc + 1)))).
  { apply NoDup_map_on; [|apply py_range_NoDup].
    intros x y Hx%py_range_spec Hy%py_range_spec. apply spine_name_inj; lia. }
  assert (Hnk : NoDup (map neck_name (py_range 1 (nc + 1)))).
  { apply NoDup_map_on; [|apply py_range_NoDup].
    intros x y Hx%py_range_spec Hy%py_range_spec. apply neck_name_inj; lia. }
  repeat apply NoDup_app; trivial;
    try (unfold arm_names, leg_names;
         repeat (constructor; [simpl; intuition discriminate|]); constructor);
    try (intros a Ha Hb; unfold arm_names, leg_names in *; break_in;
         names_differ).
Qed.

Lemma names_fingers_NoDup (fc segs : Z) : NoDup (map name (fingers fc segs)).
Proof.
  rewrite names_fingers.
  apply NoDup_flat_map_on; try apply py_range_NoDup.
  intros f s f' s' Hf%py_range_spec Hf'%py_range_spec
         Hs%py_range_spec Hs'%py_range_spec.
  apply finger_name_inj; lia.
Qed.

Lemma names_generated (sc nc fc segs : Z) (n : string) :
  In n (map name (build_base_spec sc nc ++ fingers fc segs)) ->
  generated_name n.
Proof.
  rewrite map_app, names_base, names_fingers. intros H.
  unfold arm_names, leg_names in H. break_in; subst;
    try (apply gen_fixed; unfold fixed_names, arm_names, leg_names;
         find_name; fail);
    repeat match goal with
      | H : In _ (py_range _ _) |- _ => apply py_range_spec in H
      end.
  - apply gen_spine. lia.
  - apply gen_neck. lia.
  - apply gen_finger; lia.
Qed.

Lemma names_generated_NoDup (sc nc fc segs : Z) :
  names_unique (build_base_spec sc nc ++ fingers fc segs).
Proof.
  unfold names_unique. rewrite map_app.
  apply NoDup_app.
  - apply names_base_NoDup.
  - apply names_fingers_NoDup.
  - rewrite names_base, names_fingers. intros a Ha Hb.
    unfold arm_names, leg_names in *. break_in; names_differ.
Qed.

(** *** Guide names *)

Lemma digit_not_J (c : ascii) : is_digit c = true -> not_J c = true.
Proof.
  unfold is_digit, not_J. simpl. rewrite !orb_true_iff.
  intros H. apply negb_true_iff.
  repeat (destruct H as [H|H];
          [apply Ascii.eqb_eq in H; subst; reflexivity|]).
  discriminate.
Qed.

Lemma fmt_02d_not_J (z : Z) :
  (0 <= z)%Z -> all_chars not_J (fmt_02d z) = true.
Proof.
  intros Hz. apply (all_chars_impl is_digit); [apply digit_not_J|].
  now apply fmt_02d_digits.
Qed.

Lemma guide_of_stem (stem : string) :
  all_chars not_J stem = true ->
  guide_name_for_joint (stem ^^ "_Jnt") = stem ^^ "_Guide".
Proof.
  intros H. unfold guide_name_for_joint.
  rewrite replace_same by discriminate.
  unfold replace, replace_count.
  rewrite replace_from_copy; [reflexivity | exact H | reflexivity].
Qed.

(** Every generated name is a stem without the letter J followed by the
    suffix "_Jnt". *)
Lemma generated_stem (n : string) :
  generated_name n ->
  exists stem, n = stem ^^ "_Jnt" /\ all_chars not_J stem = true.
Proof.
  intros [n' H | i Hi | i Hi | f s Hf Hs].
  - exists (stem_of n').
    unfold fixed_names, arm_names, leg_names in H.
    break_in; subst; (split; reflexivity).
  - exists ("Spine_" ^^ fmt_02d i ^^ "_FK"). split.
    + unfold spine_name. now rewrite !append_assoc.
    + rewrite !all_chars_append, fmt_02d_not_J by lia. reflexivity.
  - exists ("Neck_" ^^ fmt_02d i ^^ "_FK"). split.
    + unfold neck_name. now rewrite !append_assoc.
    + rewrite !all_chars_append, fmt_02d_not_J by lia. reflexivity.
  - exists ("L_Finger_" ^^ fmt_02d f ^^ "_" ^^ fmt_02d s ^^ "_FK"). split.
    + unfold finger_name. now rewrite !append_assoc.
    + rewrite !all_chars_append, !fmt_02d_not_J by lia. reflexivity.
Qed.

Lemma guide_name_inj_generated (n1 n2 : string) :
  generated_name n1 -> generated_name n2 ->
  guide_name_for_joint n1 = guide_name_for_joint n2 -> n1 = n2.
Proof.
  intros (s1 & -> & H1)%generated_stem (s2 & -> & H2)%generated_stem.
  rewrite !guide_of_stem by assumption.
  intros H. apply append_cancel_r in H. now subst.
Qed.

(** *** Sides *)

Lemma chain_In (mk : Z -> string -> entry) (e : entry) (idxs : list Z) :
  forall prev, In e (chain mk prev idxs) -> exists i p, e = mk i p.
Proof.
  induction idxs as [|i idxs IH]; intros prev; simpl; [contradiction|].
  intros [<-|H]; [now exists i, prev | now apply (IH _ H)].
Qed.

Lemma entries_ok (sc nc fc segs : Z) (e : entry) :
  In e (build_base_spec sc nc ++ fingers fc segs) -> entry_ok e.
Proof.
  rewrite build_base_spec_closed. unfold fingers, left_arm, left_leg.
  intros H. break_in;
    repeat match goal with
      | H : In _ (chain _ _ _) |- _ =>
          apply chain_In in H; destruct H as (? & ? & H)
      end;
    subst; unfold entry_ok; simpl;
    (split; [auto | split; [reflexivity | intros; try reflexivity; discriminate]]).
Qed.

Lemma swap_LR_of_left (n : string) :
  startswith n "L_" = true -> startswith (swap_LR n) "R_" = true.
Proof.
  intros H. apply startswith_2 in H. rewrite H.
  generalize (drop 2 n). intros [|c rest]; reflexivity.
Qed.

(** *** Theorems on the generated spec *)

Lemma well_formed_generated (sc nc fc segs : Z) :
  well_formed (build_base_spec sc nc ++ fingers fc segs).
Proof.
  split; [apply parents_precede_generated | apply names_generated_NoDup].
Qed.

(** C1. Spec generation is a function of the counts alone -- equal counts give
    the identical sequence of (key, name, parent, side, required) records,
    for [build_base_spec], for [append_fingers] and for the spec that
    [rebuild_spec] stores -- and for all integer counts the produced spec is
    well formed: every parent is null or the name of a strictly earlier
    record, and no name occurs twice. *)
Theorem spec_generation_deterministic_well_formed (sc nc fc segs : Z) :
  (forall sc' nc' fc' segs',
      sc' = sc -> nc' = nc -> fc' = fc -> segs' = segs ->
      build_base_spec sc' nc' = build_base_spec sc nc
      /\ append_fingers (build_base_spec sc' nc') fc' segs'
         = append_fingers (build_base_spec sc nc) fc segs
      /\ w_spec (rebuild_spec sc' nc' fc' segs')
         = w_spec (rebuild_spec sc nc fc segs))
  /\ well_formed (build_base_spec sc nc)
  /\ well_formed (append_fingers (build_base_spec sc nc) fc segs)
  /\ well_formed (w_spec (rebuild_spec sc nc fc segs)).
Proof.
  split; [|split; [|split]].
  - intros sc' nc' fc' segs' -> -> -> ->. repeat split.
  - rewrite <- (List.app_nil_r (build_base_spec sc nc)).
    rewrite <- (fingers_none 0 0) by lia. apply well_formed_generated.
  - rewrite append_fingers_closed. apply well_formed_generated.
  - rewrite rebuild_spec_closed. apply well_formed_generated.
Qed.

(** C6. With spine_count = 3 and neck_count = 3 the entries named
    "Chest_FK_Jnt" are exactly one, its parent is "Spine_03_FK_Jnt", and the
    entry named "Head_FK_Jnt" has parent "Neck_03_FK_Jnt". *)
Theorem chest_and_head_of_3_3 :
  filter (fun e => String.eqb (name e) "Chest_FK_Jnt") (build_base_spec 3 3)
  = [mk_entry "CHEST" "Chest_FK_Jnt" (Some "Spine_03_FK_Jnt") "C" true]
  /\ filter (fun e => String.eqb (name e) "Head_FK_Jnt") (build_base_spec 3 3)
     = [mk_entry "HEAD" "Head_FK_Jnt" (Some "Neck_03_FK_Jnt") "C" true].
Proof. split; vm_compute; reflexivity. Qed.

(** C7. For every input spec, [append_fingers] with finger_count = 2 and
    segments = 2 appends exactly four entries, named "L_Finger_01_01_FK_Jnt",
    "L_Finger_01_02_FK_Jnt", "L_Finger_02_01_FK_Jnt", "L_Finger_02_02_FK_Jnt";
    the first segment of a finger is parented to "L_Hand_FK_Jnt" and
    the second to the first segment of the same finger. *)
Theorem append_fingers_2_2 (spec : spec_t) :
  append_fingers spec 2 2
  = spec
    ++ [mk_entry "L_F1_1" "L_Finger_01_01_FK_Jnt" (Some "L_Hand_FK_Jnt") "L" true;
        mk_entry "L_F1_2" "L_Finger_01_02_FK_Jnt"
                 (Some "L_Finger_01_01_FK_Jnt") "L" true;
        mk_entry "L_F2_1" "L_Finger_02_01_FK_Jnt" (Some "L_Hand_FK_Jnt") "L" true;
        mk_entry "L_F2_2" "L_Finger_02_02_FK_Jnt"
                 (Some "L_Finger_02_01_FK_Jnt") "L" true].
Proof. rewrite append_fingers_closed. reflexivity. Qed.

(** C5. [swap_LR] exchanges the prefixes "L_" and "R_" and is an involution on
    prefixed names: a name starting with "L_" becomes "R_" followed by the
    rest and comes back after a second swap; a name starting with "R_"
    becomes the mirrored "L_" name and comes back as well. *)
Theorem swap_LR_involution (n : string) :
  (startswith n "L_" = true ->
   swap_LR n = "R_" ^^ drop 2 n /\ swap_LR (swap_LR n) = n)
  /\ (startswith n "R_" = true ->
      swap_LR n = "L_" ^^ drop 2 n /\ swap_LR (swap_LR n) = n).
Proof.
  split; intros H.
  - apply startswith_2 in H. rewrite H.
    generalize (drop 2 n). intros [|c rest]; split; reflexivity.
  - apply startswith_2 in H. rewrite H.
    generalize (drop 2 n). intros [|c rest]; split; reflexivity.
Qed.

Lemma swap_LR_involution_witness :
  (swap_LR "L_Arm_01_FK_Jnt" = "R_" ^^ drop 2 "L_Arm_01_FK_Jnt"
   /\ swap_LR (swap_LR "L_Arm_01_FK_Jnt") = "L_Arm_01_FK_Jnt")
  /\ (swap_LR "R_Arm_01_FK_Jnt" = "L_" ^^ drop 2 "R_Arm_01_FK_Jnt"
      /\ swap_LR (swap_LR "R_Arm_01_FK_Jnt") = "R_Arm_01_FK_Jnt").
Proof.
  split.
  - apply (proj1 (swap_LR_involution "L_Arm_01_FK_Jnt")). reflexivity.
  - apply (proj2 (swap_LR_involution "R_Arm_01_FK_Jnt")). reflexivity.
Defined.

(** C8. On the names of a generated spec the joint-to-guide mapping replaces
    the suffix "_Jnt" by "_Guide" and is injective: two entries with the same
    guide name have the same joint name. *)
Theorem guide_name_suffix_swap_injective (sc nc fc segs : Z) :
  let spec := w_spec (rebuild_spec sc nc fc segs) in
  (forall e, In e spec ->
     exists stem, name e = stem ^^ "_Jnt"
                  /\ guide_name_for_joint (name e) = stem ^^ "_Guide")
  /\ (forall e1 e2, In e1 spec -> In e2 spec ->
        guide_name_for_joint (name e1) = guide_name_for_joint (name e2) ->
        name e1 = name e2).
Proof.
  cbv zeta. rewrite rebuild_spec_closed.
  assert (G : forall e, In e (build_base_spec sc nc ++ fingers fc segs) ->
                        generated_name (name e)).
  { intros e He. apply (names_generated sc nc fc segs). now apply in_map. }
  split.
  - intros e He. destruct (generated_stem _ (G e He)) as (stem & Hn & HJ).
    exists stem. split; [assumption|].
    rewrite Hn. now apply guide_of_stem.
  - intros e1 e2 H1 H2. apply guide_name_inj_generated; auto.
Qed.

End RigSpecFacts.


(** ** Runs of scripts *)
Module ScriptFacts.
Import Script.

Section Exec.
Context {C : Type} {A : C -> Type} {S : Type} (h : handler C A S).

Lemma exec_bind {R Q : Type} (p : prog C A R) (f : R -> prog C A Q) :
  forall s, exec h (bind p f) s = then_run h (exec h p s) f.
Proof.
  induction p as [r | e | c k IH]; intros s; simpl.
  - unfold then_run. simpl. now destruct (exec h (f r) s).
  - reflexivity.
  - destruct (h c s) as [[a s']|]; [|reflexivity].
    rewrite IH. unfold then_run. simpl.
    destruct (outcome (exec h (k a) s')); reflexivity.
Qed.

Lemma exec_call (c : C) (s : S) :
  exec h (call c) s
  = match h c s with
    | Some (a, s') => mk_run [c] (Done a) s'
    | None => mk_run [c] (HostError c) s
    end.
Proof. simpl. now destruct (h c s) as [[a s']|]. Qed.

(** A property of every command of a run carries over [bind]. *)
Lemma log_bind_Forall {R Q : Type} (P : C -> Prop)
      (p : prog C A R) (f : R -> prog C A Q) (s : S) :
  Forall P (log (exec h p s)) ->
  (forall a s', Forall P (log (exec h (f a) s'))) ->
  Forall P (log (exec h (bind p f) s)).
Proof.
  intros Hp Hf. rewrite exec_bind. unfold then_run.
  destruct (outcome (exec h p s)); simpl; [|assumption|assumption].
  apply Forall_app. split; [assumption | apply Hf].
Qed.

Lemma log_call_Forall (P : C -> Prop) (c : C) (s : S) :
  P c -> Forall P (log (exec h (call c) s)).
Proof.
  intros Hc. rewrite exec_call.
  destruct (h c s) as [[a s']|]; simpl; auto.
Qed.

Lemma log_for_each_Forall {X : Type} (P : C -> Prop)
      (xs : list X) (body : X -> prog C A unit) :
  (forall x s, In x xs -> Forall P (log (exec h (body x) s))) ->
  forall s, Forall P (log (exec h (for_each xs body) s)).
Proof.
  induction xs as [|x xs IH]; intros Hb s; simpl.
  - constructor.
  - apply log_bind_Forall.
    + apply Hb. now left.
    + intros _ s'. apply IH. intros y s'' Hy. apply Hb. now right.
Qed.

End Exec.

End ScriptFacts.

(** ** Mirroring and empty selections *)
Module SceneFacts.
Import PyStr RigSpec Script ScriptFacts.

Lemma float_opp_involutive (x : float) : (- - x)%float = x.
Proof.
  rewrite <- (SF2Prim_Prim2SF (- - x)%float), !opp_spec.
  rewrite <- (SF2Prim_Prim2SF x) at 2. f_equal.
  destruct (Prim2SF x) as [[]|[]| |[] m e]; reflexivity.
Qed.

(** C4. [mirror_x_world] asks the host for the world translation and the
    world rotation of the source, and sets on the destination the
    translation with only its X component negated, (-x, y, z), and the
    rotation as it was read.  Mirroring a position twice gives the original
    position back: X returns to its value, Y and Z never change. *)
Theorem mirror_x_world_negates_x_only
        (S : Type) (h : handler AutoRig.cmd AutoRig.ans S)
        (src dst : string) (x y z : float) (r : list float)
        (s s1 s2 s3 s4 : S)
        (Ht : h (AutoRig.XformQueryT src) s = Some ([x; y; z], s1))
        (Hr : h (AutoRig.XformQueryRo src) s1 = Some (r, s2))
        (Hst : h (AutoRig.XformSetT dst [(- x)%float; y; z]) s2 = Some (tt, s3))
        (Hsr : h (AutoRig.XformSetRo dst r) s3 = Some (tt, s4)) :
  exec h (AutoRig.mirror_x_world src dst) s
  = mk_run [AutoRig.XformQueryT src; AutoRig.XformQueryRo src;
            AutoRig.XformSetT dst [(- x)%float; y; z];
            AutoRig.XformSetRo dst r]
           (Done tt) s4
  /\ AutoRig.mirror_t [x; y; z] = Some [(- x)%float; y; z]
  /\ AutoRig.mirror_t [(- x)%float; y; z] = Some [x; y; z].
Proof.
  split; [|split].
  - unfold AutoRig.mirror_x_world. simpl.
    rewrite Ht. simpl. rewrite Hr. simpl. rewrite Hst. simpl. rewrite Hsr.
    reflexivity.
  - reflexivity.
  - simpl. now rewrite float_opp_involutive.
Qed.

Lemma mirror_x_world_witness :
  let s := FlatScene.locators [("L_Clav_FK_Guide", [4; 5; 6]%float);
                               ("R_Clav_FK_Guide", FlatScene.zero3)] in
  let s' := FlatScene.locators [("L_Clav_FK_Guide", [4; 5; 6]%float);
                                ("R_Clav_FK_Guide", [-4; 5; 6]%float)] in
  exec FlatScene.handle
       (AutoRig.mirror_x_world "L_Clav_FK_Guide" "R_Clav_FK_Guide") s
  = mk_run [AutoRig.XformQueryT "L_Clav_FK_Guide";
            AutoRig.XformQueryRo "L_Clav_FK_Guide";
            AutoRig.XformSetT "R_Clav_FK_Guide" [(- 4)%float; 5%float; 6%float];
            AutoRig.XformSetRo "R_Clav_FK_Guide" FlatScene.zero3]
           (Done tt) s'
  /\ AutoRig.mirror_t [4; 5; 6]%float = Some [(- 4)%float; 5%float; 6%float]
  /\ AutoRig.mirror_t [(- 4)%float; 5%float; 6%float] = Some [4; 5; 6]%float.
Proof.
  intros s s'.
  exact (mirror_x_world_negates_x_only
           FlatScene.scene FlatScene.handle
           "L_Clav_FK_Guide" "R_Clav_FK_Guide" 4 5 6 FlatScene.zero3
           s s s s' s' eq_refl eq_refl eq_refl eq_refl).
Defined.

(** C9. With no transform selected both operations skip their work.
    [MirrorControls] issues the selection query and one warning and nothing
    else -- no command that creates, renames, reparents or edits a node --
    and returns.  [snap_to_selection] issues the selection query alone and
    returns False: no command reaches the target node. *)
Theorem empty_selection_is_skipped
        (S1 S2 : Type)
        (h1 : handler MirrorCtl.cmd MirrorCtl.ans S1)
        (h2 : handler AutoRig.cmd AutoRig.ans S2)
        (s1 s1' : S1) (s2 s2' : S2) (node : string)
        (Hsel1 : h1 MirrorCtl.LsSelTransforms s1 = Some ([], s1'))
        (Hsel2 : h2 AutoRig.LsSelTransforms s2 = Some ([], s2')) :
  let r := exec h1 MirrorCtl.MirrorControls s1 in
  log r = [MirrorCtl.LsSelTransforms;
           MirrorCtl.Warning "please select at least one control"]
  /\ forallb (fun c => negb (MirrorCtl.edits_scene c)) (log r) = true
  /\ (forall s1'',
        h1 (MirrorCtl.Warning "please select at least one control") s1'
        = Some (tt, s1'') ->
        outcome r = Done tt /\ final r = s1'')
  /\ exec h2 (AutoRig.snap_to_selection node) s2
     = mk_run [AutoRig.LsSelTransforms] (Done false) s2'.
Proof.
  cbv zeta. unfold MirrorCtl.MirrorControls, AutoRig.snap_to_selection.
  simpl. rewrite Hsel1, Hsel2. simpl.
  destruct (h1 (MirrorCtl.Warning "please select at least one control") s1')
    as [[[] s1'']|] eqn:Hw; simpl.
  - split; [reflexivity | split; [reflexivity | split; [|reflexivity]]].
    intros s [= <-]. now split.
  - split; [reflexivity | split; [reflexivity | split; [|reflexivity]]].
    intros s [=].
Qed.

Lemma empty_selection_witness :
  let r := exec EmptyScene.handle MirrorCtl.MirrorControls tt in
  let s := FlatScene.locators [("COG_FK_Guide", FlatScene.zero3)] in
  (log r = [MirrorCtl.LsSelTransforms;
            MirrorCtl.Warning "please select at least one control"]
   /\ outcome r = Done tt)
  /\ exec FlatScene.handle (AutoRig.snap_to_selection "COG_FK_Guide") s
     = mk_run [AutoRig.LsSelTransforms] (Done false) s.
Proof.
  pose proof (empty_selection_is_skipped
                unit FlatScene.scene EmptyScene.handle FlatScene.handle
                tt tt
                (FlatScene.locators [("COG_FK_Guide", FlatScene.zero3)])
                (FlatScene.locators [("COG_FK_Guide", FlatScene.zero3)])
                "COG_FK_Guide" eq_refl eq_refl) as H.
  cbv zeta in *. destruct H as (Hlog & _ & Hdone & Hsnap).
  split; [split|]; [exact Hlog | exact (proj1 (Hdone tt eq_refl)) | exact Hsnap].
Defined.

(** *** The mirror pass *)

Lemma mirror_x_world_log (S : Type) (h : handler AutoRig.cmd AutoRig.ans S)
      (spec : spec_t) (src dst : string) (s : S) :
  Forall (AutoRig.mirrored_locator spec)
         (log (exec h (AutoRig.mirror_x_world src dst) s)).
Proof.
  unfold AutoRig.mirror_x_world.
  apply log_bind_Forall; [now apply log_call_Forall|]. intros t s1.
  apply log_bind_Forall; [now apply log_call_Forall|]. intros r s2.
  destruct (AutoRig.mirror_t t); [|constructor].
  apply log_bind_Forall; [now apply log_call_Forall|]. intros _ s3.
  now apply log_call_Forall.
Qed.

Lemma make_locator_log (S : Type) (h : handler AutoRig.cmd AutoRig.ans S)
      (spec : spec_t) (g : string) (s : S) :
  AutoRig.mirrored_locator spec (AutoRig.SpaceLocator g) ->
  Forall (AutoRig.mirrored_locator spec)
         (log (exec h (AutoRig.make_locator g) s)).
Proof.
  intros Hg. unfold AutoRig.make_locator.
  apply log_bind_Forall; [now apply log_call_Forall|]. intros l s1.
  apply log_bind_Forall.
  { unfold item. destruct (nth_error l 0); constructor. }
  intros g' s2.
  repeat (apply log_bind_Forall; [now apply log_call_Forall|]; intros _ ?).
  constructor.
Qed.

Lemma mirror_guides_log (S : Type) (h : handler AutoRig.cmd AutoRig.ans S)
      (spec : spec_t) (s : S) :
  Forall (AutoRig.mirrored_locator spec)
         (log (exec h (AutoRig.mirror_left_to_right_guides spec) s)).
Proof.
  unfold AutoRig.mirror_left_to_right_guides.
  apply log_bind_Forall.
  { unfold AutoRig.ensure_group.
    apply log_bind_Forall; [now apply log_call_Forall|]. intros e s1.
    destruct e; cbn [negb]; [constructor | now apply log_call_Forall]. }
  intros _ s1. apply log_bind_Forall.
  { apply log_for_each_Forall. intros e s2 He.
    apply filter_In in He. destruct He as [He Hside].
    apply String.eqb_eq in Hside.
    unfold AutoRig.mirror_entry.
    apply log_bind_Forall; [now apply log_call_Forall|]. intros b s3.
    destruct b; cbn [negb]; [|constructor].
    apply log_bind_Forall; [now apply log_call_Forall|]. intros b' s4.
    apply log_bind_Forall.
    - destruct b'; cbn [negb]; [constructor|].
      apply make_locator_log. now exists e.
    - intros gR s5. apply mirror_x_world_log. }
  intros _ s2.
  apply log_bind_Forall; [now apply log_call_Forall|]. intros _ s3.
  now apply log_call_Forall.
Qed.

(** C10. Every record of the spec that [rebuild_spec] stores has side "C" or
    "L", none has side "R", so the step filter keeps the whole spec; no
    record's name starts with "R_".  Right-side names come from the mirror
    pass alone: under any host, every locator it creates is named by the
    guide name of [swap_LR] of a left-side record's name, which starts with
    "R_", and the pass creates no joint. *)
Theorem spec_has_no_right_side (sc nc fc segs : Z) :
  let w := rebuild_spec sc nc fc segs in
  (forall e, In e (w_spec w) -> side e = "C" \/ side e = "L")
  /\ (forall e, In e (w_spec w) -> side e <> "R")
  /\ w_steps w = w_spec w
  /\ (forall e, In e (w_spec w) -> startswith (name e) "R_" = false)
  /\ (forall e, In e (w_spec w) -> side e = "L" ->
        startswith (swap_LR (name e)) "R_" = true)
  /\ (forall (S : Type) (h : handler AutoRig.cmd AutoRig.ans S) (s : S),
        Forall (AutoRig.mirrored_locator (w_spec w))
               (log (exec h (AutoRig.mirror_left_to_right_guides (w_spec w)) s))).
Proof.
  cbv zeta.
  assert (Hok : forall e, In e (w_spec (rebuild_spec sc nc fc segs)) ->
                          RigSpecForms.entry_ok e).
  { rewrite RigSpecFacts.rebuild_spec_closed.
    apply RigSpecFacts.entries_ok. }
  repeat apply conj.
  - intros e He. apply (Hok e He).
  - intros e He HR. destruct (Hok e He) as [[H|H] _]; rewrite HR in H;
      discriminate.
  - unfold rebuild_spec at 1. cbn [w_steps].
    apply forallb_filter_id. apply forallb_forall. intros e He.
    unfold side_in_CL.
    destruct (Hok e He) as [[H|H] _]; rewrite H; reflexivity.
  - intros e He. apply (Hok e He).
  - intros e He HL. apply RigSpecFacts.swap_LR_of_left. now apply (Hok e He).
  - intros S h s. apply mirror_guides_log.
Qed.

End SceneFacts.

(** ** Lookups in the flat scene *)
Module FlatSceneFacts.
Import PyStr RigSpec RigSpecForms Script ScriptFacts AutoRig FlatScene.

Lemma exists_find (s : scene) (n : string) :
  node_exists s n = match find_node s n with Some _ => true | None => false end.
Proof.
  unfold node_exists, find_node.
  induction (nodes s) as [|nd l IH]; simpl; [reflexivity|].
  destruct (named n nd); [reflexivity | exact IH].
Qed.

Lemma find_add (nd : node) (s : scene) (n : string) :
  find_node (add_node nd s) n
  = match find_node s n with
    | Some x => Some x
    | None => if named n nd then Some nd else None
    end.
Proof.
  unfold find_node, add_node. simpl.
  induction (nodes s) as [|x l IH]; simpl; [reflexivity|].
  destruct (named n x); [reflexivity | exact IH].
Qed.

Lemma find_update (c : string) (f : node -> node) (s : scene) (n : string) :
  (forall nd, nd_name (f nd) = nd_name nd) ->
  find_node (update_node c f s) n
  = if String.eqb c n then option_map f (find_node s n) else find_node s n.
Proof.
  intros Hf. unfold find_node, update_node. simpl.
  induction (nodes s) as [|x l IH]; simpl.
  - now destruct (String.eqb c n).
  - unfold named in *.
    destruct (String.eqb_spec (nd_name x) c) as [Hc|Hc].
    + rewrite Hf. subst c.
      destruct (String.eqb_spec (nd_name x) n) as [Hn|Hn]; [reflexivity|].
      exact IH.
    + destruct (String.eqb_spec (nd_name x) n) as [Hn|Hn].
      * destruct (String.eqb_spec c n); [congruence | reflexivity].
      * exact IH.
Qed.

Lemma find_deselect (s : scene) (sel : list string) (n : string) :
  find_node (mk_scene (nodes s) sel) n = find_node s n.
Proof. reflexivity. Qed.

Lemma find_app_entry (f : entry -> bool) (l l' : spec_t) :
  find f (l ++ l') = match find f l with Some x => Some x | None => find f l' end.
Proof.
  induction l as [|x l IH]; simpl; [reflexivity|].
  destruct (f x); [reflexivity | exact IH].
Qed.

Lemma find_none_names (n : string) (l : spec_t) :
  ~ In n (map name l) -> find (fun e => String.eqb (name e) n) l = None.
Proof.
  induction l as [|x l IH]; simpl; [reflexivity|].
  intros H. destruct (String.eqb_spec (name x) n) as [E|E].
  - exfalso. apply H. now left.
  - apply IH. intros Hin. apply H. now right.
Qed.

Lemma find_some_names (n : string) (l : spec_t) :
  In n (map name l) ->
  exists e, find (fun e => String.eqb (name e) n) l = Some e
            /\ name e = n /\ In e l.
Proof.
  induction l as [|x l IH]; simpl; [contradiction|].
  intros H. destruct (String.eqb_spec (name x) n) as [E|E].
  - exists x. auto.
  - destruct H as [H|H]; [contradiction|].
    destruct (IH H) as (e & He & Hn & Hin). exists e. auto.
Qed.

End FlatSceneFacts.

Module FkBuildFacts.
Import PyStr RigSpec RigSpecForms Script ScriptFacts AutoRig FlatScene FlatSceneFacts.

Section BuildLoop.
Variable s0 : scene.

Lemma agrees_exists (s : scene) (f : string -> option node) (n : string) :
  agrees s f ->
  node_exists s n = match f n with Some _ => true | None => false end.
Proof. intros H. rewrite exists_find. now rewrite H. Qed.

Lemma lookup_fresh (grouped : list string) (pre : spec_t) (n : string) :
  n <> joints_grp -> ~ In n (map name pre) ->
  lookup_after s0 grouped pre n = find_node s0 n.
Proof.
  intros Hg Hn. unfold lookup_after.
  destruct (find_node s0 n); [reflexivity|].
  destruct (String.eqb_spec n joints_grp); [contradiction|].
  now rewrite find_none_names.
Qed.

Lemma agrees_fresh (s : scene) (grouped : list string) (pre : spec_t)
      (n : string) :
  agrees s (lookup_after s0 grouped pre) ->
  n <> joints_grp -> ~ In n (map name pre) ->
  node_exists s n = node_exists s0 n.
Proof.
  intros Hag Hg Hn.
  rewrite (agrees_exists s _ n Hag), lookup_fresh by assumption.
  now rewrite exists_find.
Qed.


Lemma find_named (n : string) (pre : spec_t) (e : entry) :
  find (fun e => String.eqb (name e) n) pre = Some e -> name e = n /\ In e pre.
Proof.
  intros H. apply find_some in H. destruct H as [Hin H].
  apply String.eqb_eq in H. now split.
Qed.

(** Walking past an entry that is not built leaves the lookup as it was. *)
Lemma lookup_snoc_unbuilt (grouped : list string) (pre : spec_t) (e : entry)
      (n : string) :
  built s0 (name e) = false ->
  lookup_after s0 grouped (pre ++ [e]) n = lookup_after s0 grouped pre n.
Proof.
  intros Hb. unfold lookup_after.
  destruct (find_node s0 n); [reflexivity|].
  destruct (String.eqb n joints_grp); [reflexivity|].
  rewrite find_app_entry.
  destruct (find (fun e0 => String.eqb (name e0) n) pre); [reflexivity|].
  simpl. destruct (String.eqb_spec (name e) n) as [<-|]; [|reflexivity].
  now rewrite Hb.
Qed.

(** Walking past an entry that is built adds its joint. *)
Lemma lookup_snoc_built (grouped : list string) (pre : spec_t) (e : entry)
      (n : string) :
  ~ In (name e) (map name pre) ->
  built s0 (name e) = true ->
  lookup_after s0 grouped (pre ++ [e]) n
  = match lookup_after s0 grouped pre n with
    | Some x => Some x
    | None =>
        if String.eqb (name e) n
        then Some (joint_node s0 e
                     (if existsb (String.eqb n) grouped
                      then Some (final_parent s0 e) else attach_to s0 e))
        else None
    end.
Proof.
  intros Hn Hb. unfold lookup_after.
  destruct (find_node s0 n); [reflexivity|].
  destruct (String.eqb n joints_grp); [reflexivity|].
  rewrite find_app_entry.
  destruct (find (fun e0 => String.eqb (name e0) n) pre) as [e'|] eqn:Hf.
  - destruct (built s0 n); [reflexivity|].
    apply find_named in Hf. destruct Hf as [He' Hin].
    destruct (String.eqb_spec (name e) n) as [E|]; [|reflexivity].
    exfalso. apply Hn. rewrite E, <- He'. now apply in_map.
  - simpl. destruct (String.eqb_spec (name e) n) as [<-|]; [|reflexivity].
    now rewrite Hb.
Qed.

(** Whether the parent named by an entry is in the scene when the entry is
    walked. *)
Lemma lookup_parent (grouped : list string) (pre : spec_t) (p : string) :
  In p (map name pre) -> p <> joints_grp ->
  match lookup_after s0 grouped pre p with Some _ => true | None => false end
  = taken s0 p || placed s0 p.
Proof.
  intros Hin Hg. unfold lookup_after, built, taken.
  rewrite (exists_find s0 p).
  destruct (find_node s0 p); [reflexivity|].
  destruct (String.eqb_spec p joints_grp); [contradiction|].
  destruct (find_some_names p pre Hin) as (e & -> & _ & _).
  simpl. now destruct (placed s0 p).
Qed.

Lemma build_entry_run (pre : spec_t) (e : entry) (created : list string)
      (s : scene) :
  agrees s (lookup_after s0 [] pre) ->
  ~ In (name e) (map name pre) ->
  ~ In (guide_name_for_joint (name e)) (map name (pre ++ [e])) ->
  name e <> joints_grp ->
  guide_name_for_joint (name e) <> joints_grp ->
  (forall p, parent e = Some p ->
             p = "" \/ (In p (map name pre) /\ p <> joints_grp)) ->
  exists s',
    exec handle (build_entry created e) s
    = mk_run (entry_log s0 e)
             (Done (created ++ (if built s0 (name e) then [name e] else [])))
             s'
    /\ agrees s' (lookup_after s0 [] (pre ++ [e])).
Proof.
  intros Hag Hn Hg Hj Hgj Hp.
  assert (Hg' : ~ In (guide_name_for_joint (name e)) (map name pre)).
  { intros H. apply Hg. rewrite map_app. apply in_or_app. now left. }
  pose proof (agrees_fresh s [] pre _ Hag Hgj Hg') as Eg.
  pose proof (agrees_fresh s [] pre _ Hag Hj Hn) as Ej.
  assert (Eq : find_node s (guide_name_for_joint (name e))
               = find_node s0 (guide_name_for_joint (name e))).
  { rewrite Hag. now apply lookup_fresh. }
  unfold build_entry, entry_log.
  fold (placed s0 (name e)) in Eg. fold (taken s0 (name e)) in Ej.
  assert (Hb : built s0 (name e) = placed s0 (name e) && negb (taken s0 (name e)))
    by reflexivity.
  assert (Ew : world_t s0 (guide_name_for_joint (name e))
               = match find_node s0 (guide_name_for_joint (name e)) with
                 | Some nd => nd_t nd | None => [] end) by reflexivity.
  assert (Epl : placed s0 (name e)
                = match find_node s0 (guide_name_for_joint (name e)) with
                  | Some _ => true | None => false end)
    by apply exists_find.
  remember (guide_name_for_joint (name e)) as g eqn:Heqg.
  remember (name e) as j eqn:Heqj.
  cbn [bind call Script.call exec handle].
  rewrite Eg.
  destruct (placed s0 j) eqn:Hpl; cbn [negb].
  2:{ (* no guide *)
    exists s. split.
    - destruct (required e);
        cbn [bind call Script.call exec handle log outcome final];
        rewrite Hb, List.app_nil_r; reflexivity.
    - intros n. rewrite lookup_snoc_unbuilt; [apply Hag | now rewrite <- Heqj, Hb]. }
  cbn [bind call Script.call exec handle log outcome final].
  rewrite Ej.
  destruct (taken s0 j) eqn:Htk.
  { (* joint already there *)
    exists s. split.
    - cbn [bind call Script.call exec handle log outcome final].
      rewrite Hb, List.app_nil_r. reflexivity.
    - intros n. rewrite lookup_snoc_unbuilt; [apply Hag | now rewrite <- Heqj, Hb]. }
  cbn [bind call Script.call exec handle log outcome final negb andb] in *.
  rewrite Eq.
  destruct (find_node s0 g) as [gn|] eqn:Hgn; [|discriminate Epl].
  cbn [option_map bind call Script.call exec handle log outcome final].
  change (node_exists {| nodes := nodes s; selection := [] |} j)
    with (node_exists s j).
  rewrite Ej. cbn [joint_parent selection].
  set (s2 := add_node _ _).
  assert (H2 : forall n, find_node s2 n
                         = match lookup_after s0 [] pre n with
                           | Some x => Some x
                           | None => if String.eqb j n
                                     then Some (joint_node s0 e None) else None
                           end).
  { intros n. unfold s2. rewrite find_add, find_deselect, Hag.
    destruct (lookup_after s0 [] pre n); [reflexivity|].
    unfold named, joint_node. cbn [nd_name].
    rewrite <- Heqj, <- Heqg, Ew. reflexivity. }
  assert (Hjn : lookup_after s0 [] pre j = None).
  { rewrite lookup_fresh by assumption.
    unfold taken in Htk. rewrite exists_find in Htk.
    now destruct (find_node s0 j). }
  cbn [log outcome final].
  destruct (parent e) as [[|c p']|] eqn:Hpar.
  3:{ (* no parent *)
    exists s2. split.
    - cbn [exec log outcome final Datatypes.app]. rewrite Hb, Ew. reflexivity.
    - intros n. rewrite lookup_snoc_built, H2 by (rewrite <- ?Heqj; assumption).
      rewrite <- Heqj. cbn [existsb]. unfold attach_to. rewrite Hpar.
      reflexivity. }
  { (* empty parent *)
    exists s2. split.
    - cbn [exec log outcome final Datatypes.app]. rewrite Hb, Ew. reflexivity.
    - intros n. rewrite lookup_snoc_built, H2 by (rewrite <- ?Heqj; assumption).
      rewrite <- Heqj. cbn [existsb]. unfold attach_to. rewrite Hpar.
      reflexivity. }
  destruct (Hp _ eq_refl) as [Hp'|[Hpin Hpg]]; [discriminate|].
  set (par := String c p') in *.
  assert (Hjp : j <> par) by (intros ->; contradiction).
  assert (Epar : node_exists s2 par = taken s0 par || placed s0 par).
  { rewrite exists_find, H2, <- (lookup_parent [] pre par) by assumption.
    destruct (lookup_after s0 [] pre par); [reflexivity|].
    now destruct (String.eqb_spec j par). }
  assert (Ejj : node_exists s2 j = true).
  { rewrite exists_find, H2, Hjn, String.eqb_refl. reflexivity. }
  cbn [exec handle log outcome final].
  rewrite Epar.
  destruct (taken s0 par || placed s0 par) eqn:Hatt.
  - cbn [exec handle log outcome final].
    rewrite Ejj, Epar.
    destruct (String.eqb_spec j par) as [|_]; [contradiction|].
    cbn [andb negb exec log outcome final Datatypes.app].
    exists (update_node j (set_parent par) s2). split.
    + rewrite Hb, Ew. reflexivity.
    + intros n. rewrite lookup_snoc_built by (rewrite <- ?Heqj; assumption).
      rewrite find_update, H2 by reflexivity.
      rewrite <- Heqj. cbn [existsb]. unfold attach_to. rewrite Hpar.
      unfold par in *. cbv beta iota zeta. rewrite Hatt.
      destruct (String.eqb_spec j n) as [<-|Hne].
      * rewrite Hjn. reflexivity.
      * reflexivity.
  - cbn [exec handle log outcome final Datatypes.app].
    exists s2. split.
    + rewrite Hb, Ew. reflexivity.
    + intros n. rewrite lookup_snoc_built, H2 by (rewrite <- ?Heqj; assumption).
      rewrite <- Heqj. cbn [existsb]. unfold attach_to. rewrite Hpar.
      unfold par in *. cbv beta iota zeta. rewrite Hatt. reflexivity.
Qed.

Lemma hygienic_step (spec pre rest : spec_t) (e : entry) :
  hygienic spec -> spec = pre ++ e :: rest ->
  ~ In (name e) (map name pre)
  /\ ~ In (guide_name_for_joint (name e)) (map name (pre ++ [e]))
  /\ name e <> joints_grp
  /\ guide_name_for_joint (name e) <> joints_grp
  /\ (forall p, parent e = Some p ->
                p = "" \/ (In p (map name pre) /\ p <> joints_grp)).
Proof.
  intros (Hnd & Hpp & Hgn & Hgrp) ->.
  assert (Hin : forall x, In x (pre ++ [e]) -> In x (pre ++ e :: rest)).
  { intros x Hx. apply in_app_or in Hx. apply in_or_app.
    destruct Hx as [Hx|[<-|[]]]; [now left | right; now left]. }
  assert (He : In e (pre ++ e :: rest)) by (apply Hin, in_or_app; right; now left).
  repeat apply conj.
  - rewrite map_app in Hnd. simpl in Hnd. apply NoDup_remove_2 in Hnd.
    intros H. apply Hnd, in_or_app. now left.
  - intros H. apply in_map_iff in H. destruct H as (e' & He' & Hin').
    apply (Hgn e e' He (Hin _ Hin') He').
  - apply (Hgrp e He).
  - apply (Hgrp e He).
  - intros p Hp. right.
    destruct (Hpp pre e rest eq_refl) as [Hnone | (e' & Hin' & Hsome)];
      [congruence|].
    assert (p = name e') as -> by congruence.
    split; [now apply in_map|].
    apply (Hgrp e'). apply Hin, in_or_app. now left.
Qed.

Lemma build_loop (spec : spec_t) :
  hygienic spec ->
  forall rest pre created s,
    spec = pre ++ rest ->
    agrees s (lookup_after s0 [] pre) ->
    exists s',
      exec handle (for_fold rest created build_entry) s
      = mk_run (flat_map (entry_log s0) rest)
               (Done (created
                      ++ map name (filter (fun e => built s0 (name e)) rest)))
               s'
      /\ agrees s' (lookup_after s0 [] spec).
Proof.
  intros Hh. induction rest as [|e rest IH]; intros pre created s Hspec Hag.
  - exists s. rewrite List.app_nil_r in *. subst pre. split; [reflexivity|assumption].
  - destruct (hygienic_step spec pre rest e Hh Hspec)
      as (H1 & H2 & H3 & H4 & H5).
    destruct (build_entry_run pre e created s Hag H1 H2 H3 H4 H5)
      as (s1 & Hrun & Hag1).
    destruct (IH (pre ++ [e])
                 (created ++ (if built s0 (name e) then [name e] else []))
                 s1) as (s' & Hrun' & Hag'); [|assumption|].
    { rewrite Hspec, <- List.app_assoc. reflexivity. }
    exists s'. split; [|assumption].
    cbn [for_fold]. rewrite exec_bind, Hrun. unfold then_run.
    cbn [outcome final log]. rewrite Hrun'. cbn [outcome final log flat_map filter].
    f_equal. f_equal. rewrite <- List.app_assoc. f_equal.
    now destruct (built s0 (name e)).
Qed.


Lemma names_inj (spec : spec_t) (e e' : entry) :
  NoDup (map name spec) -> In e spec -> In e' spec -> name e = name e' ->
  e = e'.
Proof.
  induction spec as [|x spec IH]; simpl; [contradiction|].
  intros Hnd He He' Hn. apply NoDup_cons_iff in Hnd. destruct Hnd as [Hx Hnd].
  destruct He as [->|He], He' as [->|He'].
  - reflexivity.
  - exfalso. apply Hx. rewrite Hn. now apply in_map.
  - exfalso. apply Hx. rewrite <- Hn. now apply in_map.
  - now apply IH.
Qed.

(** The lookup of a built joint of the spec. *)
Lemma lookup_built (spec : spec_t) (grouped : list string) (e : entry) :
  NoDup (map name spec) -> In e spec -> name e <> joints_grp ->
  built s0 (name e) = true ->
  lookup_after s0 grouped spec (name e)
  = Some (joint_node s0 e
            (if existsb (String.eqb (name e)) grouped
             then Some (final_parent s0 e) else attach_to s0 e)).
Proof.
  intros Hnd He Hg Hb. unfold lookup_after.
  assert (Ht : find_node s0 (name e) = None).
  { unfold built, taken in Hb. rewrite exists_find in Hb.
    destruct (find_node s0 (name e)); [|reflexivity].
    now rewrite andb_false_r in Hb. }
  rewrite Ht.
  destruct (String.eqb_spec (name e) joints_grp); [contradiction|].
  destruct (find_some_names (name e) spec (in_map name _ _ He))
    as (e' & -> & Hn & Hin).
  rewrite Hb. now rewrite (names_inj spec e' e Hnd Hin He Hn).
Qed.

Lemma lookup_grouped_other (spec : spec_t) (grouped : list string)
      (j n : string) :
  n <> j ->
  lookup_after s0 (grouped ++ [j]) spec n = lookup_after s0 grouped spec n.
Proof.
  intros Hne. unfold lookup_after.
  rewrite existsb_app. cbn [existsb].
  destruct (String.eqb_spec n j); [contradiction|].
  now rewrite !orb_false_r.
Qed.

Lemma lookup_grp (spec : spec_t) (grouped : list string) :
  lookup_after s0 grouped spec joints_grp <> None.
Proof.
  unfold lookup_after. destruct (find_node s0 joints_grp); [discriminate|].
  rewrite String.eqb_refl. discriminate.
Qed.

Lemma group_loop (spec : spec_t) :
  hygienic spec ->
  forall es grouped s,
    (forall e, In e es -> In e spec /\ built s0 (name e) = true) ->
    NoDup (map name es) ->
    (forall e, In e es -> ~ In (name e) grouped) ->
    agrees s (lookup_after s0 grouped spec) ->
    exists s',
      exec handle (for_each (map name es) group_root) s
      = mk_run (flat_map (root_log s0) es) (Done tt) s'
      /\ agrees s' (lookup_after s0 (grouped ++ map name es) spec).
Proof.
  intros Hh. pose proof Hh as (Hnd & _ & _ & Hgrp).
  induction es as [|e es IH]; intros grouped s Hes Hnd' Hfresh Hag.
  - exists s. cbn. rewrite List.app_nil_r. now split.
  - destruct (Hes e (or_introl eq_refl)) as [Hin Hb].
    destruct (Hgrp e Hin) as [Hj _].
    assert (Hnotin : existsb (String.eqb (name e)) grouped = false).
    { apply not_true_is_false. intros H. apply existsb_exists in H.
      destruct H as (x & Hx & Hxe). apply String.eqb_eq in Hxe. subst x.
      now apply (Hfresh e (or_introl eq_refl)). }
    pose proof (lookup_built spec grouped e Hnd Hin Hj Hb) as Hl.
    rewrite Hnotin in Hl.
    pose proof (lookup_built spec (grouped ++ [name e]) e Hnd Hin Hj Hb) as Hl'.
    rewrite existsb_app in Hl'. cbn [existsb] in Hl'.
    rewrite String.eqb_refl, orb_true_r in Hl'.
    simpl in Hnd'. apply NoDup_cons_iff in Hnd'. destruct Hnd' as [Hne Hnd'].
    assert (Hstep : exists s1,
               exec handle (group_root (name e)) s
               = mk_run (root_log s0 e) (Done tt) s1
               /\ agrees s1 (lookup_after s0 (grouped ++ [name e]) spec)).
    { unfold group_root, root_log, final_parent in *.
      cbn [bind call Script.call exec handle].
      rewrite Hag, Hl. cbn [option_map joint_node nd_parent].
      destruct (attach_to s0 e) as [p|] eqn:Hat.
      - exists s. split; [reflexivity|].
        intros n. destruct (String.eqb_spec n (name e)) as [->|Hn].
        + now rewrite Hag, Hl, Hl'.
        + rewrite lookup_grouped_other by assumption. apply Hag.
      - cbn [option_map nonempty negb bind call Script.call exec handle
               log outcome final].
        rewrite !exists_find, !Hag, Hl.
        destruct (lookup_after s0 grouped spec joints_grp) eqn:Hg;
          [|now apply lookup_grp in Hg].
        destruct (String.eqb_spec (name e) joints_grp) as [|_]; [contradiction|].
        cbn [andb negb exec log outcome final].
        exists (update_node (name e) (set_parent joints_grp) s).
        split; [reflexivity|].
        intros m. rewrite find_update by reflexivity.
        destruct (String.eqb_spec (name e) m) as [<-|Hn].
        + now rewrite Hag, Hl, Hl'.
        + rewrite lookup_grouped_other by congruence. apply Hag. }
    destruct Hstep as (s1 & Hrun & Hag1).
    destruct (IH (grouped ++ [name e]) s1) as (s' & Hrun' & Hag');
      [| assumption | | assumption |].
    { intros x Hx. apply Hes. now right. }
    { intros x Hx Hin'. apply in_app_or in Hin'.
      destruct Hin' as [Hin'|[Heq|[]]].
      - now apply (Hfresh x (or_intror Hx)).
      - apply Hne. rewrite Heq. now apply in_map. }
    exists s'. split.
    + cbn [map for_each]. rewrite exec_bind, Hrun. unfold then_run.
      cbn [outcome final log]. rewrite Hrun'. reflexivity.
    + rewrite <- List.app_assoc in Hag'. exact Hag'.
Qed.

End BuildLoop.


Section BuildRun.
Variable s0 : scene.

Lemma ensure_joints_grp_run :
  exists s1,
    exec handle (ensure_group joints_grp) s0
    = mk_run ([ObjExists joints_grp]
              ++ (if taken s0 joints_grp then [] else [GroupEmpty joints_grp]))
             (Done joints_grp) s1
    /\ agrees s1 (lookup_after s0 [] []).
Proof.
  unfold ensure_group. cbn [bind call Script.call exec handle].
  unfold taken. destruct (node_exists s0 joints_grp) eqn:Hex.
  - exists s0. split; [reflexivity|].
    intros n. unfold lookup_after.
    destruct (find_node s0 n) eqn:Hn; [reflexivity|].
    destruct (String.eqb_spec n joints_grp) as [->|]; [|reflexivity].
    rewrite exists_find, Hn in Hex. discriminate.
  - cbn [negb bind call Script.call exec handle log outcome final].
    rewrite Hex. cbn [exec log outcome final Datatypes.app].
    eexists. split; [reflexivity|].
    intros n. rewrite find_add. unfold lookup_after.
    destruct (find_node s0 n); [reflexivity|].
    unfold named. cbn [nd_name]. rewrite String.eqb_sym. reflexivity.
Qed.

Lemma build_fk_joints_run (spec : spec_t) :
  hygienic spec ->
  let es := filter (fun e => built s0 (name e)) spec in
  exists s',
    exec handle (build_fk_joints spec) s0
    = mk_run (expected_log s0 spec) (Done tt) s'
    /\ agrees s' (lookup_after s0 (map name es) spec).
Proof.
  intros Hh es. pose proof Hh as (Hnd & _ & _ & Hgrp).
  destruct ensure_joints_grp_run as (s1 & Hrun1 & Hag1).
  destruct (build_loop s0 spec Hh spec [] [] s1 eq_refl Hag1)
    as (s2 & Hrun2 & Hag2).
  fold es in Hrun2. cbn [Datatypes.app] in Hrun2.
  assert (Hes : forall e, In e es -> In e spec /\ built s0 (name e) = true).
  { intros e He. apply filter_In in He. exact He. }
  assert (Hnd' : NoDup (map name es)).
  { clear -Hnd. unfold es. induction spec as [|x l IH]; simpl; [constructor|].
    simpl in Hnd. apply NoDup_cons_iff in Hnd. destruct Hnd as [Hx Hnd].
    destruct (built s0 (name x)); [|now apply IH].
    simpl. constructor; [|now apply IH].
    intros H. apply Hx. apply in_map_iff in H. destruct H as (y & <- & Hy).
    apply filter_In in Hy. now apply in_map. }
  destruct (group_loop s0 spec Hh es [] s2 Hes Hnd' (fun _ _ H => H) Hag2)
    as (s3 & Hrun3 & Hag3).
  cbn [Datatypes.app] in Hag3.
  unfold build_fk_joints, expected_log. fold es.
  rewrite exec_bind, Hrun1. unfold then_run. cbn [outcome final log]. cbv beta.
  rewrite exec_bind, Hrun2. unfold then_run. cbn [outcome final log]. cbv beta.
  rewrite exec_bind, Hrun3. unfold then_run. cbn [outcome final log]. cbv beta.
  assert (Hall : forallb (node_exists s3) (map name es) = true).
  { apply forallb_forall. intros n Hn.
    apply in_map_iff in Hn. destruct Hn as (e & <- & He).
    destruct (Hes e He) as [Hin Hb].
    rewrite exists_find, Hag3.
    now rewrite (lookup_built s0 spec _ e Hnd Hin (proj1 (Hgrp e Hin)) Hb). }
  destruct (map name es) as [|c cs] eqn:Hc.
  - eexists. split.
    + cbn [bind call Script.call exec handle log outcome final].
      rewrite <- !List.app_assoc. reflexivity.
    + exact Hag3.
  - eexists. split.
    + cbn [bind call Script.call exec handle log outcome final].
      rewrite Hall. cbn [exec log outcome final].
      rewrite <- !List.app_assoc. reflexivity.
    + exact Hag3.
Qed.

End BuildRun.

End FkBuildFacts.

Module FkBuildTheorems.
Import PyStr PyStrFacts RigSpec RigSpecForms RigSpecFacts Script ScriptFacts AutoRig FlatScene
       FlatSceneFacts FkBuildFacts.

Lemma append_last_char (a b : string) (c d : ascii) :
  a ^^ String c "" = b ^^ String d "" -> c = d.
Proof.
  revert b. induction a as [|x a IH]; intros [|y b] H; simpl in H.
  - now injection H.
  - injection H as _ H. destruct b; discriminate.
  - injection H as _ H. destruct a; discriminate.
  - injection H as _ H. now apply (IH b).
Qed.

Lemma suffix_differs (a b u v : string) (c d : ascii) :
  c <> d -> a ^^ u ^^ String c "" <> b ^^ v ^^ String d "".
Proof.
  intros Hcd H. rewrite <- !append_assoc in H.
  now apply append_last_char in H.
Qed.

Lemma generated_hygienic (sc nc fc segs : Z) :
  hygienic (w_spec (rebuild_spec sc nc fc segs)).
Proof.
  rewrite rebuild_spec_closed.
  assert (G : forall e, In e (build_base_spec sc nc ++ fingers fc segs) ->
                exists stem, name e = stem ^^ "_Jnt"
                             /\ guide_name_for_joint (name e) = stem ^^ "_Guide").
  { intros e He.
    destruct (generated_stem (name e)) as (stem & Hn & HJ).
    - apply (names_generated sc nc fc segs). now apply in_map.
    - exists stem. split; [assumption|]. rewrite Hn. now apply guide_of_stem. }
  repeat apply conj.
  - apply names_generated_NoDup.
  - apply parents_precede_generated.
  - intros e e' He He' H.
    destruct (G e He) as (s & _ & Hg). destruct (G e' He') as (s' & Hn' & _).
    rewrite Hg, Hn' in H.
    now apply (suffix_differs s' s "_Jn" "_Guid" "t" "e") in H.
  - intros e He. destruct (G e He) as (s & Hn & Hg). rewrite Hg, Hn. split.
    + intros H.
      now apply (suffix_differs s "" "_Jn" "RigJoints_GR" "t" "P") in H.
    + intros H.
      now apply (suffix_differs s "" "_Guid" "RigJoints_GR" "e" "P") in H.
Qed.

Section Projections.
Variable s0 : scene.

Lemma joints_created_app (a b : list cmd) :
  joints_created (a ++ b) = joints_created a ++ joints_created b.
Proof. apply flat_map_app. Qed.

Lemma warnings_app (a b : list cmd) :
  warnings (a ++ b) = warnings a ++ warnings b.
Proof. apply flat_map_app. Qed.

Lemma joints_created_entries (spec : spec_t) :
  joints_created (flat_map (entry_log s0) spec)
  = map (fun e => (name e, world_t s0 (guide_name_for_joint (name e))))
        (filter (fun e => built s0 (name e)) spec).
Proof.
  induction spec as [|e spec IH]; [reflexivity|].
  cbn [flat_map filter]. rewrite joints_created_app, IH.
  unfold entry_log, built.
  destruct (placed s0 (name e)); cbn [negb andb].
  - destruct (taken s0 (name e)); cbn [negb andb]; [reflexivity|].
    rewrite joints_created_app.
    destruct (parent e) as [[|c p]|]; try reflexivity.
    now destruct (taken s0 (String c p) || placed s0 (String c p)).
  - now destruct (required e).
Qed.

Lemma warnings_entries (spec : spec_t) :
  warnings (flat_map (entry_log s0) spec) = flat_map (entry_warnings s0) spec.
Proof.
  induction spec as [|e spec IH]; [reflexivity|].
  cbn [flat_map]. rewrite warnings_app, IH. f_equal.
  unfold entry_log, entry_warnings.
  destruct (placed s0 (name e)); cbn [negb].
  - destruct (taken s0 (name e)); [reflexivity|].
    rewrite warnings_app.
    destruct (parent e) as [[|c p]|]; try reflexivity.
    now destruct (taken s0 (String c p) || placed s0 (String c p)).
  - now destruct (required e).
Qed.

Lemma roots_quiet (es : spec_t) :
  joints_created (flat_map (root_log s0) es) = []
  /\ warnings (flat_map (root_log s0) es) = [].
Proof.
  induction es as [|e es [IH1 IH2]]; [now split|].
  cbn [flat_map]. rewrite joints_created_app, warnings_app, IH1, IH2.
  unfold root_log. now destruct (attach_to s0 e).
Qed.

Lemma expected_log_joints (spec : spec_t) :
  joints_created (expected_log s0 spec)
  = map (fun e => (name e, world_t s0 (guide_name_for_joint (name e))))
        (filter (fun e => built s0 (name e)) spec).
Proof.
  unfold expected_log.
  rewrite !joints_created_app, joints_created_entries.
  rewrite (proj1 (roots_quiet _)).
  destruct (taken s0 joints_grp);
    destruct (map name (filter (fun e => built s0 (name e)) spec));
    cbn; now rewrite List.app_nil_r.
Qed.

Lemma expected_log_warnings (spec : spec_t) :
  warnings (expected_log s0 spec) = flat_map (entry_warnings s0) spec.
Proof.
  unfold expected_log.
  rewrite !warnings_app, warnings_entries.
  rewrite (proj2 (roots_quiet _)).
  destruct (taken s0 joints_grp);
    destruct (map name (filter (fun e => built s0 (name e)) spec));
    cbn; now rewrite List.app_nil_r.
Qed.

End Projections.



End FkBuildTheorems.


(** ** The constraint chain of [broken_FK.py] *)
Module ChainFacts.
Import PyStr PyStrFacts Script ScriptFacts BrokenFK ChainScene.

Ltac run_step :=
  unfold same_conn;
  cbn [bind call Script.call exec handle item item_opt nth_error option_map
       log outcome final fresh attrs sel parent_of constraints keyable conns
       has_attr existsb a_node a_ln fst snd Datatypes.app orb andb].

(** The two plugs of a control are different plugs. *)
Lemma plug_neq (c : string) :
  String.eqb (c ^^ ".Follow_Rotate") (c ^^ ".Follow_Translate") = false.
Proof.
  apply String.eqb_neq. intros E. apply append_cancel_l in E. discriminate E.
Qed.

(** One pass of the loop body from a scene with nothing made yet: the
    three constraints are placed, the two attributes added and connected,
    and the last [connectAttr], which asks again for the connection just
    made, is refused. *)
Lemma first_pair_run (p c g n1 n2 n3 : string) (sels rest : list string)
      (parents : list (string * string)) :
  lookup c parents = Some g ->
  let L := mk_link p c g n1 n2 n3 in
  exec handle (link_pair p c) (start sels parents (n1 :: n2 :: n3 :: rest))
  = mk_run (link_log L)
      (HostError (ConnectAttr (c ^^ ".Follow_Rotate") (n2 ^^ ".w0") true))
      (mk_scene sels parents rest (link_constraints L) (link_attrs L)
                (link_keyable L) (link_conns L)).
Proof.
  intros Hg L. unfold link_pair, start.
  run_step. rewrite Hg. run_step. rewrite !String.eqb_refl. run_step.
  change (String.eqb "Follow_Translate" "Follow_Rotate") with false.
  run_step. run_step. rewrite !plug_neq. run_step. run_step.
  rewrite ?plug_neq, !String.eqb_refl. run_step. reflexivity.
Qed.

(** The whole script on a selection of two or more controls: only the
    first pair is visited. *)
Lemma first_pair_only (a b g n1 n2 n3 : string) (more rest : list string)
      (parents : list (string * string)) :
  lookup b parents = Some g ->
  let L := mk_link a b g n1 n2 n3 in
  exec handle broken_FK
       (start (a :: b :: more) parents (n1 :: n2 :: n3 :: rest))
  = mk_run (LsSel :: link_log L)
      (HostError (ConnectAttr (b ^^ ".Follow_Rotate") (n2 ^^ ".w0") true))
      (mk_scene (a :: b :: more) parents rest (link_constraints L)
                (link_attrs L) (link_keyable L) (link_conns L)).
Proof.
  intros Hg L. unfold broken_FK.
  cbn [bind call Script.call exec handle sel start].
  fold (start (a :: b :: more) parents (n1 :: n2 :: n3 :: rest)).
  change (List.length (a :: b :: more) - 1) with (S (List.length more)).
  cbn [seq for_each]. rewrite exec_bind.
  assert (E : exec handle (link (a :: b :: more) 0)
                   (start (a :: b :: more) parents (n1 :: n2 :: n3 :: rest))
              = exec handle (link_pair a b)
                   (start (a :: b :: more) parents (n1 :: n2 :: n3 :: rest))).
  { reflexivity. }
  rewrite E, (first_pair_run a b g n1 n2 n3 (a :: b :: more) rest parents Hg).
  reflexivity.
Qed.

(** A connection on the weight of a constraint named [n3] goes to the
    constraint named [n1] or [n2] only if the names coincide. *)
Lemma scale_not_in_link_conns (L : chain_link) (src : string) :
  l_sc L <> l_p1 L -> l_sc L <> l_p2 L ->
  ~ In (src, l_sc L ^^ ".w0") (link_conns L).
Proof.
  intros H1 H2 [Hin|[Hin|[]]]; injection Hin as _ Hin;
    apply append_cancel_r in Hin; congruence.
Qed.

(** C2 does not hold of the code.  From a scene with nothing made yet, on
    any selection of two or more controls whose second control has a parent
    group, the script places on that group a translate-only parent
    constraint, a rotate-only parent constraint and a scale constraint,
    adds the 0-to-1 attributes Follow_Translate and Follow_Rotate on the
    child control, and connects them to the weights of the two parent
    constraints.  Its third [connectAttr] then repeats the second instead
    of driving the scale constraint: the host refuses a connection that is
    already made, and the run stops there.  So the scale constraint, whose
    name is distinct from those of the two parent constraints, is gated by
    no attribute, and no pair after the first is linked: the commands sent
    are those of the first pair only, and the scene holds three
    constraints, two attributes and two connections. *)
Theorem broken_FK_stops_at_repeated_connection
        (a b : string) (more : list string)
        (parents : list (string * string))
        (g n1 n2 n3 : string) (rest : list string)
        (Hg : lookup b parents = Some g) :
  let r := exec handle broken_FK
             (start (a :: b :: more) parents (n1 :: n2 :: n3 :: rest)) in
  let L := mk_link a b g n1 n2 n3 in
  outcome r
  = HostError (ConnectAttr (b ^^ ".Follow_Rotate") (n2 ^^ ".w0") true)
  /\ log r = LsSel :: link_log L
  /\ constraints (final r) = link_constraints L
  /\ attrs (final r) = link_attrs L
  /\ keyable (final r) = link_keyable L
  /\ conns (final r) = link_conns L
  /\ fresh (final r) = rest
  /\ (n3 <> n1 -> n3 <> n2 ->
      ~ gated (final r) (mk_constraint n3 ScaleC a g [] [] 1 true)).
Proof.
  cbv zeta. rewrite (first_pair_only a b g n1 n2 n3 more rest parents Hg).
  cbn [outcome log final constraints attrs keyable conns fresh].
  repeat apply conj; try reflexivity.
  intros H1 H2 (x & _ & _ & _ & Hin). cbn [c_name] in Hin.
  now apply (scale_not_in_link_conns (mk_link a b g n1 n2 n3) _ H1 H2 Hin).
Qed.

Lemma broken_FK_stops_at_repeated_connection_witness :
  let r := exec handle broken_FK
             (start ["A_Ctrl"; "B_Ctrl"; "C_Ctrl"]
                    [("B_Ctrl", "B_Ctrl_Grp"); ("C_Ctrl", "C_Ctrl_Grp")]
                    ["n1"; "n2"; "n3"; "n4"; "n5"; "n6"]) in
  outcome r = HostError (ConnectAttr "B_Ctrl.Follow_Rotate" "n2.w0" true)
  /\ constraints (final r)
     = [mk_constraint "n1" ParentC "A_Ctrl" "B_Ctrl_Grp" xyz [] 1 true;
        mk_constraint "n2" ParentC "A_Ctrl" "B_Ctrl_Grp" [] xyz 1 true;
        mk_constraint "n3" ScaleC "A_Ctrl" "B_Ctrl_Grp" [] [] 1 true]
  /\ conns (final r)
     = [("B_Ctrl.Follow_Translate", "n1.w0");
        ("B_Ctrl.Follow_Rotate", "n2.w0")]
  /\ fresh (final r) = ["n4"; "n5"; "n6"]
  /\ ~ gated (final r)
         (mk_constraint "n3" ScaleC "A_Ctrl" "B_Ctrl_Grp" [] [] 1 true).
Proof.
  pose proof (broken_FK_stops_at_repeated_connection
                "A_Ctrl" "B_Ctrl" ["C_Ctrl"]
                [("B_Ctrl", "B_Ctrl_Grp"); ("C_Ctrl", "C_Ctrl_Grp")]
                "B_Ctrl_Grp" "n1" "n2" "n3" ["n4"; "n5"; "n6"] eq_refl) as H.
  cbv zeta in *. destruct H as (Ho & _ & Hcs & _ & _ & Hcn & Hf & Hg).
  split; [exact Ho|]. split; [exact Hcs|]. split; [exact Hcn|].
  split; [exact Hf|]. apply Hg; discriminate.
Defined.

End ChainFacts.

(** ** More on the generated spec *)
Module RigSpecMore.
Import PyStr PyStrFacts RigSpec RigSpecForms RigSpecFacts RigSpecExplicit.

Lemma py_range_cons (lo hi : Z) :
  (lo < hi)%Z -> py_range lo hi = lo :: py_range (lo + 1) hi.
Proof.
  intros H. unfold py_range.
  replace (Z.to_nat (hi - lo)) with (S (Z.to_nat (hi - (lo + 1)))) by lia.
  cbn [seq map]. f_equal; [lia|].
  rewrite <- seq_shift, map_map. apply map_ext. intros k. lia.
Qed.

Lemma py_range_nil (lo hi : Z) : (hi <= lo)%Z -> py_range lo hi = [].
Proof.
  intros H. unfold py_range.
  now replace (Z.to_nat (hi - lo)) with 0 by lia.
Qed.

Lemma py_range_length (lo hi : Z) :
  List.length (py_range lo hi) = Z.to_nat (hi - lo).
Proof. unfold py_range. now rewrite length_map, length_seq. Qed.

(** A chain over a range, entry by entry. *)
Lemma chain_range (mk : Z -> string -> entry) (nm : Z -> string) :
  (forall i p, name (mk i p) = nm i) ->
  forall (k : nat) (lo hi : Z) (prev : string),
    Z.to_nat (hi - lo) = k ->
    chain mk prev (py_range lo hi)
    = map (fun i => mk i (if (i =? lo)%Z then prev else nm (i - 1)%Z))
          (py_range lo hi).
Proof.
  intros Hn. induction k as [|k IH]; intros lo hi prev Hk.
  - rewrite py_range_nil by lia. reflexivity.
  - rewrite py_range_cons by lia. cbn [chain map].
    rewrite Z.eqb_refl. f_equal.
    rewrite Hn, (IH (lo + 1)%Z hi) by lia.
    apply map_ext_in. intros i Hi. apply py_range_spec in Hi.
    destruct (Z.eqb_spec i (lo + 1)) as [E|]; destruct (Z.eqb_spec i lo);
      try lia; try reflexivity.
    subst i. now replace (lo + 1 - 1)%Z with lo by lia.
Qed.

Lemma chain_last_range (mk : Z -> string -> entry) (nm : Z -> string) :
  (forall i p, name (mk i p) = nm i) ->
  forall (k : nat) (lo hi : Z) (prev : string),
    Z.to_nat (hi - lo) = k ->
    chain_last mk prev (py_range lo hi)
    = if (lo <? hi)%Z then nm (hi - 1)%Z else prev.
Proof.
  intros Hn. induction k as [|k IH]; intros lo hi prev Hk.
  - rewrite py_range_nil by lia. destruct (Z.ltb_spec lo hi); [lia|reflexivity].
  - rewrite py_range_cons by lia. cbn [chain_last].
    rewrite Hn, (IH (lo + 1)%Z hi) by lia.
    destruct (Z.ltb_spec lo hi); [|lia].
    destruct (Z.ltb_spec (lo + 1) hi); [reflexivity|].
    f_equal. lia.
Qed.

Lemma explicit_generated (sc nc fc segs : Z) :
  build_base_spec sc nc ++ fingers fc segs = explicit_spec sc nc fc segs.
Proof.
  rewrite build_base_spec_closed. unfold fingers, explicit_spec.
  rewrite (chain_range spine_entry spine_name) with (k := Z.to_nat (sc + 1 - 1))
    by reflexivity.
  rewrite (chain_range neck_entry neck_name) with (k := Z.to_nat (nc + 1 - 1))
    by reflexivity.
  rewrite (chain_last_range spine_entry spine_name)
    with (k := Z.to_nat (sc + 1 - 1)) by reflexivity.
  rewrite (chain_last_range neck_entry neck_name)
    with (k := Z.to_nat (nc + 1 - 1)) by reflexivity.
  unfold chest_parent_of, head_parent_of, cog_entry.
  replace (sc + 1 - 1)%Z with sc by lia.
  replace (nc + 1 - 1)%Z with nc by lia.
  replace (1 <? sc + 1)%Z with (1 <=? sc)%Z by
    (destruct (Z.leb_spec 1 sc), (Z.ltb_spec 1 (sc + 1)); lia || reflexivity).
  replace (1 <? nc + 1)%Z with (1 <=? nc)%Z by
    (destruct (Z.leb_spec 1 nc), (Z.ltb_spec 1 (nc + 1)); lia || reflexivity).
  rewrite <- !List.app_assoc. cbn [Datatypes.app].
  do 2 f_equal. f_equal. f_equal. f_equal. f_equal.
  repeat (apply f_equal2; [reflexivity|]).
  apply flat_map_ext. intros f.
  now rewrite (chain_range (finger_entry f) (finger_name f))
    with (k := Z.to_nat (segs + 1 - 1)) by reflexivity.
Qed.


Lemma spec_explicit (sc nc fc segs : Z) :
  w_spec (rebuild_spec sc nc fc segs) = explicit_spec sc nc fc segs.
Proof. rewrite rebuild_spec_closed. apply explicit_generated. Qed.

(** X1. The spec [rebuild_spec] stores, for all counts, without its loops:
    COG and the pelvis, the spine joints 1..spine_count each under the one
    numbered one less (the first under the pelvis), the chest under the last
    spine joint (under the pelvis when there is none), the neck joints
    likewise from the chest, the head under the last neck joint (under the
    chest when there is none), the left arm under the chest, the left leg
    under the pelvis, and for each finger its segments, the first under the
    hand. *)
Theorem rebuild_spec_explicit (sc nc fc segs : Z) :
  w_spec (rebuild_spec sc nc fc segs) = explicit_spec sc nc fc segs.
Proof. apply spec_explicit. Qed.

Lemma fingers_length (l : list Z) (g : Z -> Z -> entry) (segs : Z) :
  List.length (flat_map (fun f => map (g f) (py_range 1 (segs + 1))) l)
  = List.length l * Z.to_nat segs.
Proof.
  induction l as [|f l IH]; [reflexivity|].
  cbn [flat_map]. rewrite length_app, IH, length_map, py_range_length.
  cbn [List.length]. lia.
Qed.

Lemma steps_are_spec (sc nc fc segs : Z) :
  w_steps (rebuild_spec sc nc fc segs) = w_spec (rebuild_spec sc nc fc segs).
Proof.
  unfold rebuild_spec at 1. cbn [w_steps].
  fold (w_spec (rebuild_spec sc nc fc segs)).
  apply forallb_filter_id. apply forallb_forall. intros e He.
  rewrite rebuild_spec_closed in He.
  destruct (entries_ok sc nc fc segs e He) as [[H|H] _];
    unfold side_in_CL; rewrite H; reflexivity.
Qed.

Lemma spec_length (sc nc fc segs : Z) :
  List.length (w_spec (rebuild_spec sc nc fc segs))
  = 16 + Z.to_nat sc + Z.to_nat nc + Z.to_nat fc * Z.to_nat segs.
Proof.
  rewrite spec_explicit. unfold explicit_spec.
  rewrite !length_app, !length_map, fingers_length, !py_range_length.
  cbn [List.length left_arm left_leg]. lia.
Qed.

(** X2. The number of entries of the stored spec is
    16 + spine_count + neck_count + finger_count * finger_segments, a count
    below zero counting as zero; the wizard has as many steps, so at least
    16, and the step index 0 it starts from is a valid index. *)
Theorem rebuild_spec_size (sc nc fc segs : Z) :
  let w := rebuild_spec sc nc fc segs in
  List.length (w_spec w)
  = 16 + Z.to_nat sc + Z.to_nat nc + Z.to_nat fc * Z.to_nat segs
  /\ List.length (w_steps w) = List.length (w_spec w)
  /\ (0 <= w_step_index w < Z.of_nat (List.length (w_steps w)))%Z.
Proof.
  cbv zeta.
  rewrite steps_are_spec, spec_length. cbn [w_step_index rebuild_spec]. lia.
Qed.

(** X3. The stored spec has one root and one optional entry: COG comes
    first and is the only entry without a parent, and the toe tip L_FOOT3 is
    the only entry that is not required. *)
Theorem single_root_single_optional (sc nc fc segs : Z) :
  let spec := w_spec (rebuild_spec sc nc fc segs) in
  hd_error spec = Some cog_entry
  /\ (forall e, In e spec -> (parent e = None <-> e = cog_entry))
  /\ (forall e, In e spec -> (required e = false <-> e = foot3_entry)).
Proof.
  cbv zeta. rewrite spec_explicit. unfold explicit_spec.
  split; [reflexivity|].
  split; intros e He; unfold left_arm, left_leg in He; break_in; subst;
    (split; intros K; try discriminate K; try reflexivity).
Qed.


(** *** Keys *)

Lemma str_of_int_nonneg (z : Z) :
  (0 <= z)%Z -> str_of_int z = str_of_N (Z.to_N z).
Proof.
  intros Hz. unfold str_of_int.
  destruct (Z.ltb_spec z 0); [lia | reflexivity].
Qed.

Lemma str_of_int_digits (z : Z) :
  (0 <= z)%Z -> all_digits (str_of_int z) = true.
Proof. intros Hz. rewrite str_of_int_nonneg by lia. apply str_of_N_digits. Qed.

Lemma str_of_int_inj (a b : Z) :
  (0 <= a)%Z -> (0 <= b)%Z -> str_of_int a = str_of_int b -> a = b.
Proof.
  intros Ha Hb H. rewrite !str_of_int_nonneg in H by lia.
  apply (f_equal parse_N) in H. rewrite !parse_str_of_N in H.
  injection H as H. now apply Z2N.inj.
Qed.

(** A digit string followed by [c] does not begin with a character that is
    neither a digit nor [c]. *)
Lemma digits_head (d r t : string) (c x : ascii) :
  all_digits d = true -> is_digit x = false -> x <> c ->
  d ^^ String c r <> String x t.
Proof.
  intros Hd Hx Hxc H. destruct d as [|y d]; simpl in H.
  - injection H as H _. congruence.
  - injection H as H _. subst y. simpl in Hd.
    apply andb_true_iff in Hd. destruct Hd as [Hd _]. congruence.
Qed.

Lemma keys_explicit (sc nc fc segs : Z) :
  map key (explicit_spec sc nc fc segs)
  = ["COG"; "PELV"] ++ map spine_key (py_range 1 (sc + 1))
    ++ ["CHEST"] ++ map neck_key (py_range 1 (nc + 1))
    ++ ["HEAD"; "L_CLAV"; "L_ARM1"; "L_ARM2"; "L_ARM3"; "L_HAND";
        "L_LEGCLAV"; "L_LEG1"; "L_LEG2"; "L_LEG3"; "L_FOOT1"; "L_FOOT2";
        "L_FOOT3"]
    ++ flat_map (fun f => map (finger_key f) (py_range 1 (segs + 1)))
                (py_range 1 (fc + 1)).
Proof.
  unfold explicit_spec, left_arm, left_leg.
  rewrite !map_app, !map_map. cbn [map key cog_entry Datatypes.app].
  do 2 f_equal. apply f_equal2; [reflexivity|].
  f_equal. apply f_equal2; [reflexivity|].
  repeat (apply f_equal2; [reflexivity|]).
  induction (py_range 1 (fc + 1)) as [|f fs IH]; [reflexivity|].
  cbn [flat_map]. now rewrite map_app, map_map, IH.
Qed.

Lemma finger_key_inj (f s f' s' : Z) :
  (0 <= f)%Z -> (0 <= s)%Z -> (0 <= f')%Z -> (0 <= s')%Z ->
  finger_key f s = finger_key f' s' -> f = f' /\ s = s'.
Proof.
  unfold finger_key. intros Hf Hs Hf' Hs' H.
  apply append_cancel_l in H.
  apply (digits_split "_" (str_of_int f) (str_of_int f')
           (str_of_int s) (str_of_int s')) in H;
    [|reflexivity | now apply str_of_int_digits | now apply str_of_int_digits].
  destruct H as [H1 H2]. split; now apply str_of_int_inj.
Qed.

Lemma finger_key_not_foot (f s : Z) (t : string) :
  (0 <= f)%Z -> finger_key f s <> "L_F" ^^ String "O" t.
Proof.
  intros Hf H. unfold finger_key in H. apply append_cancel_l in H.
  revert H. apply digits_head; [now apply str_of_int_digits | reflexivity|].
  discriminate.
Qed.

Ltac keys_differ :=
  subst;
  repeat match goal with
    | H : In _ (py_range _ _) |- _ => apply py_range_spec in H
    end;
  try match goal with
    | H : finger_key ?f ?s = _ |- _ =>
        first [ discriminate H
              | exfalso; revert H; apply finger_key_not_foot; lia ]
    | H : _ = finger_key ?f ?s |- _ =>
        first [ discriminate H
              | exfalso; symmetry in H; revert H;
                apply finger_key_not_foot; lia ]
    end;
  try discriminate.

(** X4. The keys of the stored spec are pairwise distinct, for all counts:
    no two entries share a key. *)
Theorem keys_are_unique (sc nc fc segs : Z) :
  keys_unique (w_spec (rebuild_spec sc nc fc segs)).
Proof.
  unfold keys_unique. rewrite spec_explicit, keys_explicit.
  assert (Hsp : NoDup (map spine_key (py_range 1 (sc + 1)))).
  { apply NoDup_map_on; [|apply py_range_NoDup].
    intros x y Hx%py_range_spec Hy%py_range_spec H.
    apply append_cancel_l in H. apply str_of_int_inj; lia || assumption. }
  assert (Hnk : NoDup (map neck_key (py_range 1 (nc + 1)))).
  { apply NoDup_map_on; [|apply py_range_NoDup].
    intros x y Hx%py_range_spec Hy%py_range_spec H.
    apply append_cancel_l in H. apply str_of_int_inj; lia || assumption. }
  assert (Hfg : NoDup (flat_map (fun f => map (finger_key f)
                                             (py_range 1 (segs + 1)))
                                (py_range 1 (fc + 1)))).
  { apply NoDup_flat_map_on; try apply py_range_NoDup.
    intros f s f' s' Hf%py_range_spec Hf'%py_range_spec
           Hs%py_range_spec Hs'%py_range_spec.
    apply finger_key_inj; lia. }
  repeat apply NoDup_app; trivial;
    try (repeat (constructor; [simpl; intuition discriminate|]); constructor);
    try (intros a Ha Hb; break_in; keys_differ).
Qed.


(** *** [swap_LR] and guide names on arbitrary strings *)

Lemma swap_LR_twice (n : string) : swap_LR (swap_LR n) = n.
Proof.
  unfold swap_LR at 2.
  destruct (startswith n "L_") eqn:HL.
  - apply startswith_2 in HL. rewrite HL at 2.
    generalize (drop 2 n). intros [|c rest]; reflexivity.
  - destruct (startswith n "R_") eqn:HR.
    + apply startswith_2 in HR. rewrite HR at 2.
      generalize (drop 2 n). intros [|c rest]; reflexivity.
    + unfold swap_LR. now rewrite HL, HR.
Qed.

Lemma swap_LR_inj (a b : string) : swap_LR a = swap_LR b -> a = b.
Proof.
  intros H. rewrite <- (swap_LR_twice a), <- (swap_LR_twice b).
  now rewrite H.
Qed.

(** X5. [swap_LR] undoes itself on every string, prefixed or not; so it is
    injective: two different names never swap to the same name. *)
Theorem swap_LR_total_involution :
  (forall n, swap_LR (swap_LR n) = n)
  /\ (forall a b, swap_LR a = swap_LR b -> a = b).
Proof. split; [exact swap_LR_twice | exact swap_LR_inj]. Qed.

Lemma guide_one_replace (n : string) :
  guide_name_for_joint n = replace n "_Jnt" "_Guide".
Proof. unfold guide_name_for_joint. now apply replace_same. Qed.

(** X6. The second replacement in [guide_name_for_joint], of "_FK_" by
    itself, changes nothing: for every string the guide name is the joint
    name with each "_Jnt" replaced by "_Guide". *)
Theorem guide_name_is_one_replace (joint_name : string) :
  guide_name_for_joint joint_name = replace joint_name "_Jnt" "_Guide".
Proof. apply guide_one_replace. Qed.

Lemma prefix_neq (x y : ascii) (p s : string) :
  x <> y -> String.prefix (String x p) (String y s) = false.
Proof.
  intros H. cbn [String.prefix].
  destruct (ascii_dec x y); [contradiction | reflexivity].
Qed.

Lemma prefix_eq (x : ascii) (p s : string) :
  String.prefix (String x p) (String x s) = String.prefix p s.
Proof.
  cbn [String.prefix]. destruct (ascii_dec x x); [reflexivity | contradiction].
Qed.

(** Where no replacement starts at the first character, it is copied. *)
Lemma replace_from_head (old new : string) (c : ascii) (s : string) :
  String.prefix old (String c s) = false ->
  replace_from old new None 0 (String c s)
  = String c (replace_from old new None 0 s).
Proof. intros H. cbn [replace_from]. now rewrite H. Qed.

(** The result of replacing "_Jnt" in a string that begins with "_" begins
    with "_" as well. *)
Lemma replace_Jnt_underscore (rest : string) :
  exists y, replace_from "_Jnt" "_Guide" None 0 (String "_" rest)
            = String "_" y.
Proof.
  cbn [replace_from].
  destruct (String.prefix "_Jnt" (String "_" rest));
    eexists; cbn [append]; reflexivity.
Qed.

Lemma guide_of_prefixed (rest : string) :
  exists y,
    forall b : ascii, b <> "_"%char ->
      replace (String b (String "_" rest)) "_Jnt" "_Guide"
      = String b (String "_" y).
Proof.
  destruct (replace_Jnt_underscore rest) as (y & Hy).
  exists y. intros b Hb. unfold replace, replace_count.
  rewrite replace_from_head, Hy; [reflexivity|].
  apply prefix_neq. congruence.
Qed.

(** A string without the prefix [p_] keeps being without it when its
    "_Jnt" are replaced. *)
Lemma guide_keeps_unprefixed (p : ascii) (n : string) :
  p <> "_"%char ->
  startswith n (String p "_") = false ->
  startswith (replace n "_Jnt" "_Guide") (String p "_") = false.
Proof.
  intros Hp Hn. unfold replace, replace_count, startswith in *.
  destruct n as [|c n']; [reflexivity|].
  destruct (String.prefix "_Jnt" (String c n')) eqn:E.
  - cbn [replace_from]. rewrite E. cbn [append]. now apply prefix_neq.
  - rewrite replace_from_head by exact E.
    destruct (ascii_dec p c) as [<-|Hpc]; [|now apply prefix_neq].
    rewrite prefix_eq in *.
    destruct n' as [|d rest]; [reflexivity|].
    destruct (ascii_dec "_" d) as [<-|Hd].
    + rewrite prefix_eq in Hn. destruct rest; discriminate Hn.
    + rewrite replace_from_head by now apply prefix_neq.
      now apply prefix_neq.
Qed.

Lemma guide_swap (n : string) :
  guide_name_for_joint (swap_LR n) = swap_LR (guide_name_for_joint n).
Proof.
  rewrite !guide_one_replace.
  unfold swap_LR at 1.
  destruct (startswith n "L_") eqn:HL.
  - apply startswith_2 in HL. rewrite HL.
    generalize (drop 2 n). intros rest. cbn [append drop].
    destruct (guide_of_prefixed rest) as (y & Hy).
    rewrite (Hy "L"%char), (Hy "R"%char) by discriminate.
    destruct y; reflexivity.
  - destruct (startswith n "R_") eqn:HR.
    + apply startswith_2 in HR. rewrite HR.
      generalize (drop 2 n). intros rest. cbn [append drop].
      destruct (guide_of_prefixed rest) as (y & Hy).
      rewrite (Hy "L"%char), (Hy "R"%char) by discriminate.
      destruct y; reflexivity.
    + unfold swap_LR.
      rewrite (guide_keeps_unprefixed "L"), (guide_keeps_unprefixed "R")
        by (discriminate || assumption).
      reflexivity.
Qed.

(** A string with the prefix [p_] keeps it when its "_Jnt" are replaced. *)
Lemma guide_keeps_prefix (p : ascii) (n : string) :
  p <> "_"%char ->
  startswith n (String p "_") = true ->
  startswith (guide_name_for_joint n) (String p "_") = true.
Proof.
  intros Hp Hn. apply startswith_2 in Hn. rewrite Hn, guide_one_replace.
  destruct (guide_of_prefixed (drop 2 n)) as (y & Hy).
  rewrite (Hy p Hp). unfold startswith. rewrite !prefix_eq.
  destruct y; reflexivity.
Qed.

(** X7. Taking the guide name commutes with [swap_LR] on every string: the
    guide name of the mirrored joint name is the mirrored guide name.  So
    the right guide that the mirror pass writes for a left joint is the one
    [swap_LR] gives for its left guide. *)
Theorem guide_name_commutes_with_swap (n : string) :
  guide_name_for_joint (swap_LR n) = swap_LR (guide_name_for_joint n).
Proof. apply guide_swap. Qed.

End RigSpecMore.

(** ** More on [build_fk_joints] *)
Module FkBuildMore.
Import PyStr PyStrFacts RigSpec RigSpecForms RigSpecFacts Script ScriptFacts
       AutoRig FlatScene FlatSceneFacts FkBuildFacts FkBuildTheorems
       AutoRigForms.

Lemma log_for_fold_Forall {C : Type} {A : C -> Type} {S X St : Type}
      (h : handler C A S) (P : C -> Prop)
      (xs : list X) (body : St -> X -> prog C A St) :
  (forall st x s, In x xs -> Forall P (log (exec h (body st x) s))) ->
  forall st s, Forall P (log (exec h (for_fold xs st body) s)).
Proof.
  induction xs as [|x xs IH]; intros Hb st s; simpl.
  - constructor.
  - apply log_bind_Forall.
    + apply Hb. now left.
    + intros st' s'. apply IH. intros st'' y s'' Hy. apply Hb. now right.
Qed.

Lemma build_log_within (S : Type) (h : handler cmd ans S) (spec : spec_t)
      (s : S) :
  Forall (builds_within spec) (log (exec h (build_fk_joints spec) s)).
Proof.
  unfold build_fk_joints.
  apply log_bind_Forall.
  { unfold ensure_group.
    apply log_bind_Forall; [now apply log_call_Forall|]. intros e s1.
    destruct e; cbn [negb]; [constructor | now apply log_call_Forall]. }
  intros _ s1. apply log_bind_Forall.
  { apply log_for_fold_Forall. intros created e s2 He.
    unfold build_entry.
    apply log_bind_Forall; [now apply log_call_Forall|]. intros ge s3.
    destruct ge; cbn [negb].
    - apply log_bind_Forall; [now apply log_call_Forall|]. intros je s4.
      destruct je.
      + apply log_bind_Forall; [now apply log_call_Forall|]. intros _ s5.
        constructor.
      + apply log_bind_Forall; [now apply log_call_Forall|]. intros pos s5.
        apply log_bind_Forall; [now apply log_call_Forall|]. intros _ s6.
        apply log_bind_Forall.
        { apply log_call_Forall. cbn. now apply in_map. }
        intros jnt s7.
        destruct (parent e) as [[|c p]|]; try constructor.
        apply log_bind_Forall; [now apply log_call_Forall|]. intros pe s8.
        destruct pe; [|constructor].
        apply log_bind_Forall; [now apply log_call_Forall|]. intros _ s9.
        constructor.
    - destruct (required e); [|constructor].
      apply log_bind_Forall; [now apply log_call_Forall|]. intros _ s4.
      constructor. }
  intros created s2. apply log_bind_Forall.
  { apply log_for_each_Forall. intros j s3 _. unfold group_root.
    apply log_bind_Forall; [now apply log_call_Forall|]. intros rel s4.
    destruct (negb (nonempty rel)); [|constructor].
    apply log_bind_Forall; [now apply log_call_Forall|]. intros _ s5.
    constructor. }
  intros _ s3. apply log_bind_Forall.
  { destruct created as [|c cs].
    - apply (log_call_Forall h _ SelectClear). exact I.
    - apply (log_call_Forall h _ (SelectReplace (c :: cs))). exact I. }
  intros _ s4. now apply log_call_Forall.
Qed.

(** X8. Under any host and from any state, [build_fk_joints] creates no
    node but joints named by the spec and the joints group, and no locator.
    For a generated spec no joint it creates has a name that starts with
    "R_": the right-side guides of the mirror pass are never built into
    joints. *)
Theorem build_fk_joints_never_builds_right
        (S : Type) (h : handler cmd ans S) (s : S) (sc nc fc segs : Z) :
  let spec := w_spec (rebuild_spec sc nc fc segs) in
  let r := exec h (build_fk_joints spec) s in
  Forall (builds_within spec) (log r)
  /\ (forall n p, In (Joint n p) (log r) -> startswith n "R_" = false).
Proof.
  cbv zeta.
  pose proof (build_log_within S h (w_spec (rebuild_spec sc nc fc segs)) s)
    as Hlog.
  split; [exact Hlog|].
  intros n p Hin.
  rewrite Forall_forall in Hlog. apply Hlog in Hin. cbn [builds_within] in Hin.
  apply in_map_iff in Hin. destruct Hin as (e & <- & He).
  rewrite rebuild_spec_closed in He.
  apply (entries_ok sc nc fc segs e He).
Qed.


(** *** A second build, and a build from a full set of guides *)

Lemma filter_none {X : Type} (f : X -> bool) (l : list X) :
  (forall x, In x l -> f x = false) -> filter f l = [].
Proof.
  induction l as [|x l IH]; intros H; [reflexivity|].
  cbn [filter]. rewrite (H x) by now left.
  apply IH. intros y Hy. apply H. now right.
Qed.

Lemma flat_map_ext_in {X Y : Type} (f g : X -> list Y) (l : list X) :
  (forall x, In x l -> f x = g x) -> flat_map f l = flat_map g l.
Proof.
  induction l as [|x l IH]; intros H; [reflexivity|].
  cbn [flat_map]. rewrite (H x) by now left.
  f_equal. apply IH. intros y Hy. apply H. now right.
Qed.

Lemma flat_map_nil {X Y : Type} (f : X -> list Y) (l : list X) :
  (forall x, In x l -> f x = []) -> flat_map f l = [].
Proof.
  induction l as [|x l IH]; intros H; [reflexivity|].
  cbn [flat_map]. rewrite (H x) by now left.
  apply IH. intros y Hy. apply H. now right.
Qed.

Section AfterBuild.
Variable s0 : scene.
Variable spec : spec_t.
Hypothesis Hh : hygienic spec.
Variable s1 : scene.
Variable grouped : list string.
Hypothesis Hag : agrees s1 (lookup_after s0 grouped spec).

Lemma placed_after (e : entry) :
  In e spec -> placed s1 (name e) = placed s0 (name e).
Proof.
  intros He. destruct Hh as (_ & _ & Hgn & Hgrp). unfold placed.
  apply (agrees_fresh s0 s1 grouped spec); [exact Hag | apply (Hgrp e He) |].
  intros Hin. apply in_map_iff in Hin. destruct Hin as (e' & Hn & He').
  now apply (Hgn e e' He He').
Qed.

Lemma taken_after (e : entry) :
  In e spec -> taken s1 (name e) = taken s0 (name e) || placed s0 (name e).
Proof.
  intros He. destruct Hh as (_ & _ & _ & Hgrp). unfold taken at 1.
  rewrite (agrees_exists s1 _ (name e) Hag).
  apply lookup_parent; [now apply in_map | apply (Hgrp e He)].
Qed.

Lemma built_after (e : entry) : In e spec -> built s1 (name e) = false.
Proof.
  intros He. unfold built.
  rewrite (placed_after e He), (taken_after e He).
  destruct (placed s0 (name e)), (taken s0 (name e)); reflexivity.
Qed.

Lemma group_after : find_node s1 joints_grp <> None.
Proof. rewrite Hag. apply lookup_grp. Qed.

End AfterBuild.

(** X9. A second [build_fk_joints] right after a first one, on the same
    generated spec, runs to its end, creates no joint and leaves every node
    as the first build left it; it warns "Joint already exists" for every
    entry whose guide is placed, and "Missing guide" for the required
    entries whose guide is not. *)
Theorem build_fk_joints_second_run (sc nc fc segs : Z) (s0 : scene) :
  let spec := w_spec (rebuild_spec sc nc fc segs) in
  let r1 := exec handle (build_fk_joints spec) s0 in
  let r2 := exec handle (build_fk_joints spec) (final r1) in
  outcome r2 = Done tt
  /\ joints_created (log r2) = []
  /\ (forall n, find_node (final r2) n = find_node (final r1) n)
  /\ warnings (log r2) = flat_map (rerun_warnings s0) spec.
Proof.
  cbv zeta.
  pose proof (generated_hygienic sc nc fc segs) as Hh.
  set (spec := w_spec (rebuild_spec sc nc fc segs)) in *.
  destruct (build_fk_joints_run s0 spec Hh) as (s1 & Hrun1 & Hag1).
  rewrite Hrun1. cbn [final].
  destruct (build_fk_joints_run s1 spec Hh) as (s2 & Hrun2 & Hag2).
  rewrite Hrun2. cbn [log outcome final].
  assert (Hb : forall e, In e spec -> built s1 (name e) = false).
  { intros e He. exact (built_after s0 spec Hh s1 _ Hag1 e He). }
  repeat apply conj.
  - reflexivity.
  - rewrite expected_log_joints, filter_none by exact Hb. reflexivity.
  - intros n. rewrite Hag2. unfold lookup_after.
    destruct (find_node s1 n) eqn:Hn; [reflexivity|].
    destruct (String.eqb_spec n joints_grp) as [->|Hne].
    + exfalso. now apply (group_after s0 spec s1 _ Hag1).
    + destruct (find _ spec) as [e|] eqn:Hf; [|reflexivity].
      apply find_named in Hf. destruct Hf as [<- He].
      now rewrite (Hb e He).
  - rewrite expected_log_warnings. apply flat_map_ext_in. intros e He.
    unfold entry_warnings, rerun_warnings.
    rewrite (placed_after s0 spec Hh s1 _ Hag1 e He),
            (taken_after s0 spec Hh s1 _ Hag1 e He).
    destruct (placed s0 (name e)), (taken s0 (name e)); reflexivity.
Qed.

Lemma generated_name_nonempty (n : string) : generated_name n -> n <> "".
Proof.
  intros H. destruct (generated_stem n H) as (stem & -> & _).
  destruct stem; discriminate.
Qed.

(** X10. When every entry of a generated spec has its guide placed and no
    joint name is in use, [build_fk_joints] builds the whole spec without a
    warning: one joint per entry, in the order of the spec, each at the
    position of its guide and under the parent its entry names, the root
    under the joints group. *)
Theorem build_fk_joints_full_guides (sc nc fc segs : Z) (s0 : scene) :
  let spec := w_spec (rebuild_spec sc nc fc segs) in
  let r := exec handle (build_fk_joints spec) s0 in
  forallb (fun e => built s0 (name e)) spec = true ->
  outcome r = Done tt
  /\ warnings (log r) = []
  /\ joints_created (log r)
     = map (fun e => (name e, world_t s0 (guide_name_for_joint (name e)))) spec
  /\ (forall e, In e spec ->
        find_node (final r) (name e)
        = Some (joint_node s0 e (Some (spec_parent e)))).
Proof.
  cbv zeta. intros Hall.
  pose proof (generated_hygienic sc nc fc segs) as Hh.
  pose proof (names_generated sc nc fc segs) as Hgen.
  rewrite <- rebuild_spec_closed in Hgen.
  set (spec := w_spec (rebuild_spec sc nc fc segs)) in *.
  pose proof Hh as (Hnd & Hpp & _ & Hgrp).
  destruct (build_fk_joints_run s0 spec Hh) as (s1 & Hrun & Hag).
  rewrite Hrun. cbn [log outcome final].
  assert (Hb : forall e, In e spec -> built s0 (name e) = true).
  { now apply forallb_forall. }
  assert (Hf : filter (fun e => built s0 (name e)) spec = spec).
  { now apply forallb_filter_id. }
  repeat apply conj.
  - reflexivity.
  - rewrite expected_log_warnings. apply flat_map_nil. intros e He.
    unfold entry_warnings. pose proof (Hb e He) as H. unfold built in H.
    apply andb_true_iff in H. destruct H as [-> H].
    apply negb_true_iff in H. now rewrite H.
  - now rewrite expected_log_joints, Hf.
  - intros e He. rewrite Hag, Hf.
    rewrite (lookup_built s0 spec _ e Hnd He (proj1 (Hgrp e He)) (Hb e He)).
    assert (Hin : existsb (String.eqb (name e)) (map name spec) = true).
    { apply existsb_exists. exists (name e).
      split; [now apply in_map | apply String.eqb_refl]. }
    rewrite Hin. do 3 f_equal.
    unfold final_parent, attach_to, spec_parent.
    destruct (parent e) as [p|] eqn:Hp; [|reflexivity].
    destruct (in_split e spec He) as (pre & post & Hsplit).
    destruct (Hpp pre e post Hsplit) as [Hnone|(e' & He' & Hpar)];
      [congruence|].
    assert (He'' : In e' spec).
    { rewrite Hsplit. apply in_or_app. now left. }
    rewrite Hp in Hpar. injection Hpar as ->.
    pose proof (generated_name_nonempty (name e')
                  (Hgen _ (in_map name _ _ He''))) as Hne.
    destruct (name e') as [|c p'] eqn:Hn; [contradiction|].
    pose proof (Hb e' He'') as H. rewrite Hn in H. unfold built in H.
    apply andb_true_iff in H. destruct H as [-> _].
    now rewrite orb_true_r.
Qed.

Lemma build_fk_joints_full_guides_witness :
  let spec := w_spec (rebuild_spec 1 1 0 1) in
  let s0 := locators (map (fun e => (guide_name_for_joint (name e),
                                     [1; 2; 3]%float)) spec) in
  let r := exec handle (build_fk_joints spec) s0 in
  forallb (fun e => built s0 (name e)) spec = true
  /\ warnings (log r) = []
  /\ List.length (joints_created (log r)) = 18.
Proof.
  cbv zeta. split; [vm_compute; reflexivity|].
  destruct (build_fk_joints_full_guides 1 1 0 1
              (locators (map (fun e => (guide_name_for_joint (name e),
                                        [1; 2; 3]%float))
                             (w_spec (rebuild_spec 1 1 0 1)))))
    as (_ & Hw & Hj & _); [vm_compute; reflexivity|].
  split; [exact Hw|]. rewrite Hj. reflexivity.
Defined.

End FkBuildMore.

(** ** More on [broken_FK.py] *)
Module ChainMore.
Import PyStr PyStrFacts Script ScriptFacts BrokenFK ChainScene ChainFacts.

(** X11. With fewer than two nodes selected the script asks the host for
    the selection and does nothing else, under any host: no relative is
    queried, nothing is constrained, and the run ends normally. *)
Theorem broken_FK_short_selection
        (S : Type) (h : handler cmd ans S) (s s' : S) (sels : list string)
        (Hsel : h LsSel s = Some (sels, s'))
        (Hlen : List.length sels <= 1) :
  exec h broken_FK s = mk_run [LsSel] (Done tt) s'.
Proof.
  unfold broken_FK. cbn [bind call Script.call exec]. rewrite Hsel.
  destruct sels as [|a [|b rest]]; [reflexivity | reflexivity|].
  simpl in Hlen. lia.
Qed.

Lemma broken_FK_short_selection_witness :
  exec handle broken_FK (start ["A_Ctrl"] [] [])
  = mk_run [LsSel] (Done tt) (start ["A_Ctrl"] [] []).
Proof.
  apply (broken_FK_short_selection scene handle
           (start ["A_Ctrl"] [] []) (start ["A_Ctrl"] [] []) ["A_Ctrl"]).
  - reflexivity.
  - simpl. lia.
Defined.

(** *** Runs that stop part-way *)

(** X12. Under any host, when the second selected control has no parent
    ([listRelatives] answers [None]) the script stops with a TypeError as
    it subscripts the answer: it has asked for the selection and for that
    parent and nothing else, so no constraint is placed and no attribute
    added, whatever the rest of the selection is. *)
Theorem broken_FK_parentless_child
        (S : Type) (h : handler cmd ans S) (s s1 s2 : S)
        (a b : string) (more : list string)
        (Hsel : h LsSel s = Some (a :: b :: more, s1))
        (Hrel : h (ListRelativesParent b) s1 = Some (None, s2)) :
  exec h broken_FK s
  = mk_run [LsSel; ListRelativesParent b] (PyError "TypeError") s2.
Proof.
  unfold broken_FK. cbn [bind call Script.call exec]. rewrite Hsel.
  change (List.length (a :: b :: more) - 1) with (Datatypes.S (List.length more)).
  cbn [seq for_each]. rewrite exec_bind.
  assert (E : exec h (link (a :: b :: more) 0) s1
              = mk_run [ListRelativesParent b] (PyError "TypeError") s2).
  { unfold link, link_pair.
    cbn [bind call Script.call exec item nth_error Nat.add].
    rewrite Hrel. reflexivity. }
  rewrite E. reflexivity.
Qed.

Lemma broken_FK_parentless_child_witness :
  let s := start ["A_Ctrl"; "B_Ctrl"; "C_Ctrl"] [("C_Ctrl", "C_Ctrl_Grp")]
                 ["n1"; "n2"; "n3"] in
  exec handle broken_FK s
  = mk_run [LsSel; ListRelativesParent "B_Ctrl"] (PyError "TypeError") s.
Proof.
  cbv zeta.
  set (s := start ["A_Ctrl"; "B_Ctrl"; "C_Ctrl"] [("C_Ctrl", "C_Ctrl_Grp")]
                  ["n1"; "n2"; "n3"]).
  apply (broken_FK_parentless_child scene handle s s s
           "A_Ctrl" "B_Ctrl" ["C_Ctrl"]).
  - reflexivity.
  - reflexivity.
Defined.



(** *** The repeated connection, under any host *)








End ChainMore.

(** ** The mirror pass on the flat scene *)
Module MirrorFacts.
Import PyStr PyStrFacts RigSpec RigSpecForms RigSpecFacts Script ScriptFacts
       AutoRig FlatScene FlatSceneFacts FkBuildFacts RigSpecMore MirrorScene.

Lemma agrees_ext (s : scene) (f g : string -> option node) :
  agrees s f -> (forall n, f n = g n) -> agrees s g.
Proof. intros H E n. now rewrite H. Qed.

(** A new locator for a guide. *)
Lemma run_make_locator (s : scene) (f : string -> option node) (g : string) :
  agrees s f -> f g = None -> f guides_grp <> None -> g <> guides_grp ->
  exists lg s',
    exec handle (make_locator g) s = mk_run lg (Done g) s'
    /\ agrees s' (fun n => if String.eqb g n
                           then Some (mk_node g Locator (Some guides_grp)
                                              zero3 zero3)
                           else f n).
Proof.
  intros Hag Hg Hgrp Hne.
  assert (E1 : node_exists s g = false).
  { now rewrite (agrees_exists s f g Hag), Hg. }
  unfold make_locator.
  cbn [bind call Script.call exec handle]. rewrite E1.
  cbn [item nth_error bind call Script.call exec handle log outcome final].
  set (s1 := add_node _ s).
  assert (F1 : forall n, find_node s1 n
                         = match f n with
                           | Some x => Some x
                           | None => if String.eqb g n
                                     then Some (mk_node g Locator None
                                                        zero3 zero3)
                                     else None
                           end).
  { intros n. unfold s1. rewrite find_add, Hag. reflexivity. }
  assert (E2 : node_exists s1 g = true).
  { now rewrite exists_find, F1, Hg, String.eqb_refl. }
  assert (E3 : node_exists s1 guides_grp = true).
  { rewrite exists_find, F1. destruct (f guides_grp); [reflexivity|].
    now contradiction Hgrp. }
  rewrite E2, E3.
  destruct (String.eqb_spec g guides_grp) as [|_]; [contradiction|].
  cbn [andb negb bind call Script.call exec handle log outcome final].
  eexists. eexists. split; [reflexivity|].
  intros n. rewrite find_update, F1 by reflexivity.
  destruct (String.eqb_spec g n) as [<-|Hn].
  - now rewrite Hg.
  - now destruct (f n).
Qed.

(** Copying a flipped position and a rotation from one node to another. *)
Lemma run_mirror_x_world (s : scene) (f : string -> option node)
      (src dst : string) (ndl ndr : node) (t_m : list float) :
  agrees s f -> f src = Some ndl -> f dst = Some ndr ->
  mirror_t (nd_t ndl) = Some t_m ->
  exists lg s',
    exec handle (mirror_x_world src dst) s = mk_run lg (Done tt) s'
    /\ agrees s' (fun n => if String.eqb dst n
                           then Some (set_ro (nd_ro ndl) (set_t t_m ndr))
                           else f n).
Proof.
  intros Hag Hs Hd Hm.
  assert (E1 : node_exists s dst = true).
  { now rewrite (agrees_exists s f dst Hag), Hd. }
  unfold mirror_x_world.
  cbn [bind call Script.call exec handle]. rewrite Hag, Hs.
  cbn [option_map bind call Script.call exec handle log outcome final].
  rewrite Hag, Hs.
  cbn [option_map bind call Script.call exec handle log outcome final].
  rewrite Hm.
  cbn [bind call Script.call exec handle log outcome final].
  rewrite E1.
  cbn [bind call Script.call exec handle log outcome final].
  assert (E2 : node_exists (update_node dst (set_t t_m) s) dst = true).
  { rewrite exists_find, find_update, String.eqb_refl, Hag, Hd by reflexivity.
    reflexivity. }
  rewrite E2.
  cbn [bind call Script.call exec handle log outcome final].
  eexists. eexists. split; [reflexivity|].
  intros n. rewrite !find_update by reflexivity.
  destruct (String.eqb_spec dst n) as [<-|Hn]; [|apply Hag].
  now rewrite Hag, Hd.
Qed.


Lemma left_right_differ (a b : string) :
  startswith a "L_" = true -> startswith b "R_" = true -> a <> b.
Proof.
  intros Ha Hb E. subst b. apply startswith_2 in Ha. rewrite Ha in Hb.
  unfold startswith in Hb. now rewrite prefix_neq in Hb.
Qed.

Lemma left_not_group (a : string) :
  startswith a "L_" = true -> a <> guides_grp.
Proof. intros Ha E. subst a. discriminate Ha. Qed.

Lemma right_not_group (a : string) :
  startswith a "R_" = true -> a <> guides_grp.
Proof. intros Ha E. subst a. discriminate Ha. Qed.

Section MirrorLoop.
Variable s0 : scene.
Hypothesis Hpos :
  forall n nd, find_node s0 n = Some nd ->
               exists t_m, mirror_t (nd_t nd) = Some t_m.

Lemma find_right_none (pre : spec_t) (n : string) :
  (forall e, In e pre -> right_guide e <> n) ->
  find (fun e => mirrored s0 e && String.eqb (right_guide e) n) pre = None.
Proof.
  induction pre as [|x pre IH]; intros H; [reflexivity|].
  cbn [find].
  destruct (String.eqb_spec (right_guide x) n) as [E|_].
  - exfalso. apply (H x); [now left | exact E].
  - rewrite andb_false_r. apply IH. intros e He. apply H. now right.
Qed.

Lemma lookup_mirrored_base (pre : spec_t) (n : string) :
  (forall e, In e pre -> right_guide e <> n) -> n <> guides_grp ->
  lookup_mirrored s0 pre n = find_node s0 n.
Proof.
  intros H Hg. unfold lookup_mirrored. rewrite find_right_none by exact H.
  destruct (find_node s0 n); [reflexivity|].
  now destruct (String.eqb_spec n guides_grp).
Qed.

Lemma lookup_mirrored_group (pre : spec_t) :
  (forall e, In e pre -> right_guide e <> guides_grp) ->
  lookup_mirrored s0 pre guides_grp <> None.
Proof.
  intros H. unfold lookup_mirrored. rewrite find_right_none by exact H.
  destruct (find_node s0 guides_grp); [discriminate|].
  rewrite String.eqb_refl. discriminate.
Qed.

Lemma lookup_mirrored_snoc (pre : spec_t) (e : entry) (n : string) :
  lookup_mirrored s0 (pre ++ [e]) n
  = match find (fun e => mirrored s0 e && String.eqb (right_guide e) n) pre with
    | Some e' => Some (right_node s0 e')
    | None =>
        if mirrored s0 e && String.eqb (right_guide e) n
        then Some (right_node s0 e)
        else match find_node s0 n with
             | Some nd => Some nd
             | None => if String.eqb n guides_grp then Some guides_node
                       else None
             end
    end.
Proof.
  unfold lookup_mirrored. rewrite find_app_entry.
  destruct (find _ pre); [reflexivity|].
  cbn [find]. now destruct (mirrored s0 e && String.eqb (right_guide e) n).
Qed.

(** One pass of the loop body. *)
Lemma mirror_entry_run (pre : spec_t) (e : entry) (s : scene) :
  agrees s (lookup_mirrored s0 pre) ->
  startswith (guide_of e) "L_" = true ->
  startswith (right_guide e) "R_" = true ->
  (forall e', In e' pre -> startswith (right_guide e') "R_" = true) ->
  ~ In (right_guide e) (map right_guide pre) ->
  outcome (exec handle (mirror_entry e) s) = Done tt
  /\ agrees (final (exec handle (mirror_entry e) s))
            (lookup_mirrored s0 (pre ++ [e])).
Proof.
  intros Hag HL HR Hpre Hnew.
  assert (HgL : lookup_mirrored s0 pre (guide_of e) = find_node s0 (guide_of e)).
  { apply lookup_mirrored_base; [|now apply left_not_group].
    intros e' He' E. apply (left_right_differ _ _ HL (Hpre e' He')).
    now symmetry. }
  assert (HgR : lookup_mirrored s0 pre (right_guide e)
                = find_node s0 (right_guide e)).
  { apply lookup_mirrored_base; [|now apply right_not_group].
    intros e' He' E. apply Hnew. rewrite <- E. now apply in_map. }
  assert (Hgrp : lookup_mirrored s0 pre guides_grp <> None).
  { apply lookup_mirrored_group. intros e' He'.
    apply right_not_group. now apply Hpre. }
  assert (Hnone : find (fun x => mirrored s0 x
                                 && String.eqb (right_guide x) (right_guide e))
                       pre = None).
  { apply find_right_none. intros e' He' E. apply Hnew. rewrite <- E.
    now apply in_map. }
  assert (EL : node_exists s (guide_of e) = mirrored s0 e).
  { rewrite (agrees_exists s _ _ Hag), HgL. unfold mirrored.
    now rewrite exists_find. }
  assert (ER : node_exists s (right_guide e) = node_exists s0 (right_guide e)).
  { rewrite (agrees_exists s _ _ Hag), HgR. now rewrite exists_find. }
  unfold mirror_entry. fold (guide_of e). fold (right_guide e).
  cbn [bind call Script.call exec handle]. rewrite EL.
  destruct (mirrored s0 e) eqn:Hm; cbn [negb].
  2:{ cbn [exec log outcome final]. split; [reflexivity|].
      intros n. rewrite lookup_mirrored_snoc, Hm. cbn [andb]. apply Hag. }
  cbn [bind call Script.call exec handle log outcome final]. rewrite ER.
  assert (Hgl : exists gl, find_node s0 (guide_of e) = Some gl).
  { unfold mirrored in Hm. rewrite exists_find in Hm.
    destruct (find_node s0 (guide_of e)) as [gl|]; [now exists gl|].
    discriminate. }
  destruct Hgl as (gl & Hgl).
  destruct (Hpos _ _ Hgl) as (t_m & Htm).
  assert (Hfl : flipped (world_t s0 (guide_of e)) = t_m).
  { unfold flipped, world_t. now rewrite Hgl, Htm. }
  assert (Hro : world_ro s0 (guide_of e) = nd_ro gl).
  { unfold world_ro. now rewrite Hgl. }
  assert (Hdiff : guide_of e <> right_guide e).
  { now apply left_right_differ. }
  rewrite exec_bind.
  destruct (node_exists s0 (right_guide e)) eqn:Hex; cbn [negb].
  - (* the right guide is there *)
    rewrite exists_find in Hex.
    destruct (find_node s0 (right_guide e)) as [gr|] eqn:Hgr; [|discriminate].
    cbn [exec]. unfold then_run. cbn [outcome final log].
    destruct (run_mirror_x_world s _ (guide_of e) (right_guide e) gl gr t_m
                Hag (eq_trans HgL Hgl) HgR Htm)
      as (lg & s' & Hrun & Hag').
    rewrite Hrun. cbn [outcome final log]. split; [reflexivity|].
    apply (agrees_ext _ _ _ Hag'). intros n.
    rewrite lookup_mirrored_snoc, Hm. cbn [andb].
    destruct (String.eqb_spec (right_guide e) n) as [<-|Hn].
    + rewrite Hnone. unfold right_node. now rewrite Hgr, Hfl, Hro.
    + reflexivity.
  - (* a new locator *)
    rewrite exists_find in Hex.
    destruct (find_node s0 (right_guide e)) as [gr|] eqn:Hgr; [discriminate|].
    destruct (run_make_locator s _ (right_guide e) Hag HgR Hgrp
                (right_not_group _ HR))
      as (lg1 & s1 & Hrun1 & Hag1).
    rewrite Hrun1. unfold then_run. cbn [outcome final log].
    destruct (run_mirror_x_world s1 _ (guide_of e) (right_guide e) gl
                (mk_node (right_guide e) Locator (Some guides_grp) zero3 zero3)
                t_m Hag1)
      as (lg & s' & Hrun & Hag'); [| |exact Htm|].
    { destruct (String.eqb_spec (right_guide e) (guide_of e)) as [E|_].
      - now contradiction Hdiff.
      - now rewrite HgL. }
    { now rewrite String.eqb_refl. }
    rewrite Hrun. cbn [outcome final log]. split; [reflexivity|].
    apply (agrees_ext _ _ _ Hag'). intros n.
    rewrite lookup_mirrored_snoc, Hm. cbn [andb].
    destruct (String.eqb_spec (right_guide e) n) as [<-|Hn].
    + rewrite Hnone. unfold right_node. now rewrite Hgr, Hfl, Hro.
    + reflexivity.
Qed.

Lemma mirror_loop (rest : spec_t) :
  forall (pre : spec_t) (s : scene),
    agrees s (lookup_mirrored s0 pre) ->
    (forall e, In e (pre ++ rest) ->
       startswith (guide_of e) "L_" = true
       /\ startswith (right_guide e) "R_" = true) ->
    NoDup (map right_guide (pre ++ rest)) ->
    outcome (exec handle (for_each rest mirror_entry) s) = Done tt
    /\ agrees (final (exec handle (for_each rest mirror_entry) s))
              (lookup_mirrored s0 (pre ++ rest)).
Proof.
  induction rest as [|e rest IH]; intros pre s Hag Hok Hnd.
  - rewrite List.app_nil_r. now split.
  - assert (Hin : In e (pre ++ e :: rest)).
    { apply in_or_app. right. now left. }
    destruct (mirror_entry_run pre e s Hag (proj1 (Hok e Hin))
                (proj2 (Hok e Hin))) as (Ho & Hag1).
    { intros e' He'. apply Hok. apply in_or_app. now left. }
    { rewrite map_app in Hnd. cbn [map] in Hnd.
      apply NoDup_remove_2 in Hnd. intros H. apply Hnd.
      apply in_or_app. now left. }
    cbn [for_each]. rewrite exec_bind. unfold then_run. rewrite Ho.
    cbn [outcome final log].
    replace (pre ++ e :: rest) with ((pre ++ [e]) ++ rest) in *
      by now rewrite <- List.app_assoc.
    apply (IH (pre ++ [e]) _ Hag1 Hok Hnd).
Qed.

End MirrorLoop.


Lemma positioned_pos (s : scene) :
  positioned s = true ->
  forall n nd, find_node s n = Some nd ->
               exists t_m, mirror_t (nd_t nd) = Some t_m.
Proof.
  intros H n nd Hn. apply find_some in Hn. destruct Hn as [Hin _].
  unfold positioned in H. rewrite forallb_forall in H.
  specialize (H nd Hin). apply Nat.leb_le in H.
  destruct (nd_t nd) as [|x [|y [|z t]]]; simpl in H; try lia.
  eexists. reflexivity.
Qed.

Lemma ensure_guides_grp_run (s0 : scene) :
  exists lg s1,
    exec handle (ensure_group guides_grp) s0 = mk_run lg (Done guides_grp) s1
    /\ agrees s1 (lookup_mirrored s0 []).
Proof.
  unfold ensure_group. cbn [bind call Script.call exec handle].
  destruct (node_exists s0 guides_grp) eqn:Hex; cbn [negb].
  - exists [ObjExists guides_grp], s0. split; [reflexivity|].
    intros n. unfold lookup_mirrored. cbn [find].
    destruct (find_node s0 n) eqn:Hn; [reflexivity|].
    destruct (String.eqb_spec n guides_grp) as [->|]; [|reflexivity].
    rewrite exists_find, Hn in Hex. discriminate.
  - cbn [bind call Script.call exec handle log outcome final].
    rewrite Hex. cbn [exec log outcome final].
    eexists. eexists. split; [reflexivity|].
    intros n. rewrite find_add. unfold lookup_mirrored. cbn [find].
    destruct (find_node s0 n); [reflexivity|].
    unfold named. cbn [nd_name]. now rewrite String.eqb_sym.
Qed.

(** The whole pass, for a spec whose left entries are well named. *)
Lemma mirror_run (s0 : scene) (spec : spec_t) :
  (forall n nd, find_node s0 n = Some nd ->
                exists t_m, mirror_t (nd_t nd) = Some t_m) ->
  (forall e, In e (filter is_left spec) ->
     startswith (guide_of e) "L_" = true
     /\ startswith (right_guide e) "R_" = true) ->
  NoDup (map right_guide (filter is_left spec)) ->
  let r := exec handle (mirror_left_to_right_guides spec) s0 in
  outcome r = Done tt
  /\ selection (final r) = []
  /\ agrees (final r) (lookup_mirrored s0 (filter is_left spec)).
Proof.
  intros Hpos Hok Hnd. cbv zeta.
  destruct (ensure_guides_grp_run s0) as (lg & s1 & Hrun1 & Hag1).
  destruct (mirror_loop s0 Hpos (filter is_left spec) [] s1 Hag1 Hok Hnd)
    as (Ho & Hag2).
  cbn [Datatypes.app] in Hag2.
  unfold mirror_left_to_right_guides.
  change (filter (fun s => String.eqb (side s) "L") spec)
    with (filter is_left spec).
  rewrite exec_bind, Hrun1. unfold then_run. cbn [outcome final log]. cbv beta.
  rewrite exec_bind. unfold then_run. rewrite Ho. cbn [outcome final log].
  cbn [bind call Script.call exec handle log outcome final selection].
  repeat split. exact Hag2.
Qed.

Lemma NoDup_map_filter {X Y : Type} (f : X -> Y) (p : X -> bool) (l : list X) :
  NoDup (map f l) -> NoDup (map f (filter p l)).
Proof.
  induction l as [|x l IH]; intros H; [constructor|].
  cbn [map] in H. apply NoDup_cons_iff in H. destruct H as [Hx H].
  cbn [filter]. destruct (p x); [|now apply IH].
  cbn [map]. constructor; [|now apply IH].
  intros Hin. apply Hx. apply in_map_iff in Hin.
  destruct Hin as (y & <- & Hy). apply filter_In in Hy. now apply in_map.
Qed.

(** The left entries of a generated spec are well named. *)
Lemma generated_left_ok (sc nc fc segs : Z) :
  let spec := w_spec (rebuild_spec sc nc fc segs) in
  (forall e, In e (filter is_left spec) ->
     startswith (guide_of e) "L_" = true
     /\ startswith (right_guide e) "R_" = true)
  /\ NoDup (map right_guide (filter is_left spec)).
Proof.
  cbv zeta. rewrite rebuild_spec_closed. split.
  - intros e He. apply filter_In in He. destruct He as [He Hs].
    apply String.eqb_eq in Hs.
    destruct (entries_ok sc nc fc segs e He) as (_ & _ & HL).
    specialize (HL Hs). split.
    + apply guide_keeps_prefix; [discriminate | exact HL].
    + apply guide_keeps_prefix; [discriminate|]. now apply swap_LR_of_left.
  - apply NoDup_map_on.
    + intros x y Hx Hy E. apply filter_In in Hx, Hy.
      unfold right_guide in E. rewrite !guide_swap in E.
      apply swap_LR_inj in E.
      apply guide_name_inj_generated in E.
      * apply (FkBuildFacts.names_inj
                 (build_base_spec sc nc ++ fingers fc segs));
          [apply names_generated_NoDup | apply Hx | apply Hy | exact E].
      * apply (names_generated sc nc fc segs). apply in_map, Hx.
      * apply (names_generated sc nc fc segs). apply in_map, Hy.
    + apply (NoDup_map_inv name). apply NoDup_map_filter.
      apply names_generated_NoDup.
Qed.


Lemma same_right_guide (l : spec_t) (a b : entry) :
  NoDup (map right_guide l) -> In a l -> In b l ->
  right_guide a = right_guide b -> a = b.
Proof.
  induction l as [|x l IH]; [contradiction|].
  intros Hnd Ha Hb Hc.
  cbn [map] in Hnd. apply NoDup_cons_iff in Hnd. destruct Hnd as [Hx Hnd].
  destruct Ha as [->|Ha], Hb as [->|Hb]; try reflexivity.
  - exfalso. apply Hx. rewrite Hc. now apply in_map.
  - exfalso. apply Hx. rewrite <- Hc. now apply in_map.
  - now apply IH.
Qed.

(** The node the pass leaves for the right guide of a mirrored entry. *)
Lemma lookup_right (s0 : scene) (l : spec_t) (e : entry) :
  NoDup (map right_guide l) -> In e l -> mirrored s0 e = true ->
  lookup_mirrored s0 l (right_guide e) = Some (right_node s0 e).
Proof.
  intros Hnd Hl Hm. unfold lookup_mirrored.
  destruct (find _ l) as [e'|] eqn:Hf.
  - apply find_some in Hf. destruct Hf as [Hl' Hc].
    apply andb_true_iff in Hc. destruct Hc as [_ Hc].
    apply String.eqb_eq in Hc.
    now rewrite (same_right_guide _ e' e Hnd Hl' Hl Hc).
  - exfalso. apply (find_none _ _ Hf e) in Hl.
    now rewrite Hm, String.eqb_refl in Hl.
Qed.

Lemma guide_not_right (sc nc fc segs : Z) (e e' : entry) :
  let spec := w_spec (rebuild_spec sc nc fc segs) in
  In e spec -> In e' (filter is_left spec) -> guide_of e <> right_guide e'.
Proof.
  cbv zeta. intros He He' E.
  destruct (generated_left_ok sc nc fc segs) as (Hok & _).
  destruct (Hok e' He') as (_ & HR). rewrite <- E in HR.
  rewrite rebuild_spec_closed in He.
  destruct (entries_ok sc nc fc segs e He) as (_ & Hn & _).
  unfold guide_of in HR. rewrite guide_one_replace in HR.
  rewrite guide_keeps_unprefixed in HR; [discriminate | discriminate | exact Hn].
Qed.

Lemma guide_not_group (sc nc fc segs : Z) (e : entry) :
  In e (w_spec (rebuild_spec sc nc fc segs)) -> guide_of e <> guides_grp.
Proof.
  rewrite rebuild_spec_closed. intros He.
  destruct (generated_stem (name e)) as (stem & Hn & HJ).
  { apply (names_generated sc nc fc segs). now apply in_map. }
  unfold guide_of. rewrite Hn, guide_of_stem by exact HJ.
  intros H.
  now apply (FkBuildTheorems.suffix_differs stem "" "_Guid" "RigGuides_GR"
               "e" "P") in H.
Qed.

(** X14. On a scene whose nodes have three-component positions, the mirror
    pass over a generated spec runs to its end and leaves nothing selected.
    For every left-side entry whose guide is placed, the right guide is in
    the scene afterwards, at the position of the left guide with X negated
    and with the rotation of the left guide; a right guide that was not
    there before is a new locator under the guides group.  The guides of the
    spec -- center and left -- are left as they were, and so is every other
    node that is not the right guide of an entry. *)
Theorem mirror_guides_on_scene (sc nc fc segs : Z) (s0 : scene) :
  let spec := w_spec (rebuild_spec sc nc fc segs) in
  let r := exec handle (mirror_left_to_right_guides spec) s0 in
  positioned s0 = true ->
  outcome r = Done tt
  /\ selection (final r) = []
  /\ (forall e, In e spec -> side e = "L" -> placed s0 (name e) = true ->
        node_exists (final r) (right_guide e) = true
        /\ mirror_t (world_t s0 (guide_of e))
           = Some (world_t (final r) (right_guide e))
        /\ world_ro (final r) (right_guide e) = world_ro s0 (guide_of e)
        /\ (node_exists s0 (right_guide e) = false ->
            find_node (final r) (right_guide e)
            = Some (mk_node (right_guide e) Locator (Some guides_grp)
                            (world_t (final r) (right_guide e))
                            (world_ro s0 (guide_of e)))))
  /\ (forall e, In e spec ->
        find_node (final r) (guide_of e) = find_node s0 (guide_of e))
  /\ (forall n, node_exists s0 n = true ->
        (forall e, In e spec -> n <> right_guide e) ->
        find_node (final r) n = find_node s0 n).
Proof.
  cbv zeta. intros Hp.
  pose proof (positioned_pos s0 Hp) as Hpos.
  destruct (generated_left_ok sc nc fc segs) as (Hok & Hnd).
  destruct (mirror_run s0 _ Hpos Hok Hnd) as (Ho & Hsel & Hag).
  set (spec := w_spec (rebuild_spec sc nc fc segs)) in *.
  set (r := exec handle (mirror_left_to_right_guides spec) s0) in *.
  repeat apply conj; try assumption.
  - (* mirrored entries *)
    intros e He Hs Hpl.
    assert (Hl : In e (filter is_left spec)).
    { apply filter_In. split; [exact He|]. now apply String.eqb_eq. }
    assert (Hm : mirrored s0 e = true) by exact Hpl.
    assert (Hfin : find_node (final r) (right_guide e)
                   = Some (right_node s0 e)).
    { rewrite Hag. now apply lookup_right. }
    unfold mirrored in Hm. rewrite exists_find in Hm.
    destruct (find_node s0 (guide_of e)) as [gl|] eqn:Hgl; [|discriminate].
    destruct (Hpos _ _ Hgl) as (t_m & Htm).
    assert (Ht : world_t (final r) (right_guide e) = t_m).
    { unfold world_t at 1. rewrite Hfin. unfold right_node.
      cbn [set_ro set_t nd_t]. unfold flipped, world_t.
      now rewrite Hgl, Htm. }
    assert (Hr : world_ro (final r) (right_guide e) = nd_ro gl).
    { unfold world_ro at 1. rewrite Hfin. unfold right_node.
      cbn [set_ro set_t nd_ro]. unfold world_ro. now rewrite Hgl. }
    repeat apply conj.
    + now rewrite exists_find, Hfin.
    + rewrite Ht. unfold world_t. now rewrite Hgl.
    + rewrite Hr. unfold world_ro. now rewrite Hgl.
    + intros Hex. rewrite Hfin, Ht. unfold right_node.
      rewrite exists_find in Hex.
      destruct (find_node s0 (right_guide e)); [discriminate|].
      cbn [set_ro set_t nd_name nd_kind nd_parent nd_t nd_ro].
      unfold flipped, world_t. now rewrite Hgl, Htm.
  - (* the guides of the spec *)
    intros e He. rewrite Hag. apply lookup_mirrored_base.
    + intros e' He' E. now apply (guide_not_right sc nc fc segs e e' He He').
    + now apply (guide_not_group sc nc fc segs).
  - (* every other node *)
    intros n Hn Hnot. rewrite Hag. unfold lookup_mirrored.
    rewrite find_right_none.
    + rewrite exists_find in Hn. now destruct (find_node s0 n).
    + intros e He E. apply filter_In in He. now apply (Hnot e (proj1 He)).
Qed.

Lemma mirror_guides_on_scene_witness :
  let spec := w_spec (rebuild_spec 3 3 5 3) in
  let s0 := locators [("L_Clav_FK_Guide", [4; 5; 6]%float)] in
  let r := exec handle (mirror_left_to_right_guides spec) s0 in
  positioned s0 = true
  /\ outcome r = Done tt
  /\ find_node (final r) "L_Clav_FK_Guide" = find_node s0 "L_Clav_FK_Guide".
Proof.
  cbv zeta. split; [reflexivity|].
  destruct (mirror_guides_on_scene 3 3 5 3
              (locators [("L_Clav_FK_Guide", [4; 5; 6]%float)]) eq_refl)
    as (Ho & _ & _ & Hg & _).
  split; [exact Ho|].
  apply (Hg (mk_entry "L_CLAV" "L_Clav_FK_Jnt" (Some "Chest_FK_Jnt") "L" true)).
  vm_compute. tauto.
Defined.


Lemma find_ext_in {X : Type} (f g : X -> bool) (l : list X) :
  (forall x, In x l -> f x = g x) -> find f l = find g l.
Proof.
  induction l as [|x l IH]; intros H; [reflexivity|].
  cbn [find]. rewrite (H x) by now left.
  destruct (g x); [reflexivity|]. apply IH. intros y Hy. apply H. now right.
Qed.

(** X15. Mirroring twice is the same as mirroring once: on a scene whose
    nodes have three-component positions, a second mirror pass right after a
    first one runs to its end and leaves every node as the first pass left
    it. *)
Theorem mirror_guides_twice (sc nc fc segs : Z) (s0 : scene) :
  let spec := w_spec (rebuild_spec sc nc fc segs) in
  let r1 := exec handle (mirror_left_to_right_guides spec) s0 in
  let r2 := exec handle (mirror_left_to_right_guides spec) (final r1) in
  positioned s0 = true ->
  outcome r1 = Done tt
  /\ outcome r2 = Done tt
  /\ (forall n, find_node (final r2) n = find_node (final r1) n).
Proof.
  cbv zeta. intros Hp.
  pose proof (positioned_pos s0 Hp) as Hpos.
  destruct (generated_left_ok sc nc fc segs) as (Hok & Hnd).
  destruct (mirror_run s0 _ Hpos Hok Hnd) as (Ho1 & _ & Hag1).
  set (spec := w_spec (rebuild_spec sc nc fc segs)) in *.
  set (s1 := final (exec handle (mirror_left_to_right_guides spec) s0)) in *.
  set (left := filter is_left spec) in *.
  assert (Hleft : forall e, In e left ->
                    find_node s1 (guide_of e) = find_node s0 (guide_of e)).
  { intros e He. rewrite Hag1. apply lookup_mirrored_base.
    - intros e' He' E.
      apply (left_right_differ _ _ (proj1 (Hok e He)) (proj2 (Hok e' He'))).
      now symmetry.
    - apply left_not_group, (Hok e He). }
  assert (Hpos1 : forall n nd, find_node s1 n = Some nd ->
                    exists t_m, mirror_t (nd_t nd) = Some t_m).
  { intros n nd. rewrite Hag1. unfold lookup_mirrored.
    destruct (find _ left) as [e|] eqn:Hf.
    - intros [= <-]. apply find_some in Hf. destruct Hf as [_ Hc].
      apply andb_true_iff in Hc. destruct Hc as [Hm _].
      unfold mirrored in Hm. rewrite exists_find in Hm.
      unfold right_node. cbn [set_ro set_t nd_t]. unfold flipped, world_t.
      destruct (find_node s0 (guide_of e)) as [gl|] eqn:Hgl; [|discriminate].
      destruct (Hpos _ _ Hgl) as (t_m & Htm). rewrite Htm.
      destruct (nd_t gl) as [|x [|y [|z t]]]; try discriminate.
      injection Htm as <-. eexists. reflexivity.
    - destruct (find_node s0 n) as [nd0|] eqn:Hn.
      + intros [= <-]. now apply (Hpos n).
      + destruct (String.eqb n guides_grp); [|discriminate].
        intros [= <-]. eexists. reflexivity. }
  destruct (mirror_run s1 spec Hpos1 Hok Hnd) as (Ho2 & _ & Hag2).
  fold left in Hag2.
  split; [exact Ho1 | split; [exact Ho2|]].
  intros n. rewrite Hag2.
  assert (Hm : forall e, In e left -> mirrored s1 e = mirrored s0 e).
  { intros e He. unfold mirrored. now rewrite !exists_find, (Hleft e He). }
  unfold lookup_mirrored at 1.
  rewrite (find_ext_in _ (fun e => mirrored s0 e && String.eqb (right_guide e) n));
    [|intros e He; now rewrite (Hm e He)].
  destruct (find _ left) as [e|] eqn:Hf.
  - pose proof Hf as Hf'. apply find_some in Hf'. destruct Hf' as [He Hc].
    apply andb_true_iff in Hc. destruct Hc as [Hme Hc].
    apply String.eqb_eq in Hc. subst n.
    rewrite Hag1, (lookup_right s0 left e Hnd He Hme). f_equal.
    unfold right_node at 1, world_ro, world_t.
    rewrite (Hleft e He), Hag1, (lookup_right s0 left e Hnd He Hme).
    unfold right_node, world_ro, world_t. reflexivity.
  - rewrite Hag1. unfold lookup_mirrored. rewrite Hf.
    destruct (find_node s0 n); [reflexivity|].
    now destruct (String.eqb n guides_grp).
Qed.

Lemma mirror_guides_twice_witness :
  let spec := w_spec (rebuild_spec 3 3 5 3) in
  let s0 := locators [("L_Clav_FK_Guide", [4; 5; 6]%float)] in
  let r1 := exec handle (mirror_left_to_right_guides spec) s0 in
  let r2 := exec handle (mirror_left_to_right_guides spec) (final r1) in
  positioned s0 = true /\ outcome r2 = Done tt.
Proof.
  cbv zeta. split; [reflexivity|].
  exact (proj1 (proj2 (mirror_guides_twice 3 3 5 3
                         (locators [("L_Clav_FK_Guide", [4; 5; 6]%float)])
                         eq_refl))).
Defined.

End MirrorFacts.

(** ** The wizard's methods *)
Module WizardFacts.
Import PyStr PyStrFacts RigSpec RigSpecForms RigSpecFacts Script ScriptFacts
       ScriptForms AutoRig Wizard RigSpecMore.

Section Yields.
Context {C : Type} {A : C -> Type}.

Lemma yields_bind {R Q : Type} (P : R -> Prop) (P' : Q -> Prop)
      (p : prog C A R) (f : R -> prog C A Q) :
  yields P p -> (forall a, P a -> yields P' (f a)) -> yields P' (bind p f).
Proof.
  intros Hp Hf. induction Hp as [r Hr | c k _ IH]; cbn [bind].
  - now apply Hf.
  - constructor. exact IH.
Qed.

Lemma yields_for_each {X : Type} (xs : list X) (body : X -> prog C A unit) :
  (forall x, yields (fun _ => True) (body x)) ->
  yields (fun _ => True) (for_each xs body).
Proof.
  intros Hb. induction xs as [|x xs IH]; cbn [for_each].
  - now constructor.
  - apply (yields_bind (fun _ => True)); [apply Hb | intros _ _; exact IH].
Qed.

(** A script that yields never ends in a Python error, and what it returns
    satisfies the property. *)
Lemma exec_yields {R S : Type} (h : handler C A S) (P : R -> Prop)
      (p : prog C A R) :
  yields P p ->
  forall s,
    (forall e, outcome (exec h p s) <> PyError e)
    /\ (forall r, outcome (exec h p s) = Done r -> P r).
Proof.
  intros Hp. induction Hp as [r Hr | c k _ IH]; intros s; cbn [exec].
  - split; [discriminate|]. now intros r' [= <-].
  - destruct (h c s) as [[a s']|]; cbn [outcome].
    + apply IH.
    + split; discriminate.
Qed.

End Yields.

(** *** Back and Next *)

Lemma item_z_valid {X : Type} (l : list X) (i : Z) :
  (0 <= i < Z.of_nat (List.length l))%Z ->
  exists x, item_z l i = Ret x /\ nth_error l (Z.to_nat i) = Some x.
Proof.
  intros Hi. unfold item_z.
  destruct (Z.leb_spec 0 i); [|lia].
  destruct (Z.ltb_spec i (Z.of_nat (List.length l))); [|lia].
  cbn [andb]. unfold item.
  destruct (nth_error l (Z.to_nat i)) as [x|] eqn:Hn; [now exists x|].
  apply nth_error_None in Hn. lia.
Qed.

Lemma refresh_yields (w : wizard) :
  valid w -> yields (fun _ => True) (refresh_step_label w).
Proof.
  intros Hv. unfold refresh_step_label.
  destruct (item_z_valid (w_steps w) (w_step_index w) Hv) as (x & Hx & _).
  destruct (w_steps w) as [|e l] eqn:Hs.
  { unfold valid in Hv. rewrite Hs in Hv. simpl in Hv. lia. }
  rewrite Hx. cbn [bind].
  repeat first [apply yields_ret; exact I | apply yields_call; intros ?].
Qed.

Lemma press_yields (b : button) (w : wizard) :
  valid w ->
  yields (fun w' => w_spec w' = w_spec w /\ w_steps w' = w_steps w
                    /\ w_step_index w'
                       = step_to (Z.of_nat (List.length (w_steps w)))
                                 (w_step_index w) b
                    /\ valid w')
         (press b w).
Proof.
  intros Hv. unfold valid in Hv.
  destruct b; cbn [press]; unfold prev_step, next_step;
    (apply (yields_bind (fun _ => True));
     [apply refresh_yields; unfold valid, set_step_index; cbn; lia
     |intros _ _; constructor; unfold valid, set_step_index, step_to; cbn;
      repeat split; lia]).
Qed.

Lemma presses_yields (bs : list button) :
  forall w, valid w ->
    yields (fun w' => w_spec w' = w_spec w /\ w_steps w' = w_steps w
                      /\ w_step_index w'
                         = fold_left
                             (step_to (Z.of_nat (List.length (w_steps w))))
                             bs (w_step_index w)
                      /\ valid w')
           (presses bs w).
Proof.
  induction bs as [|b bs IH]; intros w Hv; cbn [presses fold_left].
  - constructor. repeat apply conj; auto; apply Hv.
  - apply (yields_bind _ _ _ _ (press_yields b w Hv)).
    intros w1 (Hsp & Hst & Hi & Hv1).
    specialize (IH w1 Hv1). rewrite Hsp, Hst, Hi in IH. exact IH.
Qed.

(** X16. From the wizard [rebuild_spec] leaves, any sequence of clicks on
    Back and Next keeps the step index a valid index of the steps, under any
    host: no click ends in a Python error (the lookup [steps[step_index]]
    never raises), the spec and the steps are not changed, and the index is
    the one that moving by one and clamping to the first and last step
    gives. *)
Theorem navigation_keeps_index_valid
        (S : Type) (h : handler cmd ans S) (s : S)
        (sc nc fc segs : Z) (bs : list button) :
  let w0 := rebuild_spec sc nc fc segs in
  let len := Z.of_nat (List.length (w_steps w0)) in
  let r := exec h (presses bs w0) s in
  (forall e, outcome r <> PyError e)
  /\ (forall w, outcome r = Done w ->
        w_spec w = w_spec w0 /\ w_steps w = w_steps w0
        /\ w_step_index w = fold_left (step_to len) bs 0%Z
        /\ (0 <= w_step_index w < len)%Z).
Proof.
  cbv zeta.
  assert (Hv : valid (rebuild_spec sc nc fc segs)).
  { unfold valid. rewrite steps_are_spec, spec_length.
    cbn [w_step_index rebuild_spec]. lia. }
  destruct (exec_yields h _ _ (presses_yields bs _ Hv) s) as (Hne & Hd).
  split; [exact Hne|]. intros w Hw.
  destruct (Hd w Hw) as (Hsp & Hst & Hi & Hvw).
  unfold valid in Hvw. rewrite Hst in Hvw.
  split; [exact Hsp | split; [exact Hst | split; [exact Hi | exact Hvw]]].
Qed.


(** *** Orienting the chains *)

Section Orient.
Context {S : Type} (h : handler cmd ans S).

Lemma orient_chain_yields (root : string) :
  yields (fun _ => True) (_orient_chain root).
Proof.
  unfold _orient_chain. apply yields_call. intros e.
  destruct e; cbn [negb]; [|now constructor].
  apply yields_call. intros kids.
  destruct (negb (nonempty kids)); [now constructor|].
  apply yields_call. intros [e|]; [|now constructor].
  apply yields_call. intros a. now constructor.
Qed.

Lemma orient_chain_asked (root : string) (s : S) :
  outcome (exec h (_orient_chain root) s) = Done tt ->
  asked (log (exec h (_orient_chain root) s)) = [root].
Proof.
  unfold _orient_chain. cbn [bind call Script.call exec].
  destruct (h (Scene (ObjExists root)) s) as [[e s1]|];
    cbn [log outcome]; [|discriminate].
  destruct e; cbn [negb exec log outcome]; [|reflexivity].
  destruct (h (ListRelativesChildJoints root) s1) as [[kids s2]|];
    cbn [log outcome]; [|discriminate].
  destruct (negb (nonempty kids)); cbn [exec log outcome]; [reflexivity|].
  destruct (h (TryOrientJoint root) s2) as [[r s3]|];
    cbn [log outcome]; [|discriminate].
  destruct r as [e|]; cbn [exec log outcome call Script.call]; [|reflexivity].
  destruct (h (Scene (Warning _)) s3) as [[a s4]|];
    cbn [log outcome]; [reflexivity | discriminate].
Qed.

Lemma asked_app (a b : list cmd) : asked (a ++ b) = asked a ++ asked b.
Proof. apply flat_map_app. Qed.

Lemma orient_loop_asked (xs : list string) :
  forall s,
    outcome (exec h (for_each xs _orient_chain) s) = Done tt ->
    asked (log (exec h (for_each xs _orient_chain) s)) = xs.
Proof.
  induction xs as [|x xs IH]; intros s; [reflexivity|].
  cbn [for_each]. rewrite exec_bind. unfold then_run.
  pose proof (orient_chain_asked x s) as Hx.
  destruct (outcome (exec h (_orient_chain x) s)) as [[]| |];
    cbn [outcome log]; try discriminate.
  intros Ho. rewrite asked_app, Hx, (IH _ Ho) by reflexivity. reflexivity.
Qed.

End Orient.

(** X17. Under any host, [orient_all_fk] never ends in a Python error, and
    when the host answers every call it visits all nine roots, in the order
    of the list, and then shows its message: an exception raised by the
    orient call of one chain is caught -- it only prints a warning -- and
    does not keep the chains after it from being visited. *)
Theorem orient_all_fk_visits_all_roots
        (S : Type) (h : handler cmd ans S) (s : S) :
  let r := exec h orient_all_fk s in
  (forall e, outcome r <> PyError e)
  /\ (outcome r = Done tt ->
      asked (log r) = roots
      /\ exists l,
           log r = l ++ [Scene (InViewMessage
                                  "Oriented FK chains (X→child, Z up).")]).
Proof.
  cbv zeta. split.
  - apply (exec_yields h (fun _ => True)).
    unfold orient_all_fk.
    apply (yields_bind (fun _ => True)).
    + apply yields_for_each. apply orient_chain_yields.
    + intros _ _. apply yields_call. intros a. now constructor.
  - unfold orient_all_fk. rewrite exec_bind. unfold then_run.
    pose proof (orient_loop_asked h roots s) as Hl.
    destruct (outcome (exec h (for_each roots _orient_chain) s)) as [[]| |];
      cbn [outcome log]; try discriminate.
    cbn [call Script.call exec].
    destruct (h (Scene (InViewMessage _)) _) as [[a s']|];
      cbn [outcome log]; [|discriminate].
    intros _. split.
    + rewrite asked_app, Hl by reflexivity. apply List.app_nil_r.
    + eexists. reflexivity.
Qed.

End WizardFacts.

(** ** The guide buttons on the reference host *)
Module GuideFacts.
Import PyStr PyStrFacts RigSpec RigSpecForms RigSpecFacts Script ScriptFacts
       AutoRig FlatScene FlatSceneFacts FkBuildFacts RigSpecMore MirrorScene
       MirrorFacts Wizard WizardFacts UiScene.

(** A run on the flat scene that ends normally is a run on this host. *)
Lemma exec_lift {R : Type} (p : AutoRig.script R) :
  forall (s : scene) (u : ui) (a : R),
    outcome (exec FlatScene.handle p s) = Done a ->
    exec UiScene.handle (lift p) (s, u)
    = mk_run (map Scene (log (exec FlatScene.handle p s))) (Done a)
             (final (exec FlatScene.handle p s), u).
Proof.
  induction p as [r | e | c k IH]; intros s u a; cbn [exec lift].
  - now intros [= <-].
  - discriminate.
  - cbn [UiScene.handle scene_of ui_of fst snd].
    destruct (FlatScene.handle c s) as [[x s']|] eqn:Hc;
      cbn [outcome log final]; [|discriminate].
    assert (E : scene_handle c s = Some (x, s')).
    { destruct c; try exact Hc; discriminate Hc. }
    rewrite E. intros Ho. rewrite (IH x s' u a Ho). reflexivity.
Qed.


Lemma refresh_run (w : wizard) (e : entry) (s : scene) (u : ui) :
  valid w ->
  nth_error (w_steps w) (Z.to_nat (w_step_index w)) = Some e ->
  exists lg,
    exec UiScene.handle (refresh_step_label w) (s, u)
    = mk_run lg (Done tt)
             (s, refreshed w e (node_exists s (guide_name_for_joint (name e)))).
Proof.
  intros Hv He. unfold refresh_step_label.
  destruct (item_z_valid (w_steps w) (w_step_index w) Hv) as (x & Hx & Hn).
  rewrite He in Hn. injection Hn as <-.
  destruct (w_steps w) as [|e0 l] eqn:Hs.
  { unfold valid in Hv. rewrite Hs in Hv. simpl in Hv. lia. }
  rewrite Hx.
  cbn [bind call Wizard.call Script.call exec UiScene.handle scene_handle
       FlatScene.handle scene_of ui_of fst snd log outcome final
       label back_enabled next_enabled].
  eexists. unfold refreshed. rewrite Hs. reflexivity.
Qed.

Section Guide.
Variables (sc nc fc segs : Z) (i : Z) (e : entry).
Let w : wizard := set_step_index (rebuild_spec sc nc fc segs) i.
Let g : string := guide_name_for_joint (name e).
Hypothesis Hi : (0 <= i)%Z.
Hypothesis He : nth_error (w_steps w) (Z.to_nat i) = Some e.

Lemma guide_step_valid : valid w.
Proof.
  unfold valid. cbn [w set_step_index w_step_index w_steps].
  assert (H : nth_error (w_steps w) (Z.to_nat i) <> None) by now rewrite He.
  apply nth_error_Some in H. cbn [w set_step_index w_steps] in H. lia.
Qed.

Lemma guide_step_in : In e (w_spec (rebuild_spec sc nc fc segs)).
Proof.
  apply nth_error_In in He. cbn [w set_step_index w_steps] in He.
  now rewrite steps_are_spec in He.
Qed.

Lemma guide_step_not_group : g <> guides_grp.
Proof. apply (guide_not_group sc nc fc segs), guide_step_in. Qed.

(** One click on Create/Select Guide. *)
Lemma create_run (s0 : scene) (u0 : ui) :
  exists lg s2,
    exec UiScene.handle (create_or_select_current_guide w) (s0, u0)
    = mk_run lg (Done tt) (mk_scene (nodes s2) [g], refreshed w e true)
    /\ agrees s2 (with_guide s0 g).
Proof.
  pose proof guide_step_valid as Hv. pose proof guide_step_not_group as Hg.
  destruct (ensure_guides_grp_run s0) as (lg1 & s1 & Hrun1 & Hag1).
  assert (Ho1 : outcome (exec FlatScene.handle (ensure_group guides_grp) s0)
                = Done guides_grp) by now rewrite Hrun1.
  destruct (item_z_valid (w_steps w) (w_step_index w) Hv) as (x & Hx & Hn).
  change (w_step_index w) with i in Hn. rewrite He in Hn. injection Hn as <-.
  assert (Eg : node_exists s1 g = node_exists s0 g).
  { rewrite (agrees_exists s1 _ g Hag1), exists_find.
    unfold lookup_mirrored. cbn [find].
    destruct (find_node s0 g); [reflexivity|].
    now destruct (String.eqb_spec g guides_grp). }
  assert (F1 : forall n, lookup_mirrored s0 [] n
                         = match find_node s0 n with
                           | Some nd => Some nd
                           | None => if String.eqb n guides_grp
                                     then Some guides_node else None
                           end) by reflexivity.
  unfold create_or_select_current_guide.
  rewrite exec_bind, (exec_lift _ s0 u0 guides_grp Ho1), Hrun1.
  unfold then_run. cbn [outcome final log]. cbv beta.
  rewrite Hx.
  cbn [bind call Wizard.call Script.call exec UiScene.handle scene_handle
       FlatScene.handle scene_of ui_of fst snd log outcome final].
  fold g. rewrite Eg.
  destruct (node_exists s0 g) eqn:Hex; cbn [negb bind].
  - (* the guide is there *)
    cbn [call Wizard.call Script.call exec UiScene.handle scene_handle
         FlatScene.handle scene_of ui_of fst snd forallb andb
         log outcome final].
    rewrite Eg. cbn [andb log outcome final].
    destruct (refresh_run w e (mk_scene (nodes s1) [g]) u0 Hv He) as (lg & Hr).
    fold g in Hr.
    change (node_exists (mk_scene (nodes s1) [g]) g) with (node_exists s1 g)
      in Hr.
    rewrite Eg in Hr. rewrite Hr. cbn [log outcome final].
    eexists. exists s1. split; [reflexivity|].
    intros n. rewrite Hag1, F1. unfold with_guide.
    destruct (find_node s0 n) eqn:Hn; [reflexivity|].
    destruct (String.eqb_spec g n) as [<-|]; [|reflexivity].
    rewrite exists_find, Hn in Hex. discriminate.
  - (* a new locator *)
    destruct (run_make_locator s1 _ g Hag1) as (lg2 & s2 & Hrun2 & Hag2).
    { rewrite F1. rewrite exists_find in Hex.
      destruct (find_node s0 g); [discriminate|].
      now destruct (String.eqb_spec g guides_grp). }
    { rewrite F1. destruct (find_node s0 guides_grp); [discriminate|].
      now rewrite String.eqb_refl. }
    { exact Hg. }
    assert (Ho2 : outcome (exec FlatScene.handle (make_locator g) s1) = Done g)
      by now rewrite Hrun2.
    rewrite exec_bind, (exec_lift _ s1 u0 g Ho2), Hrun2.
    unfold then_run. cbn [outcome final log]. cbv beta.
    assert (E2 : node_exists s2 g = true).
    { now rewrite (agrees_exists s2 _ g Hag2), String.eqb_refl. }
    cbn [bind call Wizard.call Script.call exec UiScene.handle scene_handle
         FlatScene.handle scene_of ui_of fst snd forallb andb
         log outcome final].
    rewrite E2. cbn [andb log outcome final].
    destruct (refresh_run w e (mk_scene (nodes s2) [g]) u0 Hv He) as (lg & Hr).
    fold g in Hr.
    change (node_exists (mk_scene (nodes s2) [g]) g) with (node_exists s2 g)
      in Hr.
    rewrite E2 in Hr. rewrite Hr. cbn [log outcome final].
    eexists. exists s2. split; [reflexivity|].
    intros n. rewrite Hag2, F1. unfold with_guide.
    destruct (find_node s0 n) eqn:Hn.
    + destruct (String.eqb_spec g n) as [<-|]; [|reflexivity].
      rewrite exists_find, Hn in Hex. discriminate.
    + reflexivity.
Qed.

End Guide.


(** X18. On the reference host, a click on Create/Select Guide at any step
    of a generated wizard runs to its end: afterwards the guide of the step
    is in the scene and is the only selected node, the label shows it as
    placed, and the scene is the one before the click plus -- where they
    were missing -- the guides group and a new locator for the guide, under
    the guides group at the origin.  A second click changes no node: the
    guide is created once. *)
Theorem create_guide_on_scene
        (sc nc fc segs i : Z) (e : entry) (s0 : scene) (u0 : ui) :
  let w := set_step_index (rebuild_spec sc nc fc segs) i in
  let g := guide_name_for_joint (name e) in
  let r := exec UiScene.handle (create_or_select_current_guide w) (s0, u0) in
  let r2 := exec UiScene.handle (create_or_select_current_guide w) (final r) in
  (0 <= i)%Z ->
  nth_error (w_steps w) (Z.to_nat i) = Some e ->
  outcome r = Done tt
  /\ selection (scene_of (final r)) = [g]
  /\ (forall n, find_node (scene_of (final r)) n = with_guide s0 g n)
  /\ ui_of (final r) = refreshed w e true
  /\ outcome r2 = Done tt
  /\ (forall n, find_node (scene_of (final r2)) n
                = find_node (scene_of (final r)) n).
Proof.
  cbv zeta. intros Hi He.
  destruct (create_run sc nc fc segs i e Hi He s0 u0)
    as (lg & s2 & Hrun & Hag).
  rewrite Hrun. cbn [log outcome final scene_of ui_of fst snd selection].
  destruct (create_run sc nc fc segs i e Hi He
              (mk_scene (nodes s2) [guide_name_for_joint (name e)])
              (refreshed (set_step_index (rebuild_spec sc nc fc segs) i) e true))
    as (lg' & s3 & Hrun' & Hag').
  rewrite Hrun'. cbn [log outcome final scene_of ui_of fst snd].
  repeat apply conj; try reflexivity.
  - intros n. apply Hag.
  - intros n. change (find_node (mk_scene (nodes s3) _) n) with (find_node s3 n).
    change (find_node (mk_scene (nodes s2) _) n) with (find_node s2 n).
    rewrite Hag'. unfold with_guide at 1.
    change (find_node (mk_scene (nodes s2) _) n) with (find_node s2 n).
    rewrite Hag. unfold with_guide.
    destruct (find_node s0 n); [reflexivity|].
    destruct (String.eqb (guide_name_for_joint (name e)) n); [reflexivity|].
    now destruct (String.eqb n guides_grp).
Qed.

Lemma create_guide_on_scene_witness :
  let w := set_step_index (rebuild_spec 3 3 5 3) 0 in
  let r := exec UiScene.handle (create_or_select_current_guide w)
                (locators [], mk_ui "" false false) in
  outcome r = Done tt
  /\ selection (scene_of (final r)) = ["COG_FK_Guide"]
  /\ find_node (scene_of (final r)) "COG_FK_Guide"
     = Some (new_guide "COG_FK_Guide").
Proof.
  destruct (create_guide_on_scene 3 3 5 3 0
              (mk_entry "COG" "COG_FK_Jnt" None "C" true)
              (locators []) (mk_ui "" false false))
    as (Ho & Hs & Hf & _); [lia | reflexivity|].
  cbv zeta. split; [exact Ho | split; [exact Hs|]].
  rewrite Hf. reflexivity.
Defined.


(** *** Snap Guide to Selection *)

Lemma snap_run (s : scene) (u : ui) (g t0 : string) (rest : list string)
      (tn : node) :
  selection s = t0 :: rest -> find_node s t0 = Some tn ->
  node_exists s g = true ->
  exec UiScene.handle (lift (snap_to_selection g)) (s, u)
  = mk_run [Scene LsSelTransforms; Scene (XformQueryMatrix t0);
            Scene (XformSetMatrix g (matrix_of tn))]
           (Done true)
           (update_node g (set_matrix (matrix_of tn)) s, u).
Proof.
  intros Hsel Ht Hg. unfold snap_to_selection.
  cbn [lift bind AutoRig.call Script.call exec UiScene.handle scene_handle
       FlatScene.handle scene_of ui_of fst snd].
  rewrite Hsel.
  cbn [lift bind AutoRig.call Script.call exec UiScene.handle scene_handle
       FlatScene.handle scene_of ui_of fst snd].
  rewrite Ht.
  cbn [option_map lift bind AutoRig.call Script.call exec UiScene.handle
       scene_handle FlatScene.handle scene_of ui_of fst snd].
  rewrite Hg.
  cbn [lift exec log outcome final]. reflexivity.
Qed.

Lemma set_matrix_exact (nd tn : node) :
  List.length (nd_t tn) = 3 ->
  set_matrix (matrix_of tn) nd = set_ro (nd_ro tn) (set_t (nd_t tn) nd).
Proof.
  intros H. unfold set_matrix, matrix_of.
  destruct (nd_t tn) as [|x [|y [|z [|]]]]; try discriminate H.
  reflexivity.
Qed.

(** X19. On the reference host, Snap Guide to Selection at a step whose
    guide is not in the scene yet does not snap to what the user selected:
    it first creates the guide, which selects the guide itself, and then
    snaps the guide to that selection -- to itself.  The run ends normally
    with the new guide at the origin, under the guides group and selected,
    whatever was selected before; no other node of the scene is changed. *)
Theorem snap_without_guide_snaps_to_itself
        (sc nc fc segs i : Z) (e : entry) (s0 : scene) (u0 : ui) :
  let w := set_step_index (rebuild_spec sc nc fc segs) i in
  let g := guide_name_for_joint (name e) in
  let r := exec UiScene.handle (snap_current_guide w) (s0, u0) in
  (0 <= i)%Z ->
  nth_error (w_steps w) (Z.to_nat i) = Some e ->
  node_exists s0 g = false ->
  outcome r = Done tt
  /\ In (Scene (XformQueryMatrix g)) (log r)
  /\ selection (scene_of (final r)) = [g]
  /\ find_node (scene_of (final r)) g = Some (new_guide g)
  /\ (forall n, find_node (scene_of (final r)) n = with_guide s0 g n)
  /\ ui_of (final r) = refreshed w e true.
Proof.
  cbv zeta. intros Hi He Hex.
  pose proof (guide_step_valid sc nc fc segs i e Hi He) as Hv.
  destruct (create_run sc nc fc segs i e Hi He s0 u0)
    as (lg & s2 & Hrun & Hag).
  set (w := set_step_index (rebuild_spec sc nc fc segs) i) in *.
  set (g := guide_name_for_joint (name e)) in *.
  destruct (item_z_valid (w_steps w) (w_step_index w) Hv) as (x & Hx & Hn).
  change (w_step_index w) with i in Hn. rewrite He in Hn. injection Hn as <-.
  assert (Hnew : with_guide s0 g g = Some (new_guide g)).
  { unfold with_guide. rewrite exists_find in Hex.
    destruct (find_node s0 g); [discriminate|]. now rewrite String.eqb_refl. }
  set (s3 := mk_scene (nodes s2) [g]).
  assert (Hg3 : find_node s3 g = Some (new_guide g)).
  { change (find_node s3 g) with (find_node s2 g). now rewrite Hag. }
  assert (Eg3 : node_exists s3 g = true) by now rewrite exists_find, Hg3.
  pose proof (snap_run s3 (refreshed w e true) g g [] (new_guide g)
                eq_refl Hg3 Eg3) as Hsnap.
  set (s4 := update_node g (set_matrix (matrix_of (new_guide g))) s3) in *.
  assert (H4 : forall n, find_node s4 n = with_guide s0 g n).
  { intros n. unfold s4. rewrite find_update by reflexivity.
    destruct (String.eqb_spec g n) as [<-|].
    - now rewrite Hg3, Hnew.
    - apply Hag. }
  assert (Eg4 : node_exists s4 g = true) by now rewrite exists_find, H4, Hnew.
  destruct (refresh_run w e s4 (refreshed w e true) Hv He) as (lg' & Hr).
  fold g in Hr. rewrite Eg4 in Hr.
  assert (Hall : exists lg0,
             exec UiScene.handle (snap_current_guide w) (s0, u0)
             = mk_run (lg0 ++ [Scene LsSelTransforms; Scene (XformQueryMatrix g);
                               Scene (XformSetMatrix g
                                        (matrix_of (new_guide g)))] ++ lg')
                      (Done tt) (s4, refreshed w e true)).
  { unfold snap_current_guide. rewrite Hx.
    cbn [bind call Wizard.call Script.call exec UiScene.handle scene_handle
         FlatScene.handle scene_of ui_of fst snd log outcome final].
    fold g. rewrite Hex. cbn [negb].
    rewrite exec_bind, Hrun. unfold then_run. cbn [log outcome final]. cbv beta.
    fold s3.
    rewrite exec_bind, Hsnap. unfold then_run. cbn [log outcome final negb].
    cbv beta. cbn [bind]. rewrite Hr. cbn [log outcome final].
    exists (Scene (ObjExists g) :: lg). reflexivity. }
  destruct Hall as (lg0 & Hall). rewrite Hall.
  cbn [log outcome final scene_of ui_of fst snd].
  repeat apply conj; try reflexivity.
  - apply in_or_app. right. right. now left.
  - now rewrite H4.
  - exact H4.
Qed.

Lemma snap_without_guide_witness :
  let w := set_step_index (rebuild_spec 3 3 5 3) 0 in
  let s0 := mk_scene (nodes (locators [("Target", [1; 2; 3]%float)]))
                     ["Target"] in
  let r := exec UiScene.handle (snap_current_guide w)
                (s0, mk_ui "" false false) in
  outcome r = Done tt
  /\ find_node (scene_of (final r)) "COG_FK_Guide"
     = Some (new_guide "COG_FK_Guide").
Proof.
  destruct (snap_without_guide_snaps_to_itself 3 3 5 3 0
              (mk_entry "COG" "COG_FK_Jnt" None "C" true)
              (mk_scene (nodes (locators [("Target", [1; 2; 3]%float)]))
                        ["Target"])
              (mk_ui "" false false))
    as (Ho & _ & _ & Hf & _); [lia | reflexivity | reflexivity|].
  split; [exact Ho | exact Hf].
Defined.


(** X20. On the reference host, Snap Guide to Selection at a step whose
    guide is in the scene runs to its end.  With nothing selected it prints
    the warning "Nothing selected to snap to" and changes no node.  With a
    node selected that has a three-component position, the guide gets the
    world position and rotation of the first selected node, and no other
    node and not the selection is changed. *)
Theorem snap_with_guide
        (sc nc fc segs i : Z) (e : entry) (s0 : scene) (u0 : ui) :
  let w := set_step_index (rebuild_spec sc nc fc segs) i in
  let g := guide_name_for_joint (name e) in
  let r := exec UiScene.handle (snap_current_guide w) (s0, u0) in
  (0 <= i)%Z ->
  nth_error (w_steps w) (Z.to_nat i) = Some e ->
  node_exists s0 g = true ->
  (selection s0 = [] ->
     outcome r = Done tt
     /\ In (Scene (Warning "Nothing selected to snap to. Select a vertex/transform and try again."))
           (log r)
     /\ scene_of (final r) = s0)
  /\ (forall t0 rest tn,
        selection s0 = t0 :: rest -> find_node s0 t0 = Some tn ->
        List.length (nd_t tn) = 3 ->
        outcome r = Done tt
        /\ world_t (scene_of (final r)) g = nd_t tn
        /\ world_ro (scene_of (final r)) g = nd_ro tn
        /\ (forall n, n <> g ->
              find_node (scene_of (final r)) n = find_node s0 n)
        /\ selection (scene_of (final r)) = selection s0).
Proof.
  cbv zeta. intros Hi He Hex.
  pose proof (guide_step_valid sc nc fc segs i e Hi He) as Hv.
  set (w := set_step_index (rebuild_spec sc nc fc segs) i) in *.
  set (g := guide_name_for_joint (name e)) in *.
  destruct (item_z_valid (w_steps w) (w_step_index w) Hv) as (x & Hx & Hn).
  change (w_step_index w) with i in Hn. rewrite He in Hn. injection Hn as <-.
  split.
  - (* nothing selected *)
    intros Hsel.
    destruct (refresh_run w e s0 u0 Hv He) as (lg' & Hr).
    fold g in Hr. rewrite Hex in Hr.
    assert (Hall : exec UiScene.handle (snap_current_guide w) (s0, u0)
                   = mk_run ([Scene (ObjExists g); Scene LsSelTransforms;
                              Scene (Warning "Nothing selected to snap to. Select a vertex/transform and try again.")]
                             ++ lg')
                            (Done tt) (s0, refreshed w e true)).
    { unfold snap_current_guide, snap_to_selection. rewrite Hx.
      cbn [bind call Wizard.call Script.call exec UiScene.handle scene_handle
           FlatScene.handle scene_of ui_of fst snd log outcome final lift
           AutoRig.call].
      fold g. rewrite Hex.
      cbn [negb bind call Wizard.call Script.call exec UiScene.handle
           scene_handle FlatScene.handle scene_of ui_of fst snd log outcome
           final lift AutoRig.call].
      rewrite Hsel.
      cbn [negb bind call Wizard.call Script.call exec UiScene.handle
           scene_handle FlatScene.handle scene_of ui_of fst snd log outcome
           final lift AutoRig.call].
      rewrite Hr. reflexivity. }
    rewrite Hall. cbn [log outcome final scene_of fst].
    repeat apply conj; try reflexivity.
    right. right. now left.
  - (* a node is selected *)
    intros t0 rest tn Hsel Ht Hlen.
    pose proof (snap_run s0 u0 g t0 rest tn Hsel Ht Hex) as Hsnap.
    set (s1 := update_node g (set_matrix (matrix_of tn)) s0) in *.
    assert (H1 : forall n, find_node s1 n
                           = if String.eqb g n
                             then option_map
                                    (fun nd => set_ro (nd_ro tn)
                                                 (set_t (nd_t tn) nd))
                                    (find_node s0 n)
                             else find_node s0 n).
    { intros n. unfold s1. rewrite find_update by reflexivity.
      destruct (String.eqb g n); [|reflexivity].
      destruct (find_node s0 n); [|reflexivity].
      cbn [option_map]. now rewrite set_matrix_exact. }
    assert (Hg0 : exists gn, find_node s0 g = Some gn).
    { rewrite exists_find in Hex.
      destruct (find_node s0 g) as [gn|]; [now exists gn | discriminate]. }
    destruct Hg0 as (gn & Hg0).
    assert (Eg1 : node_exists s1 g = true).
    { now rewrite exists_find, H1, String.eqb_refl, Hg0. }
    destruct (refresh_run w e s1 u0 Hv He) as (lg' & Hr).
    fold g in Hr. rewrite Eg1 in Hr.
    assert (Hall : exists lg0,
               exec UiScene.handle (snap_current_guide w) (s0, u0)
               = mk_run lg0 (Done tt) (s1, refreshed w e true)).
    { unfold snap_current_guide. rewrite Hx.
      cbn [bind call Wizard.call Script.call exec UiScene.handle scene_handle
           FlatScene.handle scene_of ui_of fst snd log outcome final].
      fold g. rewrite Hex. cbn [negb bind].
      rewrite exec_bind, Hsnap. unfold then_run. cbn [log outcome final negb].
      cbv beta. cbn [bind]. rewrite Hr. cbn [log outcome final].
      eexists. reflexivity. }
    destruct Hall as (lg0 & Hall). rewrite Hall.
    cbn [log outcome final scene_of fst].
    repeat apply conj; try reflexivity.
    + unfold world_t. now rewrite H1, String.eqb_refl, Hg0.
    + unfold world_ro. now rewrite H1, String.eqb_refl, Hg0.
    + intros n Hn. rewrite H1.
      destruct (String.eqb_spec g n) as [E|]; [|reflexivity].
      now contradiction Hn.
Qed.

Lemma snap_with_guide_witness :
  let w := set_step_index (rebuild_spec 3 3 5 3) 0 in
  let s0 := mk_scene (nodes (locators [("Target", [1; 2; 3]%float);
                                       ("COG_FK_Guide", zero3)]))
                     ["Target"] in
  let r := exec UiScene.handle (snap_current_guide w)
                (s0, mk_ui "" false false) in
  outcome r = Done tt
  /\ world_t (scene_of (final r)) "COG_FK_Guide" = [1; 2; 3]%float.
Proof.
  destruct (snap_with_guide 3 3 5 3 0
              (mk_entry "COG" "COG_FK_Jnt" None "C" true)
              (mk_scene (nodes (locators [("Target", [1; 2; 3]%float);
                                          ("COG_FK_Guide", zero3)]))
                        ["Target"])
              (mk_ui "" false false))
    as (_ & H); [lia | reflexivity | reflexivity|].
  destruct (H "Target" [] (mk_node "Target" Locator None [1; 2; 3]%float zero3)
              eq_refl eq_refl eq_refl) as (Ho & Ht & _).
  split; [exact Ho | exact Ht].
Defined.

End GuideFacts.

(** ** The names of [MirrorControls] under the naming convention *)
Module NamingFacts.
Import PyStr PyStrFacts RigSpec RigSpecForms RigSpecFacts RigSpecExplicit
       RigSpecMore PyStrForms MirrorNames.

Lemma prefix_refl_app (p x : string) : String.prefix p (p ^^ x) = true.
Proof.
  induction p as [|c p IH]; cbn [append]; [now destruct x|].
  now rewrite prefix_eq.
Qed.

Lemma drop_append (a x : string) : drop (String.length a) (a ^^ x) = x.
Proof. induction a as [|c a IH]; [reflexivity | exact IH]. Qed.

Lemma replace_zero (old new s : string) :
  replace_from old new (Some 0) 0 s = s.
Proof. now destruct s. Qed.

(** Replacing once a string that begins with [old] replaces that
    beginning. *)
Lemma replace_first_prefix (o : ascii) (old' new x : string) :
  replace_count (String o old' ^^ x) (String o old') new (Some 1) = new ^^ x.
Proof.
  unfold replace_count. cbn [append replace_from].
  change (String o (old' ^^ x)) with (String o old' ^^ x).
  rewrite prefix_refl_app. cbn [option_map Nat.pred String.length].
  replace (S (String.length old') - 1) with (String.length old') by lia.
  now rewrite replace_from_skip, drop_append, replace_zero.
Qed.

(** A replacement copies what is in front of the first character that can
    begin an occurrence. *)
Lemma replace_from_copy_first (o : ascii) (old' new : string)
      (cnt : option nat) (a b : string) :
  all_chars (fun c => negb (Ascii.eqb c o)) a = true ->
  replace_from (String o old') new cnt 0 (a ^^ b)
  = a ^^ replace_from (String o old') new cnt 0 b.
Proof.
  intros Ha. induction a as [|c a IH]; [reflexivity|].
  cbn [all_chars] in Ha. apply andb_true_iff in Ha. destruct Ha as [Hc Ha].
  apply negb_true_iff, Ascii.eqb_neq in Hc.
  cbn [append].
  destruct cnt as [[|k]|].
  - now rewrite !replace_zero.
  - cbn [replace_from]. rewrite prefix_neq by congruence.
    f_equal. now apply IH.
  - cbn [replace_from]. rewrite prefix_neq by congruence.
    f_equal. now apply IH.
Qed.


Lemma endswith_append (a p : string) : endswith (a ^^ p) p = true.
Proof.
  unfold endswith. rewrite append_length.
  replace (String.length a + String.length p - String.length p)
    with (String.length a) by lia.
  rewrite drop_append, String.eqb_refl.
  apply andb_true_iff. split; [|reflexivity]. apply Nat.leb_le. lia.
Qed.

Lemma swap_L (x : string) : swap_LR ("L_" ^^ x) = "R_" ^^ x.
Proof.
  unfold swap_LR, startswith. now rewrite (prefix_refl_app "L_" x).
Qed.

Lemma split_last_plain (s : string) :
  all_chars not_bar s = true -> split_last "|" s = s.
Proof.
  induction s as [|c s IH]; [reflexivity|].
  cbn [all_chars]. intros H. apply andb_true_iff in H. destruct H as [Hc Hs].
  cbn [split_last].
  assert (E : existsb (Ascii.eqb "|") (list_ascii_of_string s) = false).
  { clear - Hs. induction s as [|d s IH]; [reflexivity|].
    cbn [all_chars] in Hs. apply andb_true_iff in Hs. destruct Hs as [Hd Hs].
    cbn [list_ascii_of_string existsb]. rewrite (IH Hs), orb_false_r.
    unfold not_bar in Hd. apply negb_true_iff in Hd.
    now rewrite Ascii.eqb_sym. }
  rewrite E. unfold not_bar in Hc. apply negb_true_iff in Hc. now rewrite Hc.
Qed.

(** The leaf of a full path. *)
Lemma split_last_path (path s : string) :
  all_chars not_bar s = true -> split_last "|" (path ^^ "|" ^^ s) = s.
Proof.
  intros Hs.
  assert (E : existsb (Ascii.eqb "|") (list_ascii_of_string s) = false).
  { clear - Hs. induction s as [|d s IH]; [reflexivity|].
    cbn [all_chars] in Hs. apply andb_true_iff in Hs. destruct Hs as [Hd Hs].
    cbn [list_ascii_of_string existsb]. rewrite (IH Hs), orb_false_r.
    unfold not_bar in Hd. apply negb_true_iff in Hd.
    now rewrite Ascii.eqb_sym. }
  change ("|" ^^ s) with (String "|" s).
  assert (B : forall p, existsb (Ascii.eqb "|")
                          (list_ascii_of_string (p ^^ String "|" s)) = true).
  { induction p as [|d p IH]; [reflexivity|].
    cbn [append list_ascii_of_string existsb]. now rewrite IH, orb_true_r. }
  induction path as [|c path IH].
  - cbn [append split_last]. now rewrite E.
  - cbn [append split_last]. now rewrite B.
Qed.

(** *** The group suffix *)

Lemma grp1_end (a : string) :
  all_chars not_G a = true -> grp_name_end (a ^^ "Grp1") = a ^^ "Grp".
Proof.
  intros H. unfold grp_name_end, replace_count.
  now rewrite replace_from_copy_first by exact H.
Qed.

Lemma no_match_G (y w : string) :
  all_chars not_G y = true -> 7 <= String.length y ->
  String.prefix "_Ctrl_Grp" (y ^^ w) = false.
Proof.
  intros H Hlen.
  destruct y as [|c0 [|c1 [|c2 [|c3 [|c4 [|c5 [|c6 y]]]]]]];
    try (simpl in Hlen; lia).
  cbn [all_chars] in H. repeat rewrite andb_true_iff in H.
  destruct H as (_ & _ & _ & _ & _ & _ & H6 & _).
  cbn [append].
  repeat match goal with
    | |- String.prefix (String ?x _) (String ?c _) = false =>
        destruct (ascii_dec x c) as [<-|];
        [rewrite prefix_eq | now apply prefix_neq]
    end.
  discriminate H6.
Qed.

Lemma jnt_of_grp (a : string) :
  all_chars not_G a = true -> jnt_name (a ^^ "_Ctrl_Grp") = a ^^ "_Jnt".
Proof.
  unfold jnt_name, replace, replace_count.
  induction a as [|c a IH]; intros H; [reflexivity|].
  cbn [append]. rewrite replace_from_head.
  - f_equal. apply IH. cbn [all_chars] in H.
    now apply andb_true_iff in H.
  - change (String c (a ^^ "_Ctrl_Grp"))
      with (String c a ^^ "_Ctrl_" ^^ "Grp").
    rewrite <- append_assoc. apply no_match_G.
    + rewrite all_chars_append, H. reflexivity.
    + rewrite append_length. simpl. lia.
Qed.

(** *** The control suffix *)

Lemma no_pair_tail (x y c : ascii) (a : string) :
  no_pair x y (String c a) = true -> no_pair x y a = true.
Proof.
  destruct a as [|d a]; [reflexivity|]. cbn [no_pair].
  intros H. now apply andb_true_iff in H.
Qed.

Lemma no_pair_cons (x y c : ascii) (a : string) :
  Ascii.eqb c x = false -> no_pair x y (String c a) = no_pair x y a.
Proof.
  intros H. destruct a as [|d a]; [reflexivity|].
  cbn [no_pair]. now rewrite H.
Qed.

Lemma no_match_Ct (c : ascii) (a : string) :
  no_pair "C" "t" (String c a) = true ->
  String.prefix "_Ctrl" (String c a ^^ "_Ctrl") = false.
Proof.
  intros H. cbn [append].
  destruct (ascii_dec "_" c) as [<-|]; [rewrite prefix_eq | now apply prefix_neq].
  destruct a as [|d a]; [reflexivity|]. cbn [append].
  destruct (ascii_dec "C" d) as [<-|]; [rewrite prefix_eq | now apply prefix_neq].
  destruct a as [|d2 a]; [reflexivity|]. cbn [append].
  destruct (ascii_dec "t" d2) as [<-|]; [|now apply prefix_neq].
  apply no_pair_tail in H. cbn [no_pair] in H. discriminate H.
Qed.

Lemma grp_of_ctrl (a : string) :
  no_pair "C" "t" a = true -> grp_name (a ^^ "_Ctrl") = a ^^ "_Ctrl_Grp".
Proof.
  unfold grp_name, replace, replace_count.
  induction a as [|c a IH]; intros H; [reflexivity|].
  cbn [append]. rewrite replace_from_head.
  - f_equal. apply IH. now apply no_pair_tail in H.
  - now apply (no_match_Ct c a).
Qed.


(** *** The left joints of a generated spec *)

Lemma digit_plain (c : ascii) : is_digit c = true -> plain c = true.
Proof.
  unfold is_digit, plain, not_G, not_bar. simpl. rewrite !orb_true_iff.
  intros H.
  repeat (destruct H as [H|H];
          [apply Ascii.eqb_eq in H; subst; reflexivity|]).
  discriminate.
Qed.

Lemma digit_not_C (c : ascii) : is_digit c = true -> Ascii.eqb c "C" = false.
Proof.
  unfold is_digit. simpl. rewrite !orb_true_iff. intros H.
  repeat (destruct H as [H|H];
          [apply Ascii.eqb_eq in H; subst; reflexivity|]).
  discriminate.
Qed.

Lemma no_pair_digits (d y : string) :
  all_digits d = true -> no_pair "C" "t" (d ^^ y) = no_pair "C" "t" y.
Proof.
  induction d as [|c d IH]; intros H; [reflexivity|].
  cbn [all_digits all_chars] in H. apply andb_true_iff in H.
  destruct H as [Hc Hd]. cbn [append].
  rewrite no_pair_cons by now apply digit_not_C.
  now apply IH.
Qed.

(** What is between "L_" and "_Jnt" in the name of a left entry. *)
Lemma left_stem (sc nc fc segs : Z) (e : entry) :
  In e (w_spec (rebuild_spec sc nc fc segs)) -> side e = "L" ->
  exists rest,
    name e = "L_" ^^ rest ^^ "_Jnt"
    /\ all_chars plain rest = true
    /\ no_pair "C" "t" rest = true.
Proof.
  rewrite spec_explicit. unfold explicit_spec, left_arm, left_leg.
  intros He Hs. break_in; subst; try discriminate Hs;
    try (match goal with
         | |- exists r, name ?x = _ /\ _ =>
             exists (drop 2 (stem_of (name x)))
         end; repeat split; reflexivity).
  match goal with
  | Hf : In ?f (py_range _ _), Hg : In ?g (py_range _ _) |- _ =>
      apply py_range_spec in Hf; apply py_range_spec in Hg;
      exists ("Finger_" ^^ fmt_02d f ^^ "_" ^^ fmt_02d g ^^ "_FK")
  end.
  assert (Hd : forall z, (1 <= z)%Z -> all_chars plain (fmt_02d z) = true).
  { intros z Hz. apply (all_chars_impl is_digit); [apply digit_plain|].
    apply fmt_02d_digits. lia. }
  repeat split.
  - cbn [name finger_entry]. unfold finger_name.
    cbn [append]. repeat (rewrite append_assoc; cbn [append]). reflexivity.
  - cbn [append all_chars]. rewrite all_chars_append. cbn [append all_chars].
    rewrite all_chars_append. rewrite !Hd by lia. reflexivity.
  - cbn [append]. rewrite !no_pair_cons by reflexivity.
    rewrite no_pair_digits by (apply fmt_02d_digits; lia).
    rewrite no_pair_cons by reflexivity.
    rewrite no_pair_digits by (apply fmt_02d_digits; lia).
    reflexivity.
Qed.

(** X21. For every left joint [stem ^ "_Jnt"] of a generated spec, with its
    control group and control named by the convention the script documents
    ([stem ^ "_Ctrl_Grp"], [stem ^ "_Ctrl"]) and the duplicate of the group
    named by appending "1", the names computed by [MirrorControls] are the
    mirrored ones: the two renames of the duplicate give the [swap_LR] of
    the group name; the joint looked up for [matchTransform] is the
    [swap_LR] of the left joint; the control, which starts with "L_", is
    renamed to its [swap_LR], which ends with "_Ctrl"; and
    [reparent_controls_to_groups] sends that control to the renamed group.
    None of the names contains a path separator: taking the leaf of a name
    changes nothing, and the leaf of a full path that ends in the control
    is the control. *)
Theorem mirror_names_follow_convention (sc nc fc segs : Z) (e : entry) :
  In e (w_spec (rebuild_spec sc nc fc segs)) -> side e = "L" ->
  exists stem,
    name e = stem ^^ "_Jnt"
    /\ let grp := stem ^^ "_Ctrl_Grp" in
       let ctrl := stem ^^ "_Ctrl" in
       grp_name_end (new_grp_name (grp ^^ "1")) = swap_LR grp
       /\ jnt_name (split_last "|" (swap_LR grp)) = swap_LR (name e)
       /\ (forall path, split_last "|" (path ^^ "|" ^^ ctrl) = ctrl)
       /\ startswith ctrl "L_" = true
       /\ new_leaf ctrl = swap_LR ctrl
       /\ endswith (split_last "|" (swap_LR ctrl)) "_Ctrl" = true
       /\ grp_name (split_last "|" (swap_LR ctrl)) = swap_LR grp.
Proof.
  intros He Hs.
  destruct (left_stem sc nc fc segs e He Hs) as (rest & Hn & Hp & Hct).
  assert (HG : all_chars not_G rest = true).
  { apply (all_chars_impl plain); [|exact Hp].
    intros c Hc. unfold plain in Hc. now apply andb_true_iff in Hc. }
  assert (HB : all_chars not_bar rest = true).
  { apply (all_chars_impl plain); [|exact Hp].
    intros c Hc. unfold plain in Hc. now apply andb_true_iff in Hc. }
  assert (Bar : forall p sfx : string,
            all_chars not_bar p = true -> all_chars not_bar sfx = true ->
            split_last "|" (p ^^ rest ^^ sfx) = p ^^ rest ^^ sfx).
  { intros p sfx H1 H2. apply split_last_plain.
    now rewrite !all_chars_append, H1, HB, H2. }
  exists ("L_" ^^ rest). split; [now rewrite append_assoc|].
  cbv zeta. rewrite Hn, !append_assoc, !swap_L.
  rewrite !Bar by reflexivity.
  repeat apply conj.
  - unfold new_grp_name.
    rewrite (replace_first_prefix "L" "_" "R_").
    change ("R_" ^^ rest ^^ "_Ctrl_Grp" ^^ "1")
      with ("R_" ^^ rest ^^ "_Ctrl_" ^^ "Grp1").
    rewrite <- !append_assoc, grp1_end.
    + now rewrite !append_assoc.
    + now rewrite !all_chars_append, HG.
  - rewrite <- append_assoc, jnt_of_grp.
    + now rewrite append_assoc.
    + now rewrite all_chars_append, HG.
  - intros path. apply split_last_path.
    now rewrite !all_chars_append, HB.
  - unfold startswith. apply (prefix_refl_app "L_").
  - unfold new_leaf. apply (replace_first_prefix "L" "_" "R_").
  - rewrite <- append_assoc. apply endswith_append.
  - rewrite <- append_assoc, grp_of_ctrl.
    + now rewrite append_assoc.
    + cbn [append]. now rewrite !no_pair_cons by reflexivity.
Qed.

Lemma mirror_names_follow_convention_witness :
  exists stem,
    "L_Arm_01_FK_Jnt" = stem ^^ "_Jnt"
    /\ grp_name_end (new_grp_name (stem ^^ "_Ctrl_Grp" ^^ "1"))
       = swap_LR (stem ^^ "_Ctrl_Grp").
Proof.
  destruct (mirror_names_follow_convention 3 3 5 3
              (mk_entry "L_ARM1" "L_Arm_01_FK_Jnt" (Some "L_Clav_FK_Jnt")
                        "L" true))
    as (stem & Hn & Hg & _); [vm_compute; tauto | reflexivity|].
  exists stem. split; [exact Hn|].
  rewrite <- Hg. now rewrite append_assoc.
Defined.

End NamingFacts.

(** ** [reparent_controls_to_groups] under any host *)
Module ReparentFacts.
Import PyStr PyStrFacts Script ScriptFacts ScriptForms WizardFacts MirrorCtl
       MirrorNames MirrorCtlForms.

Lemma reparent_one_yields (ctrl : string) :
  yields (fun _ => True)
         (let ctrl_leaf := split_last "|" ctrl in
          if negb (endswith ctrl_leaf "_Ctrl") then Ret tt
          else bind (call (ObjExists (replace ctrl_leaf "_Ctrl" "_Ctrl_Grp")))
                    (fun e => if e
                              then bind (call (Parent ctrl
                                          (replace ctrl_leaf "_Ctrl" "_Ctrl_Grp")))
                                        (fun _ => Ret tt)
                              else call (Warning
                                     ("Missing control group: "
                                      ^^ replace ctrl_leaf "_Ctrl" "_Ctrl_Grp")))).
Proof.
  cbv zeta. destruct (negb (endswith (split_last "|" ctrl) "_Ctrl"));
    [now constructor|].
  apply yields_call. intros e. destruct e.
  - apply yields_call. intros a. now constructor.
  - apply yields_call. intros a. now constructor.
Qed.

(** X22. Under any host, [reparent_controls_to_groups] never ends in a
    Python error and never creates, renames, deletes or edits a node: it
    only asks whether a group exists, re-parents, and warns.  What it
    re-parents is one of the controls it was given whose leaf name ends with
    "_Ctrl", and the parent is the name obtained from that leaf by replacing
    "_Ctrl" with "_Ctrl_Grp"; a control whose leaf does not end with "_Ctrl"
    is passed over without a call. *)
Theorem reparent_controls_only_reparents
        (S : Type) (h : handler cmd ans S) (s : S) (controls : list string) :
  let r := exec h (reparent_controls_to_groups controls) s in
  (forall e, outcome r <> PyError e)
  /\ Forall (reparents_only controls) (log r)
  /\ (forallb (fun ctrl => negb (endswith (split_last "|" ctrl) "_Ctrl"))
              controls = true ->
      r = mk_run [] (Done tt) s).
Proof.
  cbv zeta. unfold reparent_controls_to_groups. repeat apply conj.
  - apply (exec_yields h (fun _ => True)).
    apply yields_for_each. intros ctrl. apply reparent_one_yields.
  - apply log_for_each_Forall. intros ctrl s' Hin.
    destruct (negb (endswith (split_last "|" ctrl) "_Ctrl")) eqn:He;
      [constructor|].
    apply negb_false_iff in He.
    assert (Hg : group_of controls ctrl
                   (replace (split_last "|" ctrl) "_Ctrl" "_Ctrl_Grp")).
    { now repeat split. }
    apply log_bind_Forall.
    + apply log_call_Forall. now exists ctrl.
    + intros e s1. destruct e.
      * apply log_bind_Forall; [now apply log_call_Forall | constructor].
      * apply (log_call_Forall h (reparents_only controls) (Warning _) s1).
        cbn. eauto.
  - intros Hall. induction controls as [|c l IH]; [reflexivity|].
    cbn [forallb] in Hall. apply andb_true_iff in Hall.
    destruct Hall as [Hc Hl].
    cbn [for_each]. rewrite Hc. cbn [bind]. now apply IH.
Qed.

End ReparentFacts.

(** ** Clearing the scene *)
Module ClearFacts.
Import PyStr PyStrFacts RigSpec Script ScriptFacts ScriptForms AutoRig Wizard
       WizardFacts WizardForms.

Section Clear.
Context {S : Type} (h : handler cmd ans S).

Lemma refresh_log (P : cmd -> Prop) (w : wizard) (s : S) :
  (forall t, P (LabelSetText t)) -> (forall b, P (BackSetEnabled b)) ->
  (forall b, P (NextSetEnabled b)) -> (forall n, P (Scene (ObjExists n))) ->
  Forall P (log (exec h (refresh_step_label w) s)).
Proof.
  intros HL HB HN HO. unfold refresh_step_label.
  destruct (w_steps w) as [|e0 l].
  { apply (log_call_Forall h P (LabelSetText _) s). apply HL. }
  apply log_bind_Forall.
  { unfold item_z, item.
    repeat match goal with
      | |- context [if ?b then _ else _] => destruct b
      | |- context [match ?x with Some _ => _ | None => _ end] => destruct x
      end; constructor. }
  intros x s1.
  apply log_bind_Forall; [apply log_call_Forall; apply HO|]. intros e s2.
  apply log_bind_Forall.
  { apply (log_call_Forall h P (LabelSetText _) s2). apply HL. }
  intros _ s3.
  apply log_bind_Forall.
  { apply (log_call_Forall h P (BackSetEnabled _) s3). apply HB. }
  intros _ s4.
  apply (log_call_Forall h P (NextSetEnabled _) s4). apply HN.
Qed.

Lemma safe_delete_log (n : string) (s : S) :
  n = guides_grp \/ n = joints_grp ->
  Forall clears_only (log (exec h (safe_delete n) s)).
Proof.
  intros Hn. unfold safe_delete. destruct n as [|c n]; [constructor|].
  apply log_bind_Forall; [now apply log_call_Forall|]. intros e s1.
  destruct e; [|constructor].
  apply (log_call_Forall h clears_only (Delete _) s1). exact Hn.
Qed.

Lemma safe_delete_yields (n : string) :
  yields (fun _ => True) (safe_delete n).
Proof.
  unfold safe_delete. destruct n as [|c n]; [now constructor|].
  apply yields_call. intros e. destruct e; [|now constructor].
  apply yields_call. intros a. now constructor.
Qed.

Lemma deleted_none (l : list cmd) : Forall no_delete l -> deleted l = [].
Proof.
  induction 1 as [|c l Hc _ IH]; [reflexivity|].
  cbn [deleted flat_map]. fold (deleted l). rewrite IH.
  now destruct c.
Qed.

End Clear.

(** X23. Under any host, [clear_all] deletes nothing but the two groups
    RigGuides_GRP and RigJoints_GRP, and creates, moves and re-parents
    nothing: besides a deletion it only asks whether a node exists, shows
    its message and refreshes the label.  When the step index is valid it
    never ends in a Python error.  A group that the host reports missing is
    not deleted: when both are missing no deletion is issued at all. *)
Theorem clear_all_deletes_only_the_groups
        (S : Type) (h : handler cmd ans S) (s : S) (w : wizard) :
  let r := exec h (clear_all w) s in
  Forall clears_only (log r)
  /\ (valid w -> forall e, outcome r <> PyError e)
  /\ (forall s1 s2,
        h (Scene (ObjExists guides_grp)) s = Some (false, s1) ->
        h (Scene (ObjExists joints_grp)) s1 = Some (false, s2) ->
        deleted (log r) = []).
Proof.
  cbv zeta. unfold clear_all. repeat apply conj.
  - apply log_bind_Forall; [apply safe_delete_log; now left|]. intros _ s1.
    apply log_bind_Forall; [apply safe_delete_log; now right|]. intros _ s2.
    apply log_bind_Forall; [now apply log_call_Forall|]. intros _ s3.
    now apply refresh_log.
  - intros Hv. apply (exec_yields h (fun _ => True)).
    apply (yields_bind (fun _ => True)); [apply safe_delete_yields|].
    intros _ _.
    apply (yields_bind (fun _ => True)); [apply safe_delete_yields|].
    intros _ _. apply yields_call. intros a. now apply refresh_yields.
  - intros s1 s2 H1 H2. apply deleted_none.
    cbn [safe_delete guides_grp joints_grp bind call Script.call exec].
    change (h (Scene (ObjExists "RigGuides_GRP")) s)
      with (h (Scene (ObjExists guides_grp)) s).
    rewrite H1. cbn [bind exec log].
    change (h (Scene (ObjExists "RigJoints_GRP")) s1)
      with (h (Scene (ObjExists joints_grp)) s1).
    rewrite H2. cbn [bind exec log].
    constructor; [exact I|]. constructor; [exact I|].
    destruct (h (Scene (InViewMessage "Cleared guides + joints groups.")) s2)
      as [[a s3]|]; cbn [log]; [|repeat constructor].
    constructor; [exact I|]. now apply refresh_log.
Qed.

End ClearFacts.
